(** * Netzob variable-domain engine: parser, specializer and fuzzing overlay

    A shallow embedding of the Python sources
    - [Model/Vocabulary/Types/Integer.py], [Model/Vocabulary/Types/BitArray.py],
    - [Model/Vocabulary/Domain/Variables/Leafs/AbstractVariableLeaf.py],
    - [Model/Vocabulary/Domain/Variables/Nodes/Alt.py],
    - [Model/Vocabulary/Domain/Parser/FlowParser.py], [.../FieldParser.py],
    - [Fuzzing/AlternativeMutator.py], [Fuzzing/Fuzz.py],
    - [Inference/Vocabulary/RelationFinder.py],
    - [Simulator/Channels/EthernetChannel.py],
    together with the properties the specification states about them and
    further properties read off the code.

    Conventions.  A [bitarray] is a [list bool]; [bytes] is a [list byte];
    Python [int] is [Z].  A Python exception is a constructor of [exn] and a
    computation that may raise returns a [result].  A generator is modelled
    by the values it yields, in the order it yields them, and by the way it
    ends. *)

From Stdlib Require Import ZArith Lia List Bool Sorted.
From Stdlib.Strings Require Import Byte.
From stdpp Require Import base option list gmap strings pretty.
Import ListNotations.

Local Open Scope Z_scope.

(** ** Exceptions and results *)

Inductive exn : Type :=
| ValueError
| TypeError
| IndexError
| StructError                   (* struct.error *)
| GenericException              (* a bare [Exception(...)] *)
| ParsingException
| InvalidParsingPathException
| MaxFuzzingException
| RecursionException
| RecursionError.               (* the interpreter's recursion limit *)

Inductive result (A : Type) : Type :=
| Ok (a : A)
| Raise (e : exn).
Arguments Ok {A} a.
Arguments Raise {A} e.

Definition bind {A B} (r : result A) (k : A -> result B) : result B :=
  match r with
  | Ok a => k a
  | Raise e => Raise e
  end.

Declare Scope result_scope.
Delimit Scope result_scope with result.
Notation "'do' x <- r ; k" := (bind r (fun x => k))
  (at level 10, x name, r at level 100, k at level 200) : result_scope.

Definition bitarray := list bool.
Definition bytes := list byte.

(** ** Integer.py *)

Module Integer.

(** [UnitSize], [Endianness] and [Sign] are declared in [AbstractType.py];
    the members are the ones the [Integer] docstring lists. *)
Inductive UnitSize :=
| SIZE_1 | SIZE_4 | SIZE_8 | SIZE_16 | SIZE_24 | SIZE_32 | SIZE_64.
Inductive Endianness := BIG | LITTLE.
Inductive Sign := SIGNED | UNSIGNED.

Definition value (u : UnitSize) : Z :=
  match u with
  | SIZE_1 => 1 | SIZE_4 => 4 | SIZE_8 => 8 | SIZE_16 => 16
  | SIZE_24 => 24 | SIZE_32 => 32 | SIZE_64 => 64
  end.

(** *** The [struct] format strings used by the module *)

Inductive unitFormat := fmt_b | fmt_h | fmt_i | fmt_q.

(** A format string: ['>'] or ['<'], a letter, and whether the letter was
    upper-cased (unsigned). *)
Record format := Format {
  endianFormat : Endianness;
  letter : unitFormat;
  upper : bool
}.

(** [Integer.computeFormat] *)
Definition computeFormat (unitSize : UnitSize) (endianness : Endianness)
    (sign : Sign) : result format :=
  let endianFormat := endianness in
  (do unitFormat <- match unitSize with
                    | SIZE_8 => Ok fmt_b
                    | SIZE_16 => Ok fmt_h
                    | SIZE_32 => Ok fmt_i
                    | SIZE_64 => Ok fmt_q
                    | _ => Raise ValueError
                    end;
   Ok (Format endianFormat unitFormat
         match sign with UNSIGNED => true | SIGNED => false end))%result.

(** *** Python's [struct.pack] / [struct.unpack] for one item, standard
    sizes (the format starts with ['<'] or ['>']). *)

Definition calcsize (l : unitFormat) : nat :=
  match l with fmt_b => 1 | fmt_h => 2 | fmt_i => 4 | fmt_q => 8 end%nat.

Definition Z_of_byte (b : byte) : Z := Z.of_N (Byte.to_N b).
Definition byte_of_Z (z : Z) : byte :=
  match Byte.of_N (Z.to_N (z mod 256)) with
  | Some b => b
  | None => x00
  end.

(** the [n] low bytes of [v], least significant first (two's complement
    for a negative [v]) *)
Fixpoint le_bytes (n : nat) (v : Z) : bytes :=
  match n with
  | O => []
  | S n' => byte_of_Z v :: le_bytes n' (v / 256)
  end.

Fixpoint le_value (bs : bytes) : Z :=
  match bs with
  | [] => 0
  | b :: bs' => Z_of_byte b + 256 * le_value bs'
  end.

Definition fmt_min (f : format) : Z :=
  if upper f then 0 else - 2 ^ (8 * Z.of_nat (calcsize (letter f)) - 1).
Definition fmt_max (f : format) : Z :=
  if upper f then 2 ^ (8 * Z.of_nat (calcsize (letter f))) - 1
  else 2 ^ (8 * Z.of_nat (calcsize (letter f)) - 1) - 1.

Definition struct_pack (f : format) (v : Z) : result bytes :=
  if (fmt_min f <=? v) && (v <=? fmt_max f) then
    let le := le_bytes (calcsize (letter f)) v in
    Ok match endianFormat f with LITTLE => le | BIG => rev le end
  else Raise StructError.

Definition struct_unpack (f : format) (data : bytes) : result Z :=
  if Nat.eqb (length data) (calcsize (letter f)) then
    let u := le_value match endianFormat f with
                      | LITTLE => data
                      | BIG => rev data
                      end in
    Ok (if upper f then u
        else if u <? 2 ^ (8 * Z.of_nat (calcsize (letter f)) - 1) then u
             else u - 2 ^ (8 * Z.of_nat (calcsize (letter f))))
  else Raise StructError.

(** *** Storage range *)

(** [getMinStorageValue]; [int(2**n / 2)] is exact for the sizes at hand. *)
Definition getMinStorageValue (unitSize : UnitSize) (sign : Sign) : Z :=
  match sign with
  | UNSIGNED => 0
  | SIGNED => - (2 ^ value unitSize / 2)
  end.

Definition getMaxStorageValue (unitSize : UnitSize) (sign : Sign) : Z :=
  match sign with
  | UNSIGNED => 2 ^ value unitSize - 1
  | SIGNED => 2 ^ value unitSize / 2 - 1
  end.

(** The unit sizes [computeFormat] has a [struct] letter for. *)
Definition integer_unitSize (u : UnitSize) : Prop :=
  u = SIZE_8 \/ u = SIZE_16 \/ u = SIZE_32 \/ u = SIZE_64.

(** [Integer._normalizeInterval] *)
Definition _normalizeInterval (interval : option (option Z * option Z))
    (unitSize : UnitSize) (sign : Sign) : result (Z * Z) :=
  let interval := match interval with
                  | None => (None, None)
                  | Some i => i
                  end in
  let min_interval := getMinStorageValue unitSize sign in
  let max_interval := getMaxStorageValue unitSize sign in
  if match fst interval with Some lo => lo <? min_interval | None => false end
     || match snd interval with
        | Some hi => max_interval <? hi
        | None => false
        end
  then Raise ValueError
  else Ok (match fst interval with Some lo => lo | None => min_interval end,
           match snd interval with Some hi => hi | None => max_interval end).


(** *** [Integer.decode]: an integer to its raw bytes *)
Definition decode (data : Z) (unitSize : UnitSize) (endianness : Endianness)
    (sign : Sign) : result bytes :=
  (do f <- computeFormat unitSize endianness sign;
   struct_pack f data)%result.

(** *** [Integer.encode]: raw bytes to an integer *)

(** [data[startPos:endPos]] for non-negative bounds *)
Definition slice (data : bytes) (startPos endPos : Z) : bytes :=
  drop (Z.to_nat startPos) (take (Z.to_nat endPos) data).

(** the values [i] takes in [for i in range(start, end, inc)] *)
Definition word_range (endianness : Endianness) (nbWords : Z) : list Z :=
  match endianness with
  | BIG => rev (map (fun k => Z.of_nat k + 1) (seq 0 (Z.to_nat nbWords)))
  | LITTLE => map Z.of_nat (seq 0 (Z.to_nat nbWords))
  end.

(** The body of the [for] loop, threading [(iWord, finalValue)]. *)
Definition encode_step (data : bytes) (unitSize : UnitSize)
    (endianness : Endianness) (perWordFormat : format)
    (padding_nullbytes : Z) (end_minus_inc : Z)
    (st : result (Z * Z)) (i : Z) : result (Z * Z) :=
  (do s <- st;
   let '(iWord, finalValue) := s in
   let startPos := iWord * value unitSize / 8 in
   let endPos := iWord * value unitSize / 8 + value unitSize / 8 in
   let wordData := slice data startPos endPos in
   let wordData :=
     if (0 <? padding_nullbytes) && (i =? end_minus_inc) then
       match endianness with
       | BIG => replicate (Z.to_nat padding_nullbytes) x00 ++ wordData
       | LITTLE => wordData ++ replicate (Z.to_nat padding_nullbytes) x00
       end
     else wordData in
   do unpackedWord <- struct_unpack perWordFormat wordData;
   let unpackedWord := Z.shiftl unpackedWord (value unitSize * iWord) in
   Ok (iWord + 1, finalValue + unpackedWord))%result.

Definition encode (data : bytes) (unitSize : UnitSize)
    (endianness : Endianness) (sign : Sign) : result Z :=
  (do perWordFormat <- computeFormat unitSize endianness sign;
   let len := Z.of_nat (length data) in
   let nbWords := len * 8 / value unitSize in
   let rest := (len * 8) mod value unitSize in
   let nbWords := if rest =? 0 then nbWords else nbWords + 1 in
   let padding_nullbytes :=
     if rest =? 0 then 0 else (value unitSize - rest) / 8 in
   let end_minus_inc :=
     match endianness with BIG => 0 - -1 | LITTLE => nbWords - 1 end in
   do s <- fold_left
             (encode_step data unitSize endianness perWordFormat
                padding_nullbytes end_minus_inc)
             (word_range endianness nbWords) (Ok (0, 0));
   Ok (snd s))%result.

End Integer.


(** ** BitArray.py *)

Module BitArray.

(** The attributes [canParse] reads: the fixed [value], if any, and the
    [size] in bits as the pair ([nbMinBits], [nbMaxBits]), each possibly
    [None]. *)
Record BitArray := {
  value : option bitarray;
  size : option Z * option Z
}.

(** [BitArray.canParse] on a [bitarray] argument (any other argument raises
    [TypeError]). *)
Definition canParse (self : BitArray) (data : bitarray) : bool :=
  if Nat.eqb (length data) 0 then false
  else if match value self with
          | Some v => bool_decide (v = data)
          | None => false
          end
  then true
  else
    let '(nbMinBits, nbMaxBits) := size self in
    let nbBitsData := Z.of_nat (length data) in
    if match nbMinBits with Some m => nbBitsData <? m | None => false end
    then false
    else if match nbMaxBits with Some m => m <? nbBitsData | None => false end
    then false
    else true.

(** The bit-length [n] lies within the declared bounds; a [None] bound does
    not constrain. *)
Definition within_bounds (size : option Z * option Z) (n : Z) : Prop :=
  match fst size with Some m => m <= n | None => True end
  /\ match snd size with Some m => n <= m | None => True end.

End BitArray.

(** ** Iterables *)

(** What a generator does when it is run to its end: the values it yields,
    then either a normal return ([raised = None]) or an exception that
    leaves the generator. *)
Record gen (A : Type) := Gen {
  yields : list A;
  raised : option exn
}.
Arguments Gen {A} yields raised.
Arguments yields {A} g.
Arguments raised {A} g.

(** Sequencing inside a generator: the second part runs only if the first
    returned normally. *)
Definition gen_seq {A} (g1 g2 : gen A) : gen A :=
  match raised g1 with
  | Some e => g1
  | None => Gen (yields g1 ++ yields g2) (raised g2)
  end.

(** The iterables the specializer hands around.  [W] is the state that
    running a generator may read and change (the PRNG, the mutators and
    their counters).  A list has a [len()]; a generator object has none.
    [PyFuzzMutate src] stands for the generator [fuzz_mutate()] over the
    iterable [src] (its [while True] loop yields without end, so it has no
    list of yields). *)
Inductive iterable (W A : Type) : Type :=
| PyList (l : list A)
| PyGen (run : W -> gen A * W)
| PyFuzzMutate (src : iterable W A).
Arguments PyList {W A} l.
Arguments PyGen {W A} run.
Arguments PyFuzzMutate {W A} src.

(** [l[i]] with Python's negative indices *)
Definition py_index {A} (l : list A) (i : Z) : result A :=
  let n := Z.of_nat (length l) in
  let k := if i <? 0 then i + n else i in
  if (0 <=? k) && (k <? n) then
    match l !! Z.to_nat k with
    | Some x => Ok x
    | None => Raise IndexError
    end
  else Raise IndexError.

(** ** Paths *)

(** Modelled from the spec: [GenericPath], [ParsingPath], [SpecializingPath]
    and [Memory] are not among the source files.  A path carries the bits
    assigned to each variable and a view of the memory; [duplicate] and
    [clone] copy it.  A variable is known by its identity [id].  Relation
    callbacks, which [addResult] would run, are outside this model: the
    trees considered here have no relation leaves. *)
Record GenericPath := Path {
  dataAssignedToVariable : gmap positive bitarray;
  memory : gmap positive bitarray
}.

(** Modelled from the spec: [GenericPath.getData], the bits assigned to the
    variable; it raises when the path holds none. *)
Definition getData (variable : positive) (p : GenericPath) : result bitarray :=
  match dataAssignedToVariable p !! variable with
  | Some d => Ok d
  | None => Raise GenericException
  end.

(** Modelled from the spec: [GenericPath.assignData]. *)
Definition assignData (data : bitarray) (variable : positive)
    (p : GenericPath) : GenericPath :=
  Path (<[variable := data]> (dataAssignedToVariable p)) (memory p).

(** Modelled from the spec: [GenericPath.addResult], the assignment of the
    parsed or produced bits to the variable. *)
Definition addResult (variable : positive) (res : bitarray)
    (p : GenericPath) : GenericPath :=
  assignData res variable p.

(** Modelled from the spec: [path.memory.memorize(variable, value)]. *)
Definition memorize (variable : positive) (v : bitarray)
    (p : GenericPath) : GenericPath :=
  Path (dataAssignedToVariable p) (<[variable := v]> (memory p)).

(** Modelled from the spec: [GenericPath.duplicate] and [clone], a copy of
    the path that shares nothing with it. *)
Definition duplicate (p : GenericPath) : GenericPath := p.
Definition clone (p : GenericPath) : GenericPath := p.

(** [bitarray(endian='big').frombytes(b)]: eight bits per byte, most
    significant first *)
Definition byte_bits (b : byte) : bitarray :=
  map (fun i => Z.testbit (Integer.Z_of_byte b) (Z.of_nat i))
      [7; 6; 5; 4; 3; 2; 1; 0]%nat.

Definition frombytes (bs : bytes) : bitarray := flat_map byte_bits bs.

(** ** Scopes and fuzzing modes *)

Module Scope.
Inductive t := CONSTANT | MESSAGE | SESSION | NONE.
End Scope.

(** The modes of a mutator; [specialize] names the first three. *)
Module FuzzingMode.
Inductive t := GENERATE | MUTATE | FIXED | NONE.
End FuzzingMode.

(** What a mutator's [generate()] hands back: the leaf mutators return
    [bytes], the Alt mutator returns an [int]. *)
Inductive genval :=
| GInt (i : Z)
| GBytes (b : bytes).

(** A mutator as the specializer sees it ([DomainMutator] is not among the
    source files): its [mode], its [count()] and its stateful [generate()],
    which may raise. *)
Record Mutator (W : Type) := {
  mode : FuzzingMode.t;
  mutator_count : Z;
  generate : W -> result genval * W
}.
Arguments mode {W} m.
Arguments mutator_count {W} m.
Arguments generate {W} m w.

(** [Fuzz.get(key)] for a variable key: the mutator registered for it *)
Record Fuzz (W : Type) := {
  get : positive -> option (Mutator W)
}.
Arguments get {W} f key.

(** [fuzz is not None and fuzz.get(self) is not None], then the mutator *)
Definition fuzz_get {W} (fuzz : option (Fuzz W)) (self : positive)
    : option (Mutator W) :=
  match fuzz with
  | Some f => get f self
  | None => None
  end.

(** ** AbstractVariableLeaf.py *)

Module AbstractVariableLeaf.

(** A leaf: its identity, its scope (possibly [None]), the [count()] of its
    data type, and the methods the subclasses define ([isDefined],
    [domainCMP], [valueCMP], [learn] are abstract in this class; [use],
    [regenerate], [regenerateAndMemorize] are called through [self]). *)
Record leaf (W : Type) := {
  id : positive;
  scope : option Scope.t;
  dataType_count : Z;
  isDefined : GenericPath -> bool;
  domainCMP : GenericPath -> bool -> bool -> result (gen GenericPath);
  valueCMP : GenericPath -> bool -> bool -> result (gen GenericPath);
  learn : GenericPath -> bool -> bool -> result (gen GenericPath);
  use : GenericPath -> bool -> iterable W GenericPath;
  regenerate : GenericPath -> bool -> iterable W GenericPath;
  regenerateAndMemorize : GenericPath -> bool -> iterable W GenericPath
}.
Arguments id {W} l.
Arguments scope {W} l.
Arguments dataType_count {W} l.
Arguments isDefined {W} l p.
Arguments domainCMP {W} l p acceptCallBack carnivorous.
Arguments valueCMP {W} l p acceptCallBack carnivorous.
Arguments learn {W} l p acceptCallBack carnivorous.
Arguments use {W} l p acceptCallBack.
Arguments regenerate {W} l p acceptCallBack.
Arguments regenerateAndMemorize {W} l p acceptCallBack.

Section Leaf.
Context {W : Type}.

(** [mode in [FuzzingMode.GENERATE, FuzzingMode.FIXED]] *)
Definition generate_or_fixed (m : FuzzingMode.t) : bool :=
  match m with
  | FuzzingMode.GENERATE | FuzzingMode.FIXED => true
  | _ => false
  end.

(** [AbstractVariableLeaf.count] *)
Definition count (self : leaf W) (fuzz : option (Fuzz W)) : Z :=
  match fuzz_get fuzz (id self) with
  | Some mutator =>
      if generate_or_fixed (mode mutator) then mutator_count mutator
      else dataType_count self
  | None => dataType_count self
  end.

(** [try: return r  except ParsingException: return []] *)
Definition except_ParsingException (r : result (gen GenericPath))
    : result (gen GenericPath) :=
  match r with
  | Raise ParsingException => Ok (Gen [] None)
  | _ => r
  end.

(** [AbstractVariableLeaf.parse]: the dispatch on the scope and on
    [isDefined], inside [try ... except ParsingException: return []].  The
    four scopes cover every case, so the final [raise] of the method is
    never reached. *)
Definition parse (self : leaf W) (parsingPath : GenericPath)
    (acceptCallBack carnivorous : bool) : result (gen GenericPath) :=
  match scope self with
  | None => Raise GenericException
  | Some sc =>
      except_ParsingException
        (if isDefined self parsingPath then
          match sc with
          | Scope.CONSTANT | Scope.SESSION =>
              valueCMP self parsingPath acceptCallBack carnivorous
          | Scope.MESSAGE =>
              learn self parsingPath acceptCallBack carnivorous
          | Scope.NONE =>
              domainCMP self parsingPath acceptCallBack carnivorous
          end
        else
          match sc with
          | Scope.CONSTANT => Ok (Gen [] None)
          | Scope.MESSAGE | Scope.SESSION =>
              learn self parsingPath acceptCallBack carnivorous
          | Scope.NONE =>
              domainCMP self parsingPath acceptCallBack carnivorous
          end)
  end.

(** The generator [fuzz_generate()] of [specialize], run for the [n]
    remaining rounds of [for _ in range(self.count(fuzz=fuzz))]. *)
Fixpoint fuzz_generate_loop (self : leaf W) (mutator : Mutator W)
    (parsingPath : GenericPath) (n : nat) (w : W) : gen GenericPath * W :=
  match n with
  | O => (Gen [] None, w)
  | S n' =>
      match generate mutator w with
      | (Raise MaxFuzzingException, w') => (Gen [] None, w')      (* break *)
      | (Raise e, w') => (Gen [] (Some e), w')
      | (Ok (GInt _), w') => (Gen [] (Some TypeError), w')
      | (Ok (GBytes generated_value), w') =>
          let value := frombytes generated_value in
          let newParsingPath :=
            addResult (id self) value (clone parsingPath) in
          let '(g, w'') :=
            fuzz_generate_loop self mutator parsingPath n' w' in
          (Gen (newParsingPath :: yields g) (raised g), w'')
      end
  end.

Definition fuzz_generate (self : leaf W) (fuzz : option (Fuzz W))
    (mutator : Mutator W) (parsingPath : GenericPath) (w : W)
    : gen GenericPath * W :=
  fuzz_generate_loop self mutator parsingPath
    (Z.to_nat (count self fuzz)) w.

(** The part of [specialize] that produces a legitimate value: the dispatch
    on the scope and on [isDefined] that computes [newParsingPaths]. *)
Definition newParsingPaths (self : leaf W) (parsingPath : GenericPath)
    (acceptCallBack : bool) : result (iterable W GenericPath) :=
  match scope self with
  | None => Raise GenericException
  | Some sc =>
      Ok (if isDefined self parsingPath then
            match sc with
            | Scope.CONSTANT | Scope.SESSION =>
                use self parsingPath acceptCallBack
            | Scope.MESSAGE =>
                regenerateAndMemorize self parsingPath acceptCallBack
            | Scope.NONE => regenerate self parsingPath acceptCallBack
            end
          else
            match sc with
            | Scope.CONSTANT =>
                PyGen (fun w => (Gen [] None, w))           (* iter(()) *)
            | Scope.MESSAGE | Scope.SESSION =>
                regenerateAndMemorize self parsingPath acceptCallBack
            | Scope.NONE => regenerate self parsingPath acceptCallBack
            end)
  end.

(** [AbstractVariableLeaf.specialize]: fuzzing in GENERATE or FIXED mode has
    priority; otherwise a legitimate value, wrapped in [fuzz_mutate()] when
    the mode is MUTATE. *)
Definition specialize (self : leaf W) (parsingPath : GenericPath)
    (fuzz : option (Fuzz W)) (acceptCallBack : bool)
    : result (iterable W GenericPath) :=
  match fuzz_get fuzz (id self) with
  | Some mutator =>
      if generate_or_fixed (mode mutator) then
        Ok (PyGen (fuzz_generate self fuzz mutator parsingPath))
      else
        (do paths <- newParsingPaths self parsingPath acceptCallBack;
         match mode mutator with
         | FuzzingMode.MUTATE => Ok (PyFuzzMutate paths)
         | _ => Ok paths
         end)%result
  | None => newParsingPaths self parsingPath acceptCallBack
  end.

End Leaf.
End AbstractVariableLeaf.

(** ** Data leaves *)

Module Data.

(** Modelled from the spec: [AbstractType] is not among the source files.
    The contract the parser asks of a data type: its [size] in bits as
    ([min], [max]) with [max = None] for unbounded, [canParse], a stateful
    [generate()] and [count()]. *)
Record DataType (W : Type) := {
  size : Z * option Z;
  canParse : bitarray -> bool;
  type_generate : W -> bitarray * W;
  type_count : Z
}.
Arguments size {W} d.
Arguments canParse {W} d data.
Arguments type_generate {W} d w.
Arguments type_count {W} d.

Section Data.
Context {W : Type}.

(** Modelled from the spec: the candidate lengths of [Data.domainCMP],
    between [lo] and [hi]; longest first, as the doctest of [FieldParser]
    shows them. *)
Definition candidate_lengths (lo hi : nat) : list nat :=
  rev (seq lo (S hi - lo)).

(** Modelled from the spec: the upper bound of the candidate lengths,
    [min(max, remaining)]; in carnivorous mode the leaf "may consume the
    remaining input even if the leaf's max length is smaller". *)
Definition max_length (dataType : DataType W) (remaining : nat)
    (carnivorous : bool) : nat :=
  match snd (size dataType) with
  | Some maxSize =>
      if carnivorous then remaining
      else Nat.min (Z.to_nat maxSize) remaining
  | None => remaining
  end.

(** Modelled from the spec: the slices of [content] the data type accepts,
    one per accepted candidate length. *)
Definition accepted_slices (dataType : DataType W) (content : bitarray)
    (carnivorous : bool) : list bitarray :=
  List.filter (canParse dataType)
    (map (fun n => take n content)
       (candidate_lengths (Z.to_nat (fst (size dataType)))
          (max_length dataType (length content) carnivorous))).

(** Modelled from the spec: [Data.domainCMP] ([Data.py] is not among the
    source files).  "Iterate candidate lengths in [[min, min(max,
    remaining)]]; for each, test [type.can_parse(slice)]; yield one path per
    accepted length."  The order of the iteration is the one the doctest of
    [FieldParser] shows for [String(nbChars=(1,10))] on [b"toto"]: the
    results come out as toto, tot, to, t. *)
Definition domainCMP (self : positive) (dataType : DataType W)
    (parsingPath : GenericPath) (acceptCallBack carnivorous : bool)
    : result (gen GenericPath) :=
  (do content <- getData self parsingPath;
   Ok (Gen (map (fun s => addResult self s (duplicate parsingPath))
              (accepted_slices dataType content carnivorous))
         None))%result.

(** Modelled from the spec: [Data.learn].  "As domainCMP but additionally
    record the accepted slice in memory." *)
Definition learn (self : positive) (dataType : DataType W)
    (parsingPath : GenericPath) (acceptCallBack carnivorous : bool)
    : result (gen GenericPath) :=
  (do content <- getData self parsingPath;
   Ok (Gen (map (fun s => memorize self s
                            (addResult self s (duplicate parsingPath)))
              (accepted_slices dataType content carnivorous))
         None))%result.

(** Modelled from the spec: [Data.valueCMP].  "The next bits must equal the
    memorized value; advance cursor; assign." *)
Definition valueCMP (self : positive) (dataType : DataType W)
    (parsingPath : GenericPath) (acceptCallBack carnivorous : bool)
    : result (gen GenericPath) :=
  (do content <- getData self parsingPath;
   match memory parsingPath !! self with
   | Some expected =>
       if bool_decide (take (length expected) content = expected) then
         Ok (Gen [addResult self expected (duplicate parsingPath)] None)
       else Ok (Gen [] None)
   | None => Ok (Gen [] None)
   end)%result.

(** Modelled from the spec: [Data.isDefined], "whether the variable is
    already defined in memory". *)
Definition isDefined (self : positive) (parsingPath : GenericPath) : bool :=
  bool_decide (is_Some (memory parsingPath !! self)).

(** Modelled from the spec: [Data.use], "emit the memoized bits". *)
Definition use (self : positive) (parsingPath : GenericPath)
    (acceptCallBack : bool) : iterable W GenericPath :=
  match memory parsingPath !! self with
  | Some v => PyList [addResult self v (duplicate parsingPath)]
  | None => PyList []
  end.

(** Modelled from the spec: [Data.regenerate], "call [type.generate()] each
    time". *)
Definition regenerate (self : positive) (dataType : DataType W)
    (parsingPath : GenericPath) (acceptCallBack : bool)
    : iterable W GenericPath :=
  PyGen (fun w =>
    let '(v, w') := type_generate dataType w in
    (Gen [addResult self v (duplicate parsingPath)] None, w')).

(** Modelled from the spec: [Data.regenerateAndMemorize], "call
    [type.generate()], memoize, emit". *)
Definition regenerateAndMemorize (self : positive) (dataType : DataType W)
    (parsingPath : GenericPath) (acceptCallBack : bool)
    : iterable W GenericPath :=
  PyGen (fun w =>
    let '(v, w') := type_generate dataType w in
    (Gen [memorize self v (addResult self v (duplicate parsingPath))] None,
     w')).

(** Modelled from the spec: the leaf [Data(dataType, scope=scope)] with
    identity [self], a subclass of [AbstractVariableLeaf]. *)
Definition Data (self : positive) (dataType : DataType W)
    (scope : option Scope.t) : AbstractVariableLeaf.leaf W :=
  {| AbstractVariableLeaf.id := self;
     AbstractVariableLeaf.scope := scope;
     AbstractVariableLeaf.dataType_count := type_count dataType;
     AbstractVariableLeaf.isDefined := isDefined self;
     AbstractVariableLeaf.domainCMP := domainCMP self dataType;
     AbstractVariableLeaf.valueCMP := valueCMP self dataType;
     AbstractVariableLeaf.learn := learn self dataType;
     AbstractVariableLeaf.use := use self;
     AbstractVariableLeaf.regenerate := regenerate self dataType;
     AbstractVariableLeaf.regenerateAndMemorize :=
       regenerateAndMemorize self dataType |}.

End Data.
End Data.

(** ** Python's [random] module *)

(** The source of randomness: [randbelow n w] is [random._randbelow(n)] in
    the state [w]. *)
Class PRNG (W : Type) := {
  randbelow : nat -> W -> nat * W
}.

Section Random.
Context {W : Type} `{PRNG W}.

(** [random.choice(seq)]: [seq[self._randbelow(len(seq))]] *)
Definition random_choice {A} (l : list A) (w : W) : result A * W :=
  match l with
  | [] => (Raise IndexError, w)
  | _ =>
      let '(k, w') := randbelow (length l) w in
      (match l !! k with
       | Some x => Ok x
       | None => Raise IndexError
       end, w')
  end.

(** [x[i], x[j] = x[j], x[i]] *)
Definition swap {A} (x : list A) (i j : nat) : list A :=
  match x !! i, x !! j with
  | Some a, Some b => <[j := a]> (<[i := b]> x)
  | _, _ => x
  end.

(** [random.shuffle(x)]:
    [for i in reversed(range(1, len(x))): j = randbelow(i + 1); swap]. *)
Fixpoint shuffle_loop {A} (x : list A) (i : nat) (w : W) : list A * W :=
  match i with
  | O => (x, w)
  | S i' =>
      let '(j, w') := randbelow (S i) w in
      shuffle_loop (swap x i j) i' w'
  end.

Definition random_shuffle {A} (x : list A) (w : W) : list A * W :=
  shuffle_loop x (length x - 1) w.

End Random.

(** ** Alt.py *)

Module Alt.

(** What the callback of an [Alt] returns: an [int], or some other object. *)
Inductive pyval :=
| PyInt (i : Z)
| PyObject.

(** [altCbkType]: the callback receives the path and the children (here
    their identities). *)
Definition altCbkType := GenericPath -> list positive -> pyval.

(** A child as a method of [Alt] uses it: its identity and the method of
    the child that is called ([child.parse] or [child.specialize]). *)
Record child (M : Type) := {
  child_id : positive;
  method : M
}.
Arguments child_id {M} c.
Arguments method {M} c.

Definition parse_method := GenericPath -> result (gen GenericPath).
Definition specialize_method (W : Type) :=
  GenericPath -> option (Fuzz W) -> W -> result (iterable W GenericPath) * W.

Section Alt.
Context {W : Type} `{PRNG W}.

(** [parserPaths]: the path itself, with the data assigned to the first
    child, then one duplicate of it per other child. *)
Definition parserPaths {M} (children : list (child M)) (dataToParse : bitarray)
    (parsingPath : GenericPath) : list GenericPath :=
  match children with
  | [] => [parsingPath]
  | c0 :: others =>
      let parsingPath := assignData dataToParse (child_id c0) parsingPath in
      parsingPath ::
      map (fun c => assignData dataToParse (child_id c) (duplicate parsingPath))
          others
  end.

(** The inner loop: [childParsingPath.addResult(self,
    childParsingPath.getData(child)); yield childParsingPath]. *)
Fixpoint yield_results (self : positive) (c : child parse_method)
    (childParsingPaths : list GenericPath) : gen GenericPath :=
  match childParsingPaths with
  | [] => Gen [] None
  | childParsingPath :: rest =>
      match getData (child_id c) childParsingPath with
      | Raise e => Gen [] (Some e)
      | Ok d =>
          gen_seq (Gen [addResult self d childParsingPath] None)
                  (yield_results self c rest)
      end
  end.

(** The outer loop over [enumerate(self.children)]. *)
Fixpoint parse_children (self : positive)
    (todo : list (child parse_method * GenericPath)) : gen GenericPath :=
  match todo with
  | [] => Gen [] None
  | (c, parsingPath) :: rest =>
      match method c parsingPath with
      | Raise e => Gen [] (Some e)
      | Ok childParsingPaths =>
          gen_seq
            (gen_seq (yield_results self c (yields childParsingPaths))
                     (Gen [] (raised childParsingPaths)))
            (parse_children self rest)
      end
  end.

(** [Alt.parse]: a generator.  The [callback] attribute is not read. *)
Definition parse (self : positive) (children : list (child parse_method))
    (callback : option altCbkType) (parsingPath : GenericPath)
    : gen GenericPath :=
  match children with
  | [] => Gen [] (Some GenericException)
  | _ =>
      match getData self parsingPath with
      | Raise e => Gen [] (Some e)
      | Ok dataToParse =>
          parse_children self
            (zip children (parserPaths children dataToParse parsingPath))
      end
  end.

(** The choice of the child in [Alt.specialize]. *)
Definition select_child {M} (self : positive) (children : list (child M))
    (callback : option altCbkType) (specializingPath : GenericPath)
    (fuzz : option (Fuzz W)) (w : W) : result (child M) * W :=
  match fuzz_get fuzz self with
  | Some mutator =>
      match generate mutator w with
      | (Raise e, w') => (Raise e, w')
      | (Ok (GBytes _), w') => (Raise TypeError, w')
      | (Ok (GInt generated_value), w') =>
          if (0 <=? generated_value)
             && (generated_value <? Z.of_nat (length children))
          then (py_index children generated_value, w')
          else (Raise ValueError, w')
      end
  | None =>
      match callback with
      | Some cbk =>
          match cbk specializingPath (map child_id children) with
          | PyInt i_child => (py_index children i_child, w)
          | PyObject => (Raise GenericException, w)
          end
      | None => random_choice children w
      end
  end.

(** The loop that records, on each path of the child, the child's bits as
    the bits of the Alt. *)
Fixpoint record_results {M} (self : positive) (c : child M)
    (childSpecializingPaths : list GenericPath) : result (list GenericPath) :=
  match childSpecializingPaths with
  | [] => Ok []
  | childSpecializingPath :: rest =>
      (do value <- getData (child_id c) childSpecializingPath;
       do rest' <- record_results self c rest;
       Ok (addResult self value childSpecializingPath :: rest'))%result
  end.

(** [Alt.specialize] *)
Definition specialize (self : positive)
    (children : list (child (specialize_method W)))
    (callback : option altCbkType) (specializingPath : GenericPath)
    (fuzz : option (Fuzz W)) (w : W) : result (list GenericPath) * W :=
  match children with
  | [] => (Raise GenericException, w)
  | _ =>
      match select_child self children callback specializingPath fuzz w with
      | (Raise e, w1) => (Raise e, w1)
      | (Ok c, w1) =>
          let newSpecializingPath := duplicate specializingPath in
          match method c newSpecializingPath fuzz w1 with
          | (Raise e, w2) => (Raise e, w2)
          | (Ok childSpecializingPaths, w2) =>
              match childSpecializingPaths with
              | PyList l =>
                  match record_results self c l with
                  | Raise e => (Raise e, w2)
                  | Ok specializingPaths =>
                      let '(shuffled, w3) :=
                        random_shuffle specializingPaths w2 in
                      (Ok shuffled, w3)
                  end
              | _ => (Raise TypeError, w2)     (* len() of a generator *)
              end
          end
      end
  end.

End Alt.
End Alt.

(** ** The variable tree *)

#[warnings="-register-all"]
Inductive AbstractVariable (W : Type) : Type :=
| VLeaf (l : AbstractVariableLeaf.leaf W)
| VAlt (id : positive) (children : list (AbstractVariable W))
       (callback : option Alt.altCbkType).
Arguments VLeaf {W} l.
Arguments VAlt {W} id children callback.

Definition var_id {W} (v : AbstractVariable W) : positive :=
  match v with
  | VLeaf l => AbstractVariableLeaf.id l
  | VAlt id _ _ => id
  end.

(** [variable.parse(parsingPath)], by dynamic dispatch.  A leaf is parsed
    with the defaults [acceptCallBack=True, carnivorous=False]. *)
Fixpoint parse {W} (v : AbstractVariable W) (parsingPath : GenericPath)
    : result (gen GenericPath) :=
  match v with
  | VLeaf l => AbstractVariableLeaf.parse l parsingPath true false
  | VAlt id children callback =>
      Ok (Alt.parse id
            (map (fun c => {| Alt.child_id := var_id c;
                              Alt.method := parse c |}) children)
            callback parsingPath)
  end.

(** [variable.specialize(path, fuzz=fuzz)], by dynamic dispatch. *)
Fixpoint specialize {W} `{PRNG W} (v : AbstractVariable W)
    (specializingPath : GenericPath) (fuzz : option (Fuzz W)) (w : W)
    : result (iterable W GenericPath) * W :=
  match v with
  | VLeaf l =>
      (AbstractVariableLeaf.specialize l specializingPath fuzz true, w)
  | VAlt id children callback =>
      match Alt.specialize id
              (map (fun c => {| Alt.child_id := var_id c;
                                Alt.method := specialize c |}) children)
              callback specializingPath fuzz w with
      | (Ok l, w') => (Ok (PyList l), w')
      | (Raise e, w') => (Raise e, w')
      end
  end.

(** ** AlternativeMutator.py *)

Module AlternativeMutator.

Definition DEFAULT_MAX_DEPTH : Z := 20.

(** The attributes of the mutator: the recursion limit, the depth counter,
    the interval of the position mutator, and the state [St] of what this
    file does not define (the parent class [DomainMutator] and the
    [PseudoRandomIntegerMutator] held in [_positionMutator]). *)
Record AlternativeMutator (St : Type) := {
  _maxDepth : Z;
  _currentDepth : Z;
  position_interval : Z * Z;
  inherited : St
}.
Arguments _maxDepth {St} _.
Arguments _currentDepth {St} _.
Arguments position_interval {St} _.
Arguments inherited {St} _.

Section AlternativeMutator.
Context {St : Type}.

(** [super().generate()] of [DomainMutator] and
    [self._positionMutator.generateInt()], both outside the source files. *)
Variable super_generate : St -> result unit * St.
Variable generateInt : St -> result Z * St.

(** [AlternativeMutator.__init__] for a domain with [nb_children] children:
    the position mutator works on
    [Data(uint8le(interval=(0, len(domain.children))))]. *)
Definition init (nb_children : nat) (maxDepth : Z) (s : St)
    : result (AlternativeMutator St) :=
  (do interval <- Integer._normalizeInterval
                    (Some (Some 0, Some (Z.of_nat nb_children)))
                    Integer.SIZE_8 Integer.UNSIGNED;
   Ok {| _maxDepth := maxDepth;
         _currentDepth := 0;
         position_interval := interval;
         inherited := s |})%result.

(** [AlternativeMutator.generate] *)
Definition generate (self : AlternativeMutator St)
    : result Z * AlternativeMutator St :=
  match super_generate (inherited self) with
  | (Raise e, s') =>
      (Raise e, {| _maxDepth := _maxDepth self;
                   _currentDepth := _currentDepth self;
                   position_interval := position_interval self;
                   inherited := s' |})
  | (Ok _, s') =>
      let _currentDepth' := _currentDepth self + 1 in
      if _maxDepth self <=? _currentDepth' then
        (Raise RecursionException,
         {| _maxDepth := _maxDepth self;
            _currentDepth := _currentDepth';
            position_interval := position_interval self;
            inherited := s' |})
      else
        let '(pos, s'') := generateInt s' in
        (pos, {| _maxDepth := _maxDepth self;
                 _currentDepth := _currentDepth';
                 position_interval := position_interval self;
                 inherited := s'' |})
  end.

(** [n] calls to [generate] in a row: the outcomes, in order, and the
    mutator after the last call. *)
Fixpoint generate_n (n : nat) (self : AlternativeMutator St)
    : list (result Z) * AlternativeMutator St :=
  match n with
  | O => ([], self)
  | S n' =>
      let '(r, self') := generate self in
      let '(rs, self'') := generate_n n' self' in
      (r :: rs, self'')
  end.

Definition is_Ok {A} (r : result A) : bool :=
  match r with Ok _ => true | Raise _ => false end.

End AlternativeMutator.
End AlternativeMutator.

(** ** FlowParser.py *)

Module FlowParser.

Section FlowParser.
(** [Symbol], [Field], [Memory] and [MessageParser] are outside the source
    files: they are parameters of the flow parser. *)
Context {Symbol Field Memory : Type}.
Variable getLeafFields : Symbol -> list Field.
Variable duplicate : Memory -> Memory.

(** [MessageParser(memory=memory).parseBitarray(data, fields,
    must_consume_everything=...)], run to its end: the alignments it yields,
    and the exception that ends it, if any. *)
Variable parseBitarray :
  Memory -> bitarray -> list Field -> bool -> gen (list bitarray).

(** [sum([len(value) for value in parse_result])] *)
Definition parse_result_len (parse_result : list bitarray) : nat :=
  sum_list (map length parse_result).

Definition flow := list (Symbol * list bitarray).

(** Leaving a [try: ... except InvalidParsingPathException: pass] block. *)
Definition except_InvalidParsingPath {A} (g : gen A) : gen A :=
  match raised g with
  | Some InvalidParsingPathException => Gen (yields g) None
  | _ => g
  end.

(** The body of [for parse_result in results]: the flows it yields for one
    alignment of the symbol.  [recurse] is the recursive call on the
    remaining bits. *)
Definition for_parse_result (recurse : bitarray -> gen flow)
    (data_to_parse_bitarray : bitarray) (symbol : Symbol)
    (parse_result : list bitarray) : gen flow :=
  let remainings_bitarray :=
    drop (parse_result_len parse_result) data_to_parse_bitarray in
  if Nat.ltb 0 (length remainings_bitarray) then
    let child_flow_parsings := recurse remainings_bitarray in
    except_InvalidParsingPath
      (Gen (map (fun child_flow_parsing =>
                   (symbol, parse_result) :: child_flow_parsing)
              (yields child_flow_parsings))
         (raised child_flow_parsings))
  else Gen [[(symbol, parse_result)]] None.

(** The body of [for symbol in symbols]. *)
Definition for_symbol (recurse : bitarray -> gen flow) (memory : Memory)
    (data_to_parse_bitarray : bitarray) (symbol : Symbol) : gen flow :=
  let results :=
    parseBitarray memory data_to_parse_bitarray (getLeafFields symbol) false in
  except_InvalidParsingPath
    (gen_seq
       (fold_right gen_seq (Gen [] None)
          (map (for_parse_result recurse data_to_parse_bitarray symbol)
             (yields results)))
       (Gen [] (raised results))).

(** [FlowParser._parseFlow_internal], a recursive generator.  [fuel] bounds
    the depth of the recursion: when it runs out the interpreter raises
    [RecursionError]. *)
Fixpoint _parseFlow_internal (fuel : nat) (data_to_parse_bitarray : bitarray)
    (symbols : list Symbol) (memory : Memory) : gen flow :=
  match fuel with
  | O => Gen [] (Some RecursionError)
  | S fuel' =>
      if Nat.eqb (length data_to_parse_bitarray) 0 then
        Gen [] (Some GenericException)
      else
        fold_right gen_seq (Gen [] None)
          (map (for_symbol
                  (fun remainings_bitarray =>
                     _parseFlow_internal fuel' remainings_bitarray symbols
                       (duplicate memory))
                  memory data_to_parse_bitarray)
             symbols)
  end.

(** [TypeConverter.convert(data, Raw, BitArray)] *)
Definition convert_Raw_BitArray (data : bytes) : bitarray := frombytes data.

(** [FlowParser.parseFlow] on the bytes of the message: the first flow the
    generator yields, or an exception. *)
Definition parseFlow (fuel : nat) (message_data : bytes)
    (symbols : list Symbol) (memory : Memory) : result flow :=
  match symbols with
  | [] => Raise GenericException
  | _ =>
      let data_to_parse_bitarray := convert_Raw_BitArray message_data in
      let g := _parseFlow_internal fuel data_to_parse_bitarray symbols memory in
      match yields g with
      | r :: _ => Ok r
      | [] =>
          match raised g with
          | Some e => Raise e
          | None => Raise InvalidParsingPathException
          end
      end
  end.

End FlowParser.
End FlowParser.

(** ** BitArray.py: [decode], [encode], item access and [generate] *)

Module BitArrayOps.

(** A [bitarray] object of the bitarray library: its bits and the
    bit-endianness it was created with.  The endianness is read by
    [frombytes] and [tobytes] only; it says which end of a byte comes
    first. *)
Record pybitarray := PyBitarray {
  endian : Integer.Endianness;
  bits : bitarray
}.

Definition bits_of_byte (e : Integer.Endianness) (b : byte) : bitarray :=
  match e with
  | Integer.BIG => byte_bits b
  | Integer.LITTLE => rev (byte_bits b)
  end.

(** [b.frombytes(data)] appends the bits of [data] to [b]. *)
Definition pybitarray_frombytes (b : pybitarray) (data : bytes)
    : pybitarray :=
  PyBitarray (endian b) (bits b ++ flat_map (bits_of_byte (endian b)) data).

(** the byte made of eight bits given in the order of the endianness *)
Definition byte_of_bits (e : Integer.Endianness) (l : bitarray) : byte :=
  Integer.byte_of_Z
    (fold_left (fun acc (b : bool) => 2 * acc + (if b then 1 else 0))
       match e with Integer.BIG => l | Integer.LITTLE => rev l end 0).

(** [b.tobytes()]: the bits eight by eight, the last group padded with
    zero bits. [fuel] bounds the number of groups. *)
Fixpoint tobytes_loop (fuel : nat) (e : Integer.Endianness) (l : bitarray)
    : bytes :=
  match fuel with
  | O => []
  | S fuel' =>
      match l with
      | [] => []
      | _ => byte_of_bits e (take 8 (l ++ replicate 7 false))
             :: tobytes_loop fuel' e (drop 8 l)
      end
  end.

Definition pybitarray_tobytes (b : pybitarray) : bytes :=
  tobytes_loop (length (bits b)) (endian b) (bits b).

(** [BitArray.decode(data, unitSize, endianness, sign)] on a [bitarray]:
    [data.tobytes()]; the three keyword arguments are not read. *)
Definition decode (data : pybitarray) (unitSize : Integer.UnitSize)
    (endianness : Integer.Endianness) (sign : Integer.Sign) : bytes :=
  pybitarray_tobytes data.

(** [BitArray.encode(data, unitSize, endianness, sign)] on [bytes]:
    a fresh [bitarray(endian=endianness.value)] filled by [frombytes]. *)
Definition encode (data : bytes) (unitSize : Integer.UnitSize)
    (endianness : Integer.Endianness) (sign : Integer.Sign) : pybitarray :=
  let b := PyBitarray endianness [] in
  pybitarray_frombytes b data.

(** *** Item access *)

(** The attributes [__getitem__] and [__setitem__] read: the value and the
    list of named constants. *)
Record BitArray := {
  value : option bitarray;
  constants : option (list string)
}.

(** What [__init__] leaves in [value] and [constants] for a value that is
    [None] or already a [bitarray]: the names [item_0], [item_1], ... when
    there is a value. *)
Definition __init__ (value : option bitarray) : BitArray :=
  {| value := value;
     constants :=
       match value with
       | Some v =>
           Some (map (fun i : nat => "item_" +:+ pretty i)
                   (seq 0 (length v)))
       | None => None
       end |}.

(** A key is an [int] or anything else; the code uses anything else as a
    name. *)
Inductive key := KInt (i : Z) | KName (name : string).

(** [constants.index(key)]: the first position holding [key], or
    [ValueError]. *)
Fixpoint list_index (l : list string) (name : string) : result Z :=
  match l with
  | [] => Raise ValueError
  | x :: l' =>
      if bool_decide (x = name) then Ok 0
      else (do i <- list_index l' name; Ok (i + 1))%result
  end.

(** [l[i] = v] with Python's negative indices *)
Definition py_setitem {A} (l : list A) (i : Z) (v : A) : result (list A) :=
  let n := Z.of_nat (length l) in
  let k := if i <? 0 then i + n else i in
  if (0 <=? k) && (k <? n) then Ok (<[Z.to_nat k := v]> l)
  else Raise IndexError.

(** [BitArray.__getitem__] *)
Definition __getitem__ (self : BitArray) (key : key) : result bool :=
  match key with
  | KInt i =>
      match value self with
      | Some v => py_index v i
      | None => Raise ValueError
      end
  | KName name =>
      match constants self with
      | Some c =>
          (do i <- list_index c name;
           match value self with
           | Some v => py_index v i
           | None => Raise TypeError
           end)%result
      | None => Raise ValueError
      end
  end.

(** [BitArray.__setitem__]; the object after the assignment *)
Definition __setitem__ (self : BitArray) (key : key) (val : bool)
    : result BitArray :=
  match key with
  | KInt i =>
      match value self with
      | Some v =>
          (do v' <- py_setitem v i val;
           Ok {| value := Some v'; constants := constants self |})%result
      | None => Raise ValueError
      end
  | KName name =>
      match constants self with
      | Some c =>
          (do i <- list_index c name;
           match value self with
           | Some v =>
               do v' <- py_setitem v i val;
               Ok {| value := Some v'; constants := constants self |}
           | None => Raise TypeError
           end)%result
      | None => Raise ValueError
      end
  end.

End BitArrayOps.

(** *** [BitArray.generate] *)

Section BitArrayGenerate.
Context {W : Type} `{PRNG W}.

(** [AbstractType.MAXIMUM_GENERATED_DATA_SIZE], a constant of the class
    [AbstractType]. *)
Variable MAXIMUM_GENERATED_DATA_SIZE : Z.

(** [random.randint(a, b)], that is [randrange(a, b + 1)]:
    [a + _randbelow(width)] when the width [b + 1 - a] is positive, else
    [ValueError]. *)
Definition random_randint (a b : Z) (w : W) : result Z * W :=
  let width := b + 1 - a in
  if 0 <? width then
    let '(r, w') := randbelow (Z.to_nat width) w in
    (Ok (a + Z.of_nat r), w')
  else (Raise ValueError, w).

(** What Python's [_randbelow(n)] guarantees for a positive [n]. *)
Definition randbelow_in_range : Prop :=
  forall (n : nat) (w : W), (0 < n)%nat -> ((randbelow n w).1 < n)%nat.

(** [[random.randint(0, 1) for i in range(0, n)]], each item read as a bit
    by [bitarray(...)] *)
Fixpoint random_bits (n : nat) (w : W) : result bitarray * W :=
  match n with
  | O => (Ok [], w)
  | S n' =>
      let '(r, w1) := random_randint 0 1 w in
      match r with
      | Raise e => (Raise e, w1)
      | Ok x =>
          let '(l, w2) := random_bits n' w1 in
          ((do l <- l; Ok (negb (x =? 0) :: l))%result, w2)
      end
  end.

(** The attributes [generate] reads. *)
Record BitArrayType := {
  type_value : option BitArrayOps.pybitarray;
  type_size : option Z * option Z;
  type_endianness : Integer.Endianness
}.

Definition BitArray_generate (self : BitArrayType) (w : W)
    : result BitArrayOps.pybitarray * W :=
  match type_value self with
  | Some v => (Ok v, w)
  | None =>
      let '(minSize, maxSize) := type_size self in
      let maxSize := match maxSize with
                     | None => MAXIMUM_GENERATED_DATA_SIZE
                     | Some m => m
                     end in
      match minSize with
      | None => (Raise TypeError, w)
      | Some minSize =>
          let '(g, w1) := random_randint minSize maxSize w in
          match g with
          | Raise e => (Raise e, w1)
          | Ok generatedSize =>
              let '(randomContent, w2) :=
                random_bits (Z.to_nat generatedSize) w1 in
              ((do c <- randomContent;
                Ok (BitArrayOps.PyBitarray (type_endianness self) c))%result,
               w2)
          end
      end
  end.

End BitArrayGenerate.

(** ** Fuzz.py: the mapping between fields and mutators *)

Module FuzzMapping.

(** The objects used as keys of [mappingFieldsMutators].  A variable is
    known by its identity; a field by its identity, the identity of its
    domain (a variable) and its sub-fields; a symbol by its identity and the
    fields [getLeafFields(includePseudoFields=True)] returns (the classes
    [Field] and [Symbol] are outside the source files).  [KOther] is an
    object of any other class. *)
#[warnings="-register-all"]
Inductive Field :=
| Build_Field (field_id : positive) (domain : positive)
    (fields : list Field).

Definition field_id (f : Field) : positive :=
  match f with Build_Field i _ _ => i end.
Definition domain (f : Field) : positive :=
  match f with Build_Field _ d _ => d end.
Definition fields (f : Field) : list Field :=
  match f with Build_Field _ _ fs => fs end.

Record Symbol := {
  symbol_id : positive;
  getLeafFields : list Field
}.

Inductive key :=
| KVariable (id : positive)
| KField (f : Field)
| KSymbol (s : Symbol)
| KOther (id : positive).

(** [a == b] and the lookup of a key in a [dict]: these classes are
    compared and hashed by identity. *)
Definition same_object (a b : key) : bool :=
  match a, b with
  | KVariable i, KVariable j => Pos.eqb i j
  | KField f, KField g => Pos.eqb (field_id f) (field_id g)
  | KSymbol s, KSymbol t => Pos.eqb (symbol_id s) (symbol_id t)
  | KOther i, KOther j => Pos.eqb i j
  | _, _ => false
  end.

(** What a method of this class does: it returns, or it raises [KeyError]
    (from [dict.pop]) or the bare [Exception] of the method. *)
Inductive outcome (A : Type) : Type :=
| Return (a : A)
| RaiseKeyError
| RaiseException.
Arguments Return {A} a.
Arguments RaiseKeyError {A}.
Arguments RaiseException {A}.

Definition and_then {A B} (r : outcome A) (k : A -> outcome B) : outcome B :=
  match r with
  | Return a => k a
  | RaiseKeyError => RaiseKeyError
  | RaiseException => RaiseException
  end.

(** *** A Python [dict]: the items in insertion order *)

Section Dict.
Context {V : Type}.

Definition dict := list (key * V).

(** [k in d] *)
Definition dict_contains (d : dict) (k : key) : bool :=
  existsb (fun kv => same_object k kv.1) d.

(** [d[k]] when [k in d] *)
Fixpoint dict_lookup (d : dict) (k : key) : option V :=
  match d with
  | [] => None
  | (k', v) :: d' => if same_object k k' then Some v else dict_lookup d' k
  end.

(** [d[k] = v]: the value is replaced in place when the key is present,
    else the item is added at the end. *)
Fixpoint dict_setitem (d : dict) (k : key) (v : V) : dict :=
  match d with
  | [] => [(k, v)]
  | (k', v') :: d' =>
      if same_object k k' then (k', v) :: d'
      else (k', v') :: dict_setitem d' k v
  end.

(** [d.pop(k)]: [KeyError] when the key is absent *)
Definition dict_pop (d : dict) (k : key) : outcome dict :=
  if dict_contains d k then
    Return (List.filter (fun kv => negb (same_object k kv.1)) d)
  else RaiseKeyError.

(** [d.update(other)] *)
Definition dict_update (d other : dict) : dict :=
  fold_left (fun d kv => dict_setitem d kv.1 kv.2) other d.

(** *** [Fuzz.unset] *)

(** the list [keys_to_remove] that [unset] builds *)
Definition unset_keys_to_remove (key : key)
    : outcome (list FuzzMapping.key) :=
  match key with
  | KVariable _ => Return [key]
  | KField f =>
      if (0 <? length (fields f))%nat then
        Return (key :: map (fun f => KVariable (domain f)) (fields f))
      else Return [KVariable (domain f)]
  | KSymbol s =>
      Return (key :: map (fun f => KVariable (domain f)) (getLeafFields s))
  | KOther _ => RaiseException
  end.

(** [for old_key in keys_to_remove: if old_key in d.keys(): d.pop(old_key)] *)
Definition pop_present (d : outcome dict) (old_key : key) : outcome dict :=
  and_then d (fun d =>
    if dict_contains d old_key then dict_pop d old_key else Return d).

(** [Fuzz.unset]: the mapping [mappingFieldsMutators] after the call *)
Definition unset (mappingFieldsMutators : dict) (key : key) : outcome dict :=
  and_then (unset_keys_to_remove key) (fun keys_to_remove =>
    fold_left pop_present keys_to_remove (Return mappingFieldsMutators)).

(** [Fuzz.get] on a key that is not a type: the mutator of a variable, a
    field or a symbol, or [None]; [TypeError] for another object. *)
Definition get (mappingFieldsMutators : dict) (key : key)
    : result (option V) :=
  match key with
  | KOther _ => Raise TypeError
  | _ =>
      if dict_contains mappingFieldsMutators key then
        Ok (dict_lookup mappingFieldsMutators key)
      else Ok None
  end.

(** *** [Fuzz._normalizeKeys] *)

(** The three accumulators of the loop: [new_keys], [keys_to_remove] and
    [normalized_new_keys]. *)
Definition accumulators := (dict * list key * list key)%type.

(** [for f in subfields]: the body shared by the case of a field with
    sub-fields and the case of a symbol *)
Definition for_subfields (mappingFieldsMutators : dict) (new_key k : key)
    (v : V) (subfields : list Field) (acc : dict * list key)
    : dict * list key :=
  fold_left
    (fun (acc : dict * list key) f =>
       let '(new_keys, normalized_new_keys) := acc in
       if same_object new_key k then
         (dict_setitem new_keys (KVariable (domain f)) v,
          normalized_new_keys ++ [KVariable (domain f)])
       else if negb (dict_contains mappingFieldsMutators
                       (KVariable (domain f))) then
         (dict_setitem new_keys (KVariable (domain f)) v,
          normalized_new_keys)
       else (new_keys, normalized_new_keys))
    subfields acc.

(** The body of [for k, v in self.mappingFieldsMutators.items()]. *)
Definition normalizeKeys_step (mappingFieldsMutators : dict) (new_key : key)
    (acc : outcome accumulators) (kv : key * V) : outcome accumulators :=
  and_then acc (fun acc =>
    let '(new_keys, keys_to_remove, normalized_new_keys) := acc in
    let '(k, v) := kv in
    match k with
    | KVariable _ =>
        Return (new_keys, keys_to_remove,
                if same_object new_key k then normalized_new_keys ++ [k]
                else normalized_new_keys)
    | KField f =>
        if (0 <? length (fields f))%nat then
          let '(new_keys, normalized_new_keys) :=
            for_subfields mappingFieldsMutators new_key k v (fields f)
              (new_keys, normalized_new_keys) in
          Return (new_keys, keys_to_remove ++ [k], normalized_new_keys)
        else
          Return (dict_setitem new_keys (KVariable (domain f)) v,
                  keys_to_remove ++ [k],
                  if same_object new_key k
                  then normalized_new_keys ++ [KVariable (domain f)]
                  else normalized_new_keys)
    | KSymbol s =>
        let '(new_keys, normalized_new_keys) :=
          for_subfields mappingFieldsMutators new_key k v (getLeafFields s)
            (new_keys, normalized_new_keys) in
        Return (new_keys, keys_to_remove ++ [k], normalized_new_keys)
    | KOther _ => RaiseException
    end).

(** [for old_key in keys_to_remove: d.pop(old_key)] *)
Definition pop_all (d : dict) (keys_to_remove : list key) : outcome dict :=
  fold_left (fun d old_key => and_then d (fun d => dict_pop d old_key))
    keys_to_remove (Return d).

(** [Fuzz._normalizeKeys]: the mapping after the call and the list the
    method returns *)
Definition _normalizeKeys (mappingFieldsMutators : dict) (new_key : key)
    : outcome (dict * list key) :=
  and_then
    (fold_left (normalizeKeys_step mappingFieldsMutators new_key)
       mappingFieldsMutators (Return ([], [], [])))
    (fun acc =>
       let '(new_keys, keys_to_remove, normalized_new_keys) := acc in
       and_then (pop_all mappingFieldsMutators keys_to_remove) (fun d =>
         Return (dict_update d new_keys, normalized_new_keys))).

End Dict.

Definition is_variable (k : key) : Prop :=
  match k with KVariable _ => True | _ => False end.

Definition is_other (k : key) : Prop :=
  match k with KOther _ => True | _ => False end.

(** No two keys of the list are the same object: what the keys of a
    [dict] satisfy. *)
Fixpoint distinct (ks : list key) : bool :=
  match ks with
  | [] => true
  | k :: ks' =>
      forallb (fun k' => negb (same_object k k')) ks' && distinct ks'
  end.

End FuzzMapping.

(** ** RelationFinder.py *)

Module RelationFinder.

(** [for i, data in enumerate(cellsData): result[i] += data], from the
    index [i] on; [result[i]] raises [IndexError] past the end of the
    list. *)
Fixpoint add_cells (res : list bytes) (i : nat) (cellsData : list bytes)
    : result (list bytes) :=
  match cellsData with
  | [] => Ok res
  | data :: cellsData' =>
      match res !! i with
      | Some cell => add_cells (<[i := cell ++ data]> res) (S i) cellsData'
      | None => Raise IndexError
      end
  end.

(** [RelationFinder._generateConcatData]: the cells of the fields, message
    by message, concatenated. *)
Definition _generateConcatData (cellsDataList : list (list bytes))
    : result (list bytes) :=
  match cellsDataList with
  | [] => Ok []
  | first :: _ =>
      let res := map (fun cell => []) first in
      fold_left (fun res cellsData =>
                   (do res <- res; add_cells res 0 cellsData)%result)
        cellsDataList (Ok res)
  end.

(** [RelationFinder._generateSizeValues]: the size in octets of each
    cell. *)
Definition _generateSizeValues (cellsData : list bytes) : list Z :=
  map (fun data =>
         if (0 <? length data)%nat then Z.of_nat (length data) else 0)
      cellsData.

(** A field as [_getAllFieldsValues] reads it: its sub-fields and what
    [getValues(encoded=False, styled=False)] returns, one cell per message
    (the classes of the fields are outside the source files). *)
#[warnings="-register-all"]
Inductive Field :=
| Build_Field (field_id : positive) (getValues : list bytes)
    (fields : list Field).

Definition getValues (f : Field) : list bytes :=
  match f with Build_Field _ v _ => v end.
Definition fields (f : Field) : list Field :=
  match f with Build_Field _ _ fs => fs end.

(** [RelationFinder._getAllFieldsValues]: the pair (array of all fields,
    array of values of each field). *)
Fixpoint _getAllFieldsValues (field : Field)
    : list Field * list (list bytes) :=
  match field with
  | Build_Field _ values [] => ([field], [values])
  | Build_Field _ _ subfields =>
      fold_left
        (fun (acc : list Field * list (list bytes)) f =>
           let '(retFields, retValues) := _getAllFieldsValues f in
           (acc.1 ++ retFields, acc.2 ++ retValues))
        subfields ([], [])
  end.

End RelationFinder.

(** ** EthernetChannel.py: [macToBitarray] *)

Module EthernetChannel.

(** [binascii.hexlify(addr).decode()]: two hexadecimal digits per byte,
    the high one first; a digit is given by its value. *)
Definition hexlify (addr : bytes) : list N :=
  flat_map (fun b => [(Byte.to_N b / 16)%N; (Byte.to_N b mod 16)%N]) addr.

(** [int(s, 16)] on a string of hexadecimal digits: [ValueError] on the
    empty string.  ([s.replace(":", "")] leaves such a string as it
    is.) *)
Definition int_16 (digits : list N) : result N :=
  match digits with
  | [] => Raise ValueError
  | _ => Ok (fold_left (fun acc d => (16 * acc + d)%N) digits 0%N)
  end.

(** the binary digits of a positive number, least significant first *)
Fixpoint pos_digits (p : positive) : list bool :=
  match p with
  | xH => [true]
  | xO p' => false :: pos_digits p'
  | xI p' => true :: pos_digits p'
  end.

(** [bin(numeric)[2:]]: the binary digits, most significant first, without
    leading zeros; ["0"] for zero *)
Definition bin_digits (numeric : N) : list bool :=
  match numeric with
  | N0 => [false]
  | Npos p => rev (pos_digits p)
  end.

(** [EthernetChannel.macToBitarray] on an address given as [bytes] *)
Definition macToBitarray (addr : bytes) : result bitarray :=
  (do numeric <- int_16 (hexlify addr);
   let binary := bin_digits numeric in
   let binLength := length binary in
   if (48 <? binLength)%nat then Raise GenericException
   else Ok (replicate (48 - binLength) false ++ binary))%result.

(** The bytes read as one number, the first byte the most significant. *)
Definition big_endian_value (addr : bytes) : N :=
  fold_left (fun acc b => (256 * acc + Byte.to_N b)%N) addr 0%N.

(** The bits read as one number, the first bit the most significant,
    starting from [acc]. *)
Definition bits_value (acc : N) (l : bitarray) : N :=
  fold_left (fun acc (b : bool) => (2 * acc + (if b then 1 else 0))%N) l acc.

End EthernetChannel.

(** ** Fuzz.py: the default mutator of a domain *)

Module FuzzDefaults.

Section RetrieveDefaultMutator.
(** The types used as keys of a mapping, the domains, the mutator classes
    and the values of keyword arguments; [matches domain t] is the test of
    the loop, [isinstance(domain, t)] or the same test on
    [domain.dataType]. *)
Context {T D M V : Type}.
Variable matches : D -> T -> bool.

(** Keyword arguments, and the [dict] objects that hold default
    parameters: a mapping holds, for each type, the pair of a mutator class
    and a reference to such a [dict]; the heap gives the content of each
    [dict]. *)
Definition heap := positive -> gmap string V.
Definition mapping := list (T * (M * positive)).

Definition heap_update (h : heap) (ref : positive) (p : gmap string V) : heap :=
  fun r => if Pos.eqb r ref then p else h r.

(** What [mutator(domain, **mutator_default_parameters)] is called with. *)
Record MutatorInstance := {
  instance_class : M;
  instance_domain : D;
  instance_parameters : gmap string V
}.

(** The [for t in mapping: ... break] loop: the entry of the first type
    that matches. *)
Fixpoint find_mutator (domain : D) (mapping : mapping)
    : option (M * positive) :=
  match mapping with
  | [] => None
  | (t, entry) :: mapping' =>
      if matches domain t then Some entry else find_mutator domain mapping'
  end.

(** [Fuzz._retrieveDefaultMutator]: [mutator_default_parameters] is the
    [dict] of the mapping itself, and [update(kwargs)] changes it in
    place. *)
Definition _retrieveDefaultMutator (domain : D) (mapping : mapping)
    (kwargs : gmap string V) (h : heap) : result MutatorInstance * heap :=
  match find_mutator domain mapping with
  | None => (Raise GenericException, h)
  | Some (mutator, mutator_default_parameters) =>
      let h' := heap_update h mutator_default_parameters
                  (kwargs ∪ h mutator_default_parameters) in
      (Ok {| instance_class := mutator;
             instance_domain := domain;
             instance_parameters := h' mutator_default_parameters |}, h')
  end.

End RetrieveDefaultMutator.

End FuzzDefaults.

(** ** Vocabulary of the statements *)


Definition b0 : bool := false.
Definition b1 : bool := true.

(** *** Concrete data types and leaves used in the examples *)

(** A type of exactly the bits [v]: [String("toto")], [Raw(b"...")]. *)
Definition Fixed (v : bitarray) : Data.DataType unit :=
  {| Data.size := (Z.of_nat (length v), Some (Z.of_nat (length v)));
     Data.canParse := fun data => bool_decide (data = v);
     Data.type_generate := fun w => (v, w);
     Data.type_count := 1 |}.

(** [String(nbChars=(lo, hi))] on ASCII input: between [lo] and [hi]
    characters of eight bits. *)
Definition String_nbChars (lo hi : Z) : Data.DataType unit :=
  {| Data.size := (8 * lo, Some (8 * hi));
     Data.canParse := fun data => Nat.eqb (length data mod 8) 0;
     Data.type_generate := fun w => (replicate (Z.to_nat (8 * lo)) false, w);
     Data.type_count := 1 |}.

(** One free bit: [BitArray(nbBits=1)]. *)
Definition OneBit : Data.DataType unit :=
  {| Data.size := (1, Some 1);
     Data.canParse := fun data => Nat.eqb (length data) 1;
     Data.type_generate := fun w => ([false], w);
     Data.type_count := 2 |}.

(** [BitArray('11110101')], with its size declared as 8 bits. *)
Definition BitArray_11110101 : BitArray.BitArray :=
  {| BitArray.value := Some [b1; b1; b1; b1; b0; b1; b0; b1];
     BitArray.size := (Some 8, Some 8) |}.

(** [BitArray(nbBits=(0, 8))] *)
Definition BitArray_0_8 : BitArray.BitArray :=
  {| BitArray.value := None; BitArray.size := (Some 0, Some 8) |}.

(** [BitArray(nbBits=8)] and [BitArray()] *)
Definition BitArray_8 : BitArray.BitArray :=
  {| BitArray.value := None; BitArray.size := (Some 8, Some 8) |}.
Definition BitArray_any : BitArray.BitArray :=
  {| BitArray.value := None; BitArray.size := (None, None) |}.

Definition toto : bitarray := frombytes ["t"; "o"; "t"; "o"]%byte.
Definition to : bitarray := frombytes ["t"; "o"]%byte.

(** A fresh path on which [content] is assigned to the variable [v]. *)
Definition path_on (v : positive) (content : bitarray) : GenericPath :=
  assignData content v (Path ∅ ∅).

(** A leaf [Data(BitArray(nbBits=1), scope=Scope.MESSAGE)] with identity 1,
    and a path on which the next bit to parse is 0 while the memory already
    holds the value 1 for the leaf. *)
Definition message_bit : AbstractVariableLeaf.leaf unit :=
  Data.Data 1%positive OneBit (Some Scope.MESSAGE).

Definition defined_path : GenericPath :=
  memorize 1%positive [b1] (path_on 1%positive [b0]).



(** The field of the doctest of [FieldParser]:
    [Field(name="f1", domain=String(nbChars=(1,10)))], of scope NONE. *)
Definition f1_domain : positive := 1%positive.
Definition f1_type : Data.DataType unit := String_nbChars 1 10.

(** What the loop of [Alt.parse] (and of [Alt.specialize]) does to a path
    [q] that comes back from the child: the bits [q] holds for the child are
    recorded as the bits of the Alt. *)
Definition recorded (self child : positive) (q : GenericPath) : GenericPath :=
  match getData child q with
  | Ok d => addResult self d q
  | Raise _ => q
  end.

(** The child [c], parsed on the path [p], returns normally after yielding
    the paths [ys], each of which holds bits for the child. *)
Definition parses_to (cp : Alt.child Alt.parse_method * GenericPath)
    (ys : list GenericPath) : Prop :=
  Alt.method cp.1 cp.2 = Ok (Gen ys None)
  /\ Forall (fun q => exists d, getData (Alt.child_id cp.1) q = Ok d) ys.

(** [Alt([String("toto"), String("to")], callback=cbk)] where [cbk] always
    returns the index 0; the Alt has identity 1, its children 2 and 3. *)
Definition cbk_first : Alt.altCbkType := fun _ _ => Alt.PyInt 0.
Definition alt_toto_to : AbstractVariable unit :=
  VAlt 1%positive
    [ VLeaf (Data.Data 2%positive (Fixed toto) (Some Scope.NONE));
      VLeaf (Data.Data 3%positive (Fixed to) (Some Scope.NONE)) ]
    (Some cbk_first).

(** The children of [alt_toto_to], as [Alt.parse] receives them, and the
    paths each of them yields on its parser path. *)
Definition children_toto_to : list (Alt.child Alt.parse_method) :=
  [ {| Alt.child_id := 2%positive;
       Alt.method := parse (W := unit)
         (VLeaf (Data.Data 2%positive (Fixed toto) (Some Scope.NONE))) |};
    {| Alt.child_id := 3%positive;
       Alt.method := parse (W := unit)
         (VLeaf (Data.Data 3%positive (Fixed to) (Some Scope.NONE))) |} ].

Definition child_yields (cp : Alt.child Alt.parse_method * GenericPath)
    : list GenericPath :=
  match Alt.method cp.1 cp.2 with
  | Ok g => yields g
  | Raise _ => []
  end.

(** A source of randomness that always draws 0. *)
#[global] Instance prng_zero : PRNG unit :=
  {| randbelow := fun _ w => (0%nat, w) |}.


(** [Alt([Raw(b"t"), Raw(b"o")])] with identity 1 and two CONSTANT leaves 2
    and 3, as [Alt.specialize] receives its children; [path_AB] is a path
    whose memory holds the value of both leaves. *)
Definition bits_A : bitarray := frombytes ["t"]%byte.
Definition bits_B : bitarray := frombytes ["o"]%byte.
Definition leaf_A : AbstractVariable unit :=
  VLeaf (Data.Data 2%positive (Fixed bits_A) (Some Scope.CONSTANT)).
Definition leaf_B : AbstractVariable unit :=
  VLeaf (Data.Data 3%positive (Fixed bits_B) (Some Scope.CONSTANT)).
Definition children_AB : list (Alt.child (Alt.specialize_method unit)) :=
  [ {| Alt.child_id := 2%positive; Alt.method := specialize leaf_A |};
    {| Alt.child_id := 3%positive; Alt.method := specialize leaf_B |} ].
Definition path_AB : GenericPath :=
  memorize 3%positive bits_B (memorize 2%positive bits_A (Path ∅ ∅)).

(** A fuzzing configuration that covers the variable 1 with a mutator in
    GENERATE mode whose [generate()] returns the integer [i]. *)
Definition fuzz_index (i : Z) : Fuzz unit :=
  {| get := fun key =>
       if bool_decide (key = 1%positive) then
         Some {| mode := FuzzingMode.GENERATE;
                 mutator_count := 1;
                 generate := fun w => (Ok (GInt i), w) |}
       else None |}.

(** An [AlternativeMutator] seen as the mutator of a fuzzing configuration:
    the state of the world is the mutator itself; its parent class never
    raises and its position mutator draws [pos]. *)
Definition alternative_mutator (pos : Z)
    : Mutator (AlternativeMutator.AlternativeMutator unit) :=
  {| mode := FuzzingMode.GENERATE;
     mutator_count := 1;
     generate := fun w =>
       let '(r, w') :=
         AlternativeMutator.generate
           (fun s => (Ok tt, s)) (fun s => (Ok pos, s)) w in
       (match r with Ok i => Ok (GInt i) | Raise e => Raise e end, w') |}.

Definition alternative_fuzz (pos : Z)
    : Fuzz (AlternativeMutator.AlternativeMutator unit) :=
  {| get := fun key =>
       if bool_decide (key = 1%positive) then Some (alternative_mutator pos)
       else None |}.

(** Two children that specialize to the path they are given. *)
Definition two_children {W}
    : list (Alt.child (Alt.specialize_method W)) :=
  [ {| Alt.child_id := 2%positive;
       Alt.method := fun p _ w =>
         (Ok (PyList [addResult 2%positive [b0] p]), w) |};
    {| Alt.child_id := 3%positive;
       Alt.method := fun p _ w =>
         (Ok (PyList [addResult 3%positive [b1] p]), w) |} ].

(** The mutator, called again and again from the state [w], returns the
    byte strings [vs] one after the other and is then in the state [w']. *)
Inductive generates {W} (m : Mutator W) : W -> list bytes -> W -> Prop :=
| generates_nil w : generates m w [] w
| generates_cons w v w1 vs w' :
    generate m w = (Ok (GBytes v), w1) ->
    generates m w1 vs w' ->
    generates m w (v :: vs) w'.

(** A leaf mutator with a budget: the state is the number of values it may
    still produce; [generate()] returns the byte [A] while the budget
    lasts and raises [MaxFuzzingException] once it is spent. *)
Definition budget_mutator : Mutator nat :=
  {| mode := FuzzingMode.GENERATE;
     mutator_count := 5;
     generate := fun w =>
       match w with
       | O => (Raise MaxFuzzingException, O)
       | S w' => (Ok (GBytes ["A"%byte]), w')
       end |}.

Definition budget_fuzz : Fuzz nat :=
  {| get := fun key =>
       if bool_decide (key = 1%positive) then Some budget_mutator else None |}.

Definition fuzzed_leaf : AbstractVariableLeaf.leaf nat :=
  Data.Data 1%positive
    {| Data.size := (8, Some 8);
       Data.canParse := fun data => Nat.eqb (length data) 8;
       Data.type_generate := fun w => (replicate 8 false, w);
       Data.type_count := 256 |}
    (Some Scope.NONE).

(** The number of calls of [generate] that returned a position. *)
Definition successes (rs : list (result Z)) : nat :=
  length (List.filter AlternativeMutator.is_Ok rs).

(** A fresh [AlternativeMutator] for an Alt of two children, with recursion
    limit [maxDepth]; the state of what it inherits is [s]. *)
Definition fresh_mutator {St} (maxDepth : Z) (s : St)
    : AlternativeMutator.AlternativeMutator St :=
  {| AlternativeMutator._maxDepth := maxDepth;
     AlternativeMutator._currentDepth := 0;
     AlternativeMutator.position_interval := (0, 2);
     AlternativeMutator.inherited := s |}.

(** *** Flows *)

Section FlowVocabulary.
Context {Symbol Field Memory : Type}.
Variable getLeafFields : Symbol -> list Field.
Variable duplicate : Memory -> Memory.
Variable parseBitarray :
  Memory -> bitarray -> list Field -> bool -> gen (list bitarray).

(** The number of bits a flow covers: the bit-lengths of all the slices of
    all its (symbol, alignment) pairs, added up. *)
Definition flow_len (f : list (Symbol * list bitarray)) : nat :=
  sum_list (map (fun sr => FlowParser.parse_result_len sr.2) f).

(** A segmentation of [data] over [symbols]: a first segment obtained by
    parsing a candidate symbol with [must_consume_everything=False], then,
    if bits remain, a segmentation of the remaining bits over the same
    symbols (with a duplicate of the memory). *)
Inductive Segmentation (symbols : list Symbol)
    : Memory -> bitarray -> list (Symbol * list bitarray) -> Prop :=
| Segmentation_last memory data symbol parse_result :
    In symbol symbols ->
    In parse_result
       (yields (parseBitarray memory data (getLeafFields symbol) false)) ->
    drop (FlowParser.parse_result_len parse_result) data = [] ->
    Segmentation symbols memory data [(symbol, parse_result)]
| Segmentation_more memory data symbol parse_result rest :
    In symbol symbols ->
    In parse_result
       (yields (parseBitarray memory data (getLeafFields symbol) false)) ->
    drop (FlowParser.parse_result_len parse_result) data <> [] ->
    Segmentation symbols (duplicate memory)
      (drop (FlowParser.parse_result_len parse_result) data) rest ->
    Segmentation symbols memory data ((symbol, parse_result) :: rest).

(** What the flow parser expects of the message parser: an alignment covers
    a prefix of the input; it covers at least one bit; and the only
    exception that ends the parser is [InvalidParsingPathException]. *)
Definition parser_within_input : Prop :=
  forall memory data fields parse_result,
    In parse_result (yields (parseBitarray memory data fields false)) ->
    (FlowParser.parse_result_len parse_result <= length data)%nat.

Definition parser_progress : Prop :=
  forall memory data fields parse_result,
    In parse_result (yields (parseBitarray memory data fields false)) ->
    (0 < FlowParser.parse_result_len parse_result)%nat.

Definition parser_raises_only_InvalidParsingPath : Prop :=
  forall memory data fields,
    raised (parseBitarray memory data fields false) = None
    \/ raised (parseBitarray memory data fields false)
       = Some InvalidParsingPathException.

End FlowVocabulary.

(** A message parser for symbols made of one field of [n] bits ([n] is the
    symbol): it yields the first [n] bits when the input has that many, and
    nothing otherwise. *)
Definition fixed_width_parser (memory : unit) (data : bitarray)
    (fields : list nat) (must_consume_everything : bool)
    : gen (list bitarray) :=
  match fields with
  | [n] =>
      if (Nat.ltb 0 n && Nat.leb n (length data))
         && (negb must_consume_everything || Nat.eqb n (length data))
      then Gen [[take n data]] None
      else Gen [] None
  | _ => Gen [] (Some InvalidParsingPathException)
  end.

Definition one_field (symbol : nat) : list nat := [symbol].

(** A fuzzing configuration that covers the leaf 2, and nothing else, with
    a mutator in FIXED mode that always returns the byte [A]. *)
Definition fixed_fuzz : Fuzz unit :=
  {| get := fun key =>
       if bool_decide (key = 2%positive) then
         Some {| mode := FuzzingMode.FIXED;
                 mutator_count := 1;
                 generate := fun w => (Ok (GBytes ["A"%byte]), w) |}
       else None |}.

(** A variable as [Alt.specialize] sees its children: the identity and the
    method [specialize] of the variable. *)
Definition specialize_child {W} `{PRNG W} (c : AbstractVariable W)
    : Alt.child (Alt.specialize_method W) :=
  {| Alt.child_id := var_id c; Alt.method := specialize c |}.

(** * Properties *)

(** ** Integer: [encode] after [decode] *)

Section IntegerFacts.
Import Integer.








End IntegerFacts.

Section IntegerRoundTrip.
Import Integer.

Lemma computeFormat_Ok u e s :
  integer_unitSize u ->
  exists f, computeFormat u e s = Ok f
            /\ endianFormat f = e
            /\ 8 * Z.of_nat (calcsize (letter f)) = value u
            /\ upper f = match s with UNSIGNED => true | SIGNED => false end.
Proof.
  intros [-> | [-> | [-> | ->]]]; eexists; (split; [reflexivity|]);
    repeat split.
Qed.


(** On data of exactly one word, [encode] unpacks that word. *)
Lemma encode_one_word u e s f raw :
  integer_unitSize u ->
  computeFormat u e s = Ok f ->
  Z.of_nat (length raw) * 8 = value u ->
  encode raw u e s = struct_unpack f raw.
Proof.
  intros Hu Hf Hlen. unfold encode. rewrite Hf. cbn [bind].
  rewrite Hlen.
  assert (Hv : 0 < value u) by (destruct u; simpl; lia).
  rewrite Z.div_same, Z.mod_same by lia. cbn [Z.eqb].
  assert (Htake : slice raw (0 * value u / 8) (0 * value u / 8 + value u / 8)
                  = raw).
  { unfold slice. rewrite <- Hlen, Z.mul_0_l, Z.div_mul by lia.
    change (0 `div` 8) with 0. rewrite Z.add_0_l, Nat2Z.id.
    rewrite take_ge by lia. reflexivity. }
  destruct e; unfold word_range; change (Z.to_nat 1) with 1%nat;
    cbn [seq map rev app fold_left]; unfold encode_step; cbn [bind];
    change (0 <? 0) with false; cbn [andb]; rewrite Htake;
    destruct (struct_unpack f raw) as [w|]; cbn [bind snd]; try reflexivity;
    rewrite Z.mul_0_r, Z.shiftl_0_r; reflexivity.
Qed.

End IntegerRoundTrip.



(** The doctests of [Integer.decode] and [Integer.encode]. *)
Example Integer_decode_doctests :
  Integer.decode 23 Integer.SIZE_8 Integer.BIG Integer.SIGNED = Ok [x17]
  /\ Integer.decode (-1) Integer.SIZE_8 Integer.BIG Integer.UNSIGNED
     = Raise StructError
  /\ Integer.decode (-1) Integer.SIZE_8 Integer.BIG Integer.SIGNED = Ok [xff]
  /\ Integer.decode 2000000000000000 Integer.SIZE_8 Integer.BIG Integer.SIGNED
     = Raise StructError
  /\ Integer.decode 2000000000000000 Integer.SIZE_64 Integer.BIG
       Integer.SIGNED
     = Ok [x00; x07; x1a; xfd; x49; x8d; x00; x00]
  /\ Integer.decode 25 Integer.SIZE_16 Integer.LITTLE Integer.SIGNED
     = Ok [x19; x00]
  /\ Integer.decode 25 Integer.SIZE_16 Integer.BIG Integer.SIGNED
     = Ok [x00; x19].
Proof. repeat split; vm_compute; reflexivity. Qed.

Example Integer_encode_doctests :
  Integer.encode [x19; x00] Integer.SIZE_16 Integer.BIG Integer.SIGNED
  = Ok 6400
  /\ Integer.encode [x19; x00] Integer.SIZE_16 Integer.LITTLE Integer.SIGNED
     = Ok 25
  /\ Integer.encode [xcc; xac; x9c; x0c; x1c; xac; x4c; x1c; x2c; xac]
       Integer.SIZE_8 Integer.BIG Integer.SIGNED
     = Ok (-395865088909314208584756)
  /\ Integer.encode [xcc; xac; x9c] Integer.SIZE_16 Integer.BIG Integer.SIGNED
     = Ok 10210476
  /\ Integer.encode [xcc; xac; x9c] Integer.SIZE_32 Integer.BIG Integer.SIGNED
     = Ok 13413532
  /\ Integer.encode [xcc; xac; x9c] Integer.SIZE_32 Integer.LITTLE
       Integer.SIGNED
     = Ok 10267852.
Proof. repeat split; vm_compute; reflexivity. Qed.

(** Outside the four widths [computeFormat] raises [ValueError], in
    [decode] and in [encode] alike. *)
Example Integer_unsupported_unitSize :
  Integer.decode 0 Integer.SIZE_24 Integer.BIG Integer.UNSIGNED
  = Raise ValueError
  /\ Integer.encode [x00; x00; x00] Integer.SIZE_24 Integer.BIG
       Integer.UNSIGNED
     = Raise ValueError.
Proof. split; reflexivity. Qed.

(** ** BitArray: [canParse] *)

(** C3 (as the code has it). [BitArray.canParse(data)] is [False] on empty
    data; on non-empty data it is [True] exactly when [data] equals the
    fixed value (if one is set) or the bit-length of [data] lies within the
    declared (min, max) bounds. *)
Theorem BitArray_canParse_iff (self : BitArray.BitArray) (data : bitarray) :
  BitArray.canParse self data = true
  <-> data <> []
      /\ (BitArray.value self = Some data
          \/ BitArray.within_bounds (BitArray.size self)
               (Z.of_nat (length data))).
Proof.
  unfold BitArray.canParse, BitArray.within_bounds.
  destruct data as [|b data].
  - simpl. split; [discriminate | intros [[] _]; reflexivity].
  - cbn [length Nat.eqb].
    destruct (BitArray.value self) as [v|] eqn:Hv.
    + destruct (bool_decide_reflect (v = b :: data)) as [->|Hne].
      * split; [|reflexivity].
        intros _; split; [discriminate | left; reflexivity].
      * destruct (BitArray.size self) as [[lo|] [hi|]]; cbn [fst snd];
          repeat match goal with
                 | |- context [?x <? ?y] => destruct (Z.ltb_spec x y)
                 end;
          split; try discriminate;
          try (intros _; split; [discriminate|right; lia]);
          try reflexivity;
          intros [_ [Heq | [? ?]]]; try congruence; try lia.
    + destruct (BitArray.size self) as [[lo|] [hi|]]; cbn [fst snd];
        repeat match goal with
               | |- context [?x <? ?y] => destruct (Z.ltb_spec x y)
               end;
        split; try discriminate;
        try (intros _; split; [discriminate|right; lia]);
        try reflexivity;
        intros [_ [Heq | [? ?]]]; try congruence; try lia.
Qed.

(** C3, counterexample. With the fixed value 11110101 set (and a size of
    8 bits), [canParse] accepts 00000000, which is not the fixed value; and
    without a fixed value, for the bounds (0, 8), it refuses the empty
    bitarray although its length 0 lies within the bounds. *)
Lemma BitArray_canParse_counterexample :
  (BitArray.canParse BitArray_11110101 [b0; b0; b0; b0; b0; b0; b0; b0] = true
   /\ BitArray.value BitArray_11110101
      <> Some [b0; b0; b0; b0; b0; b0; b0; b0])
  /\ (BitArray.canParse BitArray_0_8 [] = false
      /\ BitArray.within_bounds (BitArray.size BitArray_0_8)
           (Z.of_nat (length ([] : bitarray)))).
Proof.
  repeat split; try reflexivity; try discriminate;
    unfold BitArray.within_bounds; simpl; lia.
Qed.

(** The doctests of [canParse]. *)
Example BitArray_canParse_doctests :
  BitArray.canParse BitArray_any (frombytes ["h"; "e"; "l"; "l"; "o"]%byte)
    = true
  /\ BitArray.canParse BitArray_8 [b0; b1; b0; b1; b0; b1; b0; b1] = true
  /\ BitArray.canParse BitArray_8 [b0; b1; b0; b1; b0; b1; b0; b1; b1] = false
  /\ BitArray.canParse BitArray_11110101 [b1; b1; b1; b1; b0; b1; b0; b1]
     = true.
Proof. repeat split; reflexivity. Qed.

(** ** Leaves: the dispatch of [parse] *)

(** C1 (as the code has it). A leaf of scope MESSAGE is parsed with
    [learn], whether or not it is already defined: a defined MESSAGE leaf
    goes the way of an undefined MESSAGE or SESSION leaf, not the way of
    [valueCMP], which only defined CONSTANT and SESSION leaves take. *)
Theorem leaf_parse_MESSAGE_defined_learns {W}
    (self : AbstractVariableLeaf.leaf W) (parsingPath : GenericPath)
    (acceptCallBack carnivorous : bool) :
  AbstractVariableLeaf.scope self = Some Scope.MESSAGE ->
  AbstractVariableLeaf.isDefined self parsingPath = true ->
  AbstractVariableLeaf.parse self parsingPath acceptCallBack carnivorous
  = AbstractVariableLeaf.except_ParsingException
      (AbstractVariableLeaf.learn self parsingPath acceptCallBack carnivorous).
Proof.
  intros Hs Hd. unfold AbstractVariableLeaf.parse. now rewrite Hs, Hd.
Qed.

(** The other rows of the dispatch table. *)
Lemma leaf_parse_defined_valueCMP {W} (self : AbstractVariableLeaf.leaf W)
    (parsingPath : GenericPath) (acceptCallBack carnivorous : bool) :
  AbstractVariableLeaf.scope self = Some Scope.CONSTANT
  \/ AbstractVariableLeaf.scope self = Some Scope.SESSION ->
  AbstractVariableLeaf.isDefined self parsingPath = true ->
  AbstractVariableLeaf.parse self parsingPath acceptCallBack carnivorous
  = AbstractVariableLeaf.except_ParsingException
      (AbstractVariableLeaf.valueCMP self parsingPath acceptCallBack
         carnivorous).
Proof.
  intros [Hs|Hs] Hd; unfold AbstractVariableLeaf.parse; now rewrite Hs, Hd.
Qed.

Lemma leaf_parse_undefined_learns {W} (self : AbstractVariableLeaf.leaf W)
    (parsingPath : GenericPath) (acceptCallBack carnivorous : bool) :
  AbstractVariableLeaf.scope self = Some Scope.MESSAGE
  \/ AbstractVariableLeaf.scope self = Some Scope.SESSION ->
  AbstractVariableLeaf.isDefined self parsingPath = false ->
  AbstractVariableLeaf.parse self parsingPath acceptCallBack carnivorous
  = AbstractVariableLeaf.except_ParsingException
      (AbstractVariableLeaf.learn self parsingPath acceptCallBack carnivorous).
Proof.
  intros [Hs|Hs] Hd; unfold AbstractVariableLeaf.parse; now rewrite Hs, Hd.
Qed.

(** For a [Data] leaf this means that the defined MESSAGE leaf is learned
    anew: every slice the type accepts gives a path, and the slice replaces
    the value in the memory of that path; nothing is compared with the value
    that was memorized. *)
Lemma Data_parse_MESSAGE_defined_relearns {W} (self : positive)
    (dataType : Data.DataType W) (parsingPath : GenericPath)
    (content : bitarray) :
  getData self parsingPath = Ok content ->
  AbstractVariableLeaf.parse (Data.Data self dataType (Some Scope.MESSAGE))
    parsingPath true false
  = Ok (Gen (map (fun s => memorize self s
                             (addResult self s (duplicate parsingPath)))
               (Data.accepted_slices dataType content false))
          None).
Proof.
  intros Hget. unfold AbstractVariableLeaf.parse. cbn.
  unfold Data.learn. rewrite Hget. cbn.
  destruct (Data.isDefined self parsingPath); reflexivity.
Qed.

(** An instance: the leaf [message_bit] on the path [defined_path]. *)
Lemma leaf_parse_MESSAGE_defined_learns_witness :
  AbstractVariableLeaf.parse message_bit defined_path true false
  = AbstractVariableLeaf.except_ParsingException
      (AbstractVariableLeaf.learn message_bit defined_path true false).
Proof.
  apply (leaf_parse_MESSAGE_defined_learns message_bit defined_path true false).
  - reflexivity.
  - vm_compute. reflexivity.
Defined.

(** C1, counterexample. The MESSAGE leaf [message_bit] is defined in the
    memory of the path with the value 1, and the next bit of the input is 0.
    [valueCMP] yields no path there, but [parse] yields one, on which the
    leaf has been given the bit 0 and the memory now holds 0 for it. *)
Lemma leaf_parse_MESSAGE_counterexample :
  AbstractVariableLeaf.isDefined message_bit defined_path = true
  /\ memory defined_path !! 1%positive = Some [b1]
  /\ getData 1%positive defined_path = Ok [b0]
  /\ AbstractVariableLeaf.valueCMP message_bit defined_path true false
     = Ok (Gen [] None)
  /\ exists p',
       AbstractVariableLeaf.parse message_bit defined_path true false
       = Ok (Gen [p'] None)
       /\ getData 1%positive p' = Ok [b0]
       /\ memory p' !! 1%positive = Some [b0].
Proof.
  repeat split; try (vm_compute; reflexivity).
  eexists. repeat split; vm_compute; reflexivity.
Qed.

(** ** Data leaves: the order of [domainCMP] *)

Section DomainCMP.
Context {W : Type}.





End DomainCMP.



(** The first doctest of [FieldParser]: [String(nbChars=(1,10))] on
    [b"toto"] gives toto, tot, to, t, in this order. *)
Example FieldParser_doctest_toto :
  exists paths,
    Data.domainCMP f1_domain f1_type (path_on f1_domain toto) true false
    = Ok (Gen paths None)
    /\ map (getData f1_domain) paths
       = map (fun raw => Ok (frombytes raw))
           [ ["t"; "o"; "t"; "o"]; ["t"; "o"; "t"]; ["t"; "o"]; ["t"] ]%byte.
Proof. eexists. split; vm_compute; reflexivity. Qed.


(** ** Alt: parsing *)

Section AltParse.

Lemma yield_results_normal (self : positive) (c : Alt.child Alt.parse_method)
    (ys : list GenericPath) :
  Forall (fun q => exists d, getData (Alt.child_id c) q = Ok d) ys ->
  Alt.yield_results self c ys
  = Gen (map (recorded self (Alt.child_id c)) ys) None.
Proof.
  induction 1 as [|q ys [d Hd] _ IH]; [reflexivity|].
  cbn [Alt.yield_results map]. unfold recorded at 1.
  rewrite Hd, IH. reflexivity.
Qed.

Lemma parse_children_normal (self : positive)
    (todo : list (Alt.child Alt.parse_method * GenericPath))
    (yss : list (list GenericPath)) :
  Forall2 parses_to todo yss ->
  Alt.parse_children self todo
  = Gen (concat (zip_with
                   (fun cp ys => map (recorded self (Alt.child_id cp.1)) ys)
                   todo yss))
      None.
Proof.
  induction 1 as [|[c p] ys todo yss [Hc Hys] _ IH]; [reflexivity|].
  cbn [Alt.parse_children zip_with concat]. cbn [fst snd] in Hc, Hys.
  rewrite Hc. cbn [yields raised].
  rewrite (yield_results_normal self c ys Hys), IH.
  unfold gen_seq. cbn [yields raised]. now rewrite app_nil_r.
Qed.

Lemma zip_with_zip_fst {A B C D} (f : A -> C -> D) (l : list A)
    (k : list B) (m : list C) :
  length l = length k ->
  zip_with (fun ab c => f ab.1 c) (zip l k) m = zip_with f l m.
Proof.
  revert k m. induction l as [|a l IH]; intros [|b k] [|c m] Hlen;
    try reflexivity; try discriminate.
  cbn. f_equal. apply IH. now injection Hlen.
Qed.

Lemma length_parserPaths {M} (children : list (Alt.child M))
    (dataToParse : bitarray) (parsingPath : GenericPath) :
  children <> [] ->
  length (Alt.parserPaths children dataToParse parsingPath) = length children.
Proof.
  destruct children as [|c0 others]; [congruence|]. intros _.
  cbn. now rewrite length_map.
Qed.

End AltParse.

(** C2 (as the code has it). [Alt.parse] does not read the callback: with
    or without one, it gives each child its own path (the path itself for
    the first child, a duplicate for every other child), parses every child
    in declaration order, and yields each child's successful paths in that
    order, after recording on each the child's bits as the bits of the
    Alt. *)
Theorem Alt_parse_tries_every_child (self : positive)
    (children : list (Alt.child Alt.parse_method))
    (callback : option Alt.altCbkType) (parsingPath : GenericPath)
    (dataToParse : bitarray) (yss : list (list GenericPath)) :
  children <> [] ->
  getData self parsingPath = Ok dataToParse ->
  Forall2 parses_to
    (zip children (Alt.parserPaths children dataToParse parsingPath)) yss ->
  Alt.parse self children callback parsingPath
  = Gen (concat (zip_with
                   (fun c ys => map (recorded self (Alt.child_id c)) ys)
                   children yss))
      None.
Proof.
  intros Hne Hget Hall. unfold Alt.parse.
  destruct children as [|c0 others] eqn:Hch; [congruence|].
  rewrite <- Hch in *. rewrite Hget.
  rewrite (parse_children_normal self _ yss Hall).
  f_equal. f_equal.
  apply (zip_with_zip_fst
           (fun c ys => map (recorded self (Alt.child_id c)) ys)).
  symmetry. now apply length_parserPaths.
Qed.

(** The callback plays no part in [Alt.parse]. *)
Lemma Alt_parse_ignores_callback (self : positive)
    (children : list (Alt.child Alt.parse_method))
    (callback callback' : option Alt.altCbkType) (parsingPath : GenericPath) :
  Alt.parse self children callback parsingPath
  = Alt.parse self children callback' parsingPath.
Proof. reflexivity. Qed.

(** C2, counterexample. The Alt [alt_toto_to] has a callback that selects
    its first child, yet parsing toto with it yields two paths: toto, from
    the first child, and to, from the second child. *)
Lemma Alt_parse_callback_counterexample :
  exists p1 p2,
    parse alt_toto_to (path_on 1%positive toto) = Ok (Gen [p1; p2] None)
    /\ getData 1%positive p1 = Ok toto
    /\ getData 1%positive p2 = Ok to
    /\ getData 3%positive p2 = Ok to
    /\ cbk_first (path_on 1%positive toto) [2%positive; 3%positive]
       = Alt.PyInt 0.
Proof. do 2 eexists. repeat split; vm_compute; reflexivity. Qed.

(** An instance: the Alt of toto and to, with its callback, on toto. *)
Lemma Alt_parse_tries_every_child_witness :
  Alt.parse 1%positive children_toto_to (Some cbk_first)
    (path_on 1%positive toto)
  = Gen (concat
           (zip_with (fun c ys => map (recorded 1%positive (Alt.child_id c)) ys)
              children_toto_to
              (map child_yields
                 (zip children_toto_to
                    (Alt.parserPaths children_toto_to toto
                       (path_on 1%positive toto))))))
      None.
Proof.
  apply (Alt_parse_tries_every_child 1%positive children_toto_to
           (Some cbk_first) (path_on 1%positive toto) toto).
  - discriminate.
  - vm_compute. reflexivity.
  - repeat constructor; vm_compute; eauto.
Defined.

(** ** Alt: specialization *)

Section AltSpecialize.
Context {W : Type} `{PRNG W}.


Lemma getData_addResult (v : positive) (d : bitarray) (q : GenericPath) :
  getData v (addResult v d q) = Ok d.
Proof.
  unfold getData, addResult, assignData. cbn.
  now rewrite lookup_insert_eq.
Qed.




End AltSpecialize.



(** The doctest of [Alt]: with a callback that returns -1 the last child is
    specialized. *)
Example Alt_specialize_callback_minus_one :
  Alt.select_child 1%positive children_AB (Some (fun _ _ => Alt.PyInt (-1)))
    path_AB None tt
  = (py_index children_AB 1, tt).
Proof. reflexivity. Qed.



(** An Alt of two children fuzzed with the default [AlternativeMutator]:
    when its position mutator draws 2, the upper end of its interval (0, 2),
    [Alt.specialize] raises [ValueError]. *)
Example Alt_specialize_default_mutator_upper_end :
  exists m,
    AlternativeMutator.init 2 AlternativeMutator.DEFAULT_MAX_DEPTH tt = Ok m
    /\ AlternativeMutator.position_interval m = (0, 2)
    /\ exists m',
         @Alt.specialize _ {| randbelow := fun _ w => (0%nat, w) |}
           1%positive two_children None (Path ∅ ∅)
           (Some (alternative_fuzz
                    (snd (AlternativeMutator.position_interval m)))) m
         = (Raise ValueError, m').
Proof.
  eexists. split; [reflexivity|]. split; [reflexivity|].
  eexists. vm_compute. reflexivity.
Qed.

(** ** AlternativeMutator: the depth counter *)

Section AlternativeMutatorDepth.
Context {St : Type}.
Variable super_generate : St -> result unit * St.
Variable generateInt : St -> result Z * St.


(** [_maxDepth] never changes. *)
Lemma generate_maxDepth (m : AlternativeMutator.AlternativeMutator St) :
  AlternativeMutator._maxDepth
    (AlternativeMutator.generate super_generate generateInt m).2
  = AlternativeMutator._maxDepth m.
Proof.
  unfold AlternativeMutator.generate.
  destruct (super_generate (AlternativeMutator.inherited m)) as [[[]|e] s'];
    [|reflexivity].
  destruct (AlternativeMutator._maxDepth m
            <=? AlternativeMutator._currentDepth m + 1); [reflexivity|].
  destruct (generateInt s'); reflexivity.
Qed.

(** Each call in which the parent's [generate()] does not raise increments
    the counter by one. *)
Lemma generate_increments (m : AlternativeMutator.AlternativeMutator St) s' :
  super_generate (AlternativeMutator.inherited m) = (Ok tt, s') ->
  AlternativeMutator._currentDepth
    (AlternativeMutator.generate super_generate generateInt m).2
  = AlternativeMutator._currentDepth m + 1.
Proof.
  intros Hs. unfold AlternativeMutator.generate. rewrite Hs.
  destruct (AlternativeMutator._maxDepth m
            <=? AlternativeMutator._currentDepth m + 1); [reflexivity|].
  destruct (generateInt s'); reflexivity.
Qed.

(** A call that returns a position leaves the counter strictly below the
    limit. *)
Lemma generate_Ok_below (m : AlternativeMutator.AlternativeMutator St) pos m' :
  AlternativeMutator.generate super_generate generateInt m = (Ok pos, m') ->
  AlternativeMutator._currentDepth m' = AlternativeMutator._currentDepth m + 1
  /\ AlternativeMutator._currentDepth m' < AlternativeMutator._maxDepth m
  /\ AlternativeMutator._maxDepth m' = AlternativeMutator._maxDepth m.
Proof.
  unfold AlternativeMutator.generate.
  destruct (super_generate (AlternativeMutator.inherited m)) as [[[]|e] s'];
    [|discriminate].
  destruct (Z.leb_spec (AlternativeMutator._maxDepth m)
              (AlternativeMutator._currentDepth m + 1)); [discriminate|].
  destruct (generateInt s') as [r s'']. intros [= -> <-]. cbn. lia.
Qed.

(** A call never lowers the counter. *)
Lemma generate_depth_mono (m : AlternativeMutator.AlternativeMutator St) :
  AlternativeMutator._currentDepth m
  <= AlternativeMutator._currentDepth
       (AlternativeMutator.generate super_generate generateInt m).2.
Proof.
  unfold AlternativeMutator.generate.
  destruct (super_generate (AlternativeMutator.inherited m)) as [[[]|e] s'];
    [|cbn; lia].
  destruct (AlternativeMutator._maxDepth m
            <=? AlternativeMutator._currentDepth m + 1); [cbn; lia|].
  destruct (generateInt s'); cbn; lia.
Qed.

(** What the code guarantees: starting at depth [d] with limit [D], at most
    [D - 1 - d] calls of [generate] return a position. *)
Lemma generate_n_successes (n : nat)
    (m : AlternativeMutator.AlternativeMutator St) :
  Z.of_nat
    (successes
       (AlternativeMutator.generate_n super_generate generateInt n m).1)
  <= Z.max 0 (AlternativeMutator._maxDepth m - 1
              - AlternativeMutator._currentDepth m).
Proof.
  revert m. induction n as [|n IH]; intros m.
  - cbn. lia.
  - cbn [AlternativeMutator.generate_n].
    destruct (AlternativeMutator.generate super_generate generateInt m)
      as [r m1] eqn:Hg.
    specialize (IH m1).
    destruct (AlternativeMutator.generate_n super_generate generateInt n m1)
      as [rs m2].
    cbn [fst] in *.
    pose proof (generate_maxDepth m) as HD.
    pose proof (generate_depth_mono m) as Hmono.
    rewrite Hg in HD, Hmono. cbn [snd] in HD, Hmono.
    unfold successes in *. cbn [List.filter].
    destruct r as [pos|e]; cbn [AlternativeMutator.is_Ok length].
    + destruct (generate_Ok_below m pos m1 Hg) as (Hd & Hlt & _). lia.
    + lia.
Qed.

End AlternativeMutatorDepth.

(** C6, on the code. With the recursion limit [D], the call of [generate]
    that brings the depth counter to [D] raises [RecursionException]: the
    counter then equals the limit and does not exceed it. *)
Theorem AlternativeMutator_generate_raises_at_limit {St}
    (super_generate : St -> result unit * St)
    (generateInt : St -> result Z * St)
    (m : AlternativeMutator.AlternativeMutator St) (s' : St) :
  super_generate (AlternativeMutator.inherited m) = (Ok tt, s') ->
  AlternativeMutator._currentDepth m + 1 = AlternativeMutator._maxDepth m ->
  exists m',
    AlternativeMutator.generate super_generate generateInt m
    = (Raise RecursionException, m')
    /\ AlternativeMutator._currentDepth m' = AlternativeMutator._maxDepth m'
    /\ ~ AlternativeMutator._currentDepth m' > AlternativeMutator._maxDepth m'.
Proof.
  intros Hs Hd. unfold AlternativeMutator.generate. rewrite Hs.
  destruct (Z.leb_spec (AlternativeMutator._maxDepth m)
              (AlternativeMutator._currentDepth m + 1)); [|lia].
  eexists. split; [reflexivity|]. cbn. lia.
Qed.

(** An instance: the default limit of 20, after 19 calls on a fresh
    mutator. *)
Lemma AlternativeMutator_generate_raises_at_limit_witness :
  exists m',
    AlternativeMutator.generate (fun s : unit => (Ok tt, s))
      (fun s => (Ok 1, s))
      (AlternativeMutator.generate_n (fun s : unit => (Ok tt, s))
         (fun s => (Ok 1, s)) 19
         (fresh_mutator AlternativeMutator.DEFAULT_MAX_DEPTH tt)).2
    = (Raise RecursionException, m')
    /\ AlternativeMutator._currentDepth m' = AlternativeMutator._maxDepth m'
    /\ ~ AlternativeMutator._currentDepth m' > AlternativeMutator._maxDepth m'.
Proof.
  apply (AlternativeMutator_generate_raises_at_limit
           (fun s : unit => (Ok tt, s)) (fun s => (Ok 1, s)) _ tt).
  - reflexivity.
  - vm_compute. reflexivity.
Defined.

(** With the default limit of 20, a fresh mutator returns a position 19
    times; the 20th call raises, with the counter at 20. *)
Example AlternativeMutator_default_limit :
  let run := AlternativeMutator.generate_n (fun s : unit => (Ok tt, s))
               (fun s => (Ok 1, s)) 20
               (fresh_mutator AlternativeMutator.DEFAULT_MAX_DEPTH tt) in
  run.1 = replicate 19 (Ok 1) ++ [Raise RecursionException]
  /\ AlternativeMutator._currentDepth run.2 = 20.
Proof. split; vm_compute; reflexivity. Qed.

(** The doctest of the class: the depth after one, two and three calls. *)
Example AlternativeMutator_doctest_depth :
  map (fun n => AlternativeMutator._currentDepth
                  (AlternativeMutator.generate_n (fun s : unit => (Ok tt, s))
                     (fun s => (Ok 1, s)) n
                     (fresh_mutator AlternativeMutator.DEFAULT_MAX_DEPTH tt)).2)
      [1; 2; 3]%nat
  = [1; 2; 3].
Proof. vm_compute. reflexivity. Qed.

(** ** Leaves: specialization under fuzzing *)

Section FuzzGenerate.
Context {W : Type}.

(** [MaxFuzzingException] never leaves the generator [fuzz_generate()]. *)
Lemma fuzz_generate_loop_catches (self : AbstractVariableLeaf.leaf W)
    (mutator : Mutator W) (parsingPath : GenericPath) (n : nat) (w : W) :
  raised (AbstractVariableLeaf.fuzz_generate_loop self mutator parsingPath
            n w).1
  <> Some MaxFuzzingException.
Proof.
  revert w. induction n as [|n IH]; intros w; [discriminate|].
  cbn [AbstractVariableLeaf.fuzz_generate_loop].
  destruct (generate mutator w) as [[[i|b]|e] w1].
  - discriminate.
  - specialize (IH w1).
    destruct (AbstractVariableLeaf.fuzz_generate_loop self mutator parsingPath
                n w1) as [g w2].
    exact IH.
  - destruct e; discriminate.
Qed.

(** The run of the loop when the mutator returns the values [vs] and then
    raises [MaxFuzzingException], with rounds to spare. *)
Lemma fuzz_generate_loop_MaxFuzzing (self : AbstractVariableLeaf.leaf W)
    (mutator : Mutator W) (parsingPath : GenericPath) (vs : list bytes)
    (n : nat) (w w1 w2 : W) :
  generates mutator w vs w1 ->
  generate mutator w1 = (Raise MaxFuzzingException, w2) ->
  (length vs < n)%nat ->
  AbstractVariableLeaf.fuzz_generate_loop self mutator parsingPath n w
  = (Gen (map (fun v => addResult (AbstractVariableLeaf.id self) (frombytes v)
                          (clone parsingPath)) vs) None, w2).
Proof.
  intros Hrun. revert n. induction Hrun as [w|w v w1' vs w' Hv _ IH];
    intros n Hmax Hlen.
  - destruct n as [|n]; [cbn in Hlen; lia|].
    cbn [AbstractVariableLeaf.fuzz_generate_loop]. now rewrite Hmax.
  - destruct n as [|n]; [cbn in Hlen; lia|].
    cbn [AbstractVariableLeaf.fuzz_generate_loop]. rewrite Hv.
    rewrite (IH n Hmax) by (cbn in Hlen; lia). reflexivity.
Qed.

End FuzzGenerate.

(** C7. A leaf covered by a mutator in GENERATE or FIXED mode specializes
    to the generator [fuzz_generate()].  If the mutator returns the values
    [vs] and then raises [MaxFuzzingException] before the rounds of the loop
    are used up, the generator yields exactly one path per value of [vs], in
    order, and returns normally: no exception leaves it, and the mutator is
    not called again. *)
Theorem leaf_specialize_MaxFuzzing_ends_cleanly {W}
    (self : AbstractVariableLeaf.leaf W) (parsingPath : GenericPath)
    (fuzz : option (Fuzz W)) (acceptCallBack : bool) (mutator : Mutator W)
    (vs : list bytes) (w w1 w2 : W) :
  fuzz_get fuzz (AbstractVariableLeaf.id self) = Some mutator ->
  mode mutator = FuzzingMode.GENERATE \/ mode mutator = FuzzingMode.FIXED ->
  generates mutator w vs w1 ->
  generate mutator w1 = (Raise MaxFuzzingException, w2) ->
  Z.of_nat (length vs) < AbstractVariableLeaf.count self fuzz ->
  exists run,
    AbstractVariableLeaf.specialize self parsingPath fuzz acceptCallBack
    = Ok (PyGen run)
    /\ run w
       = (Gen (map (fun v => addResult (AbstractVariableLeaf.id self)
                               (frombytes v) (clone parsingPath)) vs)
            None, w2).
Proof.
  intros Hget Hmode Hrun Hmax Hlen.
  assert (Hgf : AbstractVariableLeaf.generate_or_fixed (mode mutator) = true)
    by (destruct Hmode as [-> | ->]; reflexivity).
  unfold AbstractVariableLeaf.specialize. rewrite Hget, Hgf.
  eexists. split; [reflexivity|].
  unfold AbstractVariableLeaf.fuzz_generate.
  apply fuzz_generate_loop_MaxFuzzing with (w1 := w1); auto. lia.
Qed.

(** An instance: a mutator with a budget of two values, asked for five. *)
Lemma leaf_specialize_MaxFuzzing_ends_cleanly_witness :
  exists run,
    AbstractVariableLeaf.specialize fuzzed_leaf (Path ∅ ∅)
      (Some budget_fuzz) true = Ok (PyGen run)
    /\ run 2%nat
       = (Gen (map (fun v => addResult (AbstractVariableLeaf.id fuzzed_leaf)
                               (frombytes v) (clone (Path ∅ ∅)))
                 [["A"%byte]; ["A"%byte]])
            None, 0%nat).
Proof.
  apply (leaf_specialize_MaxFuzzing_ends_cleanly fuzzed_leaf (Path ∅ ∅)
           (Some budget_fuzz) true budget_mutator
           [["A"%byte]; ["A"%byte]] 2%nat 0%nat 0%nat).
  - reflexivity.
  - left. reflexivity.
  - repeat econstructor.
  - reflexivity.
  - vm_compute. reflexivity.
Defined.

(** Whatever the mutator does, [MaxFuzzingException] does not leave the
    generator. *)
Lemma leaf_specialize_never_raises_MaxFuzzing {W}
    (self : AbstractVariableLeaf.leaf W) (parsingPath : GenericPath)
    (fuzz : option (Fuzz W)) (mutator : Mutator W) (w : W) :
  raised (AbstractVariableLeaf.fuzz_generate self fuzz mutator parsingPath
            w).1
  <> Some MaxFuzzingException.
Proof. apply fuzz_generate_loop_catches. Qed.

(** ** FlowParser *)

Section GenFacts.
Context {A : Type}.

Lemma yields_gen_seq (g1 g2 : gen A) (x : A) :
  In x (yields (gen_seq g1 g2)) -> In x (yields g1) \/ In x (yields g2).
Proof.
  unfold gen_seq. destruct (raised g1); cbn [yields]; [now left|].
  apply in_app_or.
Qed.

Lemma raised_gen_seq (g1 g2 : gen A) :
  raised g1 = None -> raised (gen_seq g1 g2) = raised g2.
Proof. intros Hr. unfold gen_seq. now rewrite Hr. Qed.

Lemma yields_fold_gen_seq (gs : list (gen A)) (x : A) :
  In x (yields (fold_right gen_seq (Gen [] None) gs)) ->
  exists g, In g gs /\ In x (yields g).
Proof.
  induction gs as [|g gs IH]; cbn [fold_right]; [intros []|].
  intros Hin. apply yields_gen_seq in Hin as [Hin|Hin].
  - exists g. split; [now left | exact Hin].
  - destruct (IH Hin) as (g' & Hg' & Hx). exists g'.
    split; [now right | exact Hx].
Qed.

Lemma raised_fold_gen_seq (gs : list (gen A)) :
  Forall (fun g => raised g = None) gs ->
  raised (fold_right gen_seq (Gen [] None) gs) = None.
Proof.
  induction 1 as [|g gs Hg _ IH]; [reflexivity|].
  cbn [fold_right]. now rewrite (raised_gen_seq _ _ Hg).
Qed.

Lemma yields_except (g : gen A) :
  yields (FlowParser.except_InvalidParsingPath g) = yields g.
Proof.
  unfold FlowParser.except_InvalidParsingPath.
  destruct (raised g) as [[]|]; reflexivity.
Qed.

Lemma raised_except (g : gen A) :
  raised g = None \/ raised g = Some InvalidParsingPathException ->
  raised (FlowParser.except_InvalidParsingPath g) = None.
Proof.
  unfold FlowParser.except_InvalidParsingPath.
  intros [Hr|Hr]; rewrite Hr; [exact Hr | reflexivity].
Qed.

End GenFacts.

Section FlowParserFacts.
Context {Symbol Field Memory : Type}.
Variable getLeafFields : Symbol -> list Field.
Variable duplicate : Memory -> Memory.
Variable parseBitarray :
  Memory -> bitarray -> list Field -> bool -> gen (list bitarray).


Hypothesis within_input : parser_within_input parseBitarray.

(** Every flow the generator yields is a segmentation of the input, and it
    covers the input exactly. *)
Lemma internal_sound (symbols : list Symbol) (fuel : nat) :
  forall (data : bitarray) (memory : Memory) f,
    In f (yields (FlowParser._parseFlow_internal getLeafFields duplicate
                    parseBitarray fuel data symbols memory)) ->
    Segmentation getLeafFields duplicate parseBitarray symbols memory data f
    /\ flow_len f = length data.
Proof.
  induction fuel as [|fuel IH]; intros data memory f;
    cbn [FlowParser._parseFlow_internal]; [intros []|].
  destruct (Nat.eqb (length data) 0); [intros []|].
  intros Hin. apply yields_fold_gen_seq in Hin as (g & Hg & Hin).
  apply List.in_map_iff in Hg as (symbol & <- & Hsym).
  unfold FlowParser.for_symbol in Hin. rewrite yields_except in Hin.
  apply yields_gen_seq in Hin as [Hin|[]].
  apply yields_fold_gen_seq in Hin as (g & Hg & Hin).
  apply List.in_map_iff in Hg as (parse_result & <- & Hres).
  pose proof (within_input _ _ _ _ Hres) as Hle.
  unfold FlowParser.for_parse_result in Hin.
  destruct (Nat.ltb_spec 0
              (length (drop (FlowParser.parse_result_len parse_result) data)))
    as [Hrem|Hrem].
  - rewrite yields_except in Hin. cbn [yields] in Hin.
    apply List.in_map_iff in Hin as (rest & <- & Hrest).
    destruct (IH _ _ _ Hrest) as [Hseg Hlen]. split.
    + apply Segmentation_more; auto.
      intros Hnil. rewrite Hnil in Hrem. cbn in Hrem. lia.
    + unfold flow_len in *. cbn [map sum_list snd].
      rewrite Hlen, length_drop. unfold id. lia.
  - destruct Hin as [<-|[]]. split.
    + apply Segmentation_last; auto.
      apply length_zero_iff_nil. lia.
    + unfold flow_len. cbn [map sum_list snd].
      rewrite length_drop in Hrem. unfold id. lia.
Qed.

Hypothesis progress : parser_progress parseBitarray.
Hypothesis only_invalid : parser_raises_only_InvalidParsingPath parseBitarray.

(** With a message parser that consumes at least one bit per alignment, the
    recursion is no deeper than the input is long, and no exception leaves
    the generator. *)
Lemma internal_returns (symbols : list Symbol) (fuel : nat) :
  forall (data : bitarray) (memory : Memory),
    data <> [] ->
    (length data <= fuel)%nat ->
    raised (FlowParser._parseFlow_internal getLeafFields duplicate
              parseBitarray fuel data symbols memory) = None.
Proof.
  induction fuel as [|fuel IH]; intros data memory Hne Hfuel.
  - destruct data; [congruence | cbn in Hfuel; lia].
  - cbn [FlowParser._parseFlow_internal].
    destruct (Nat.eqb_spec (length data) 0) as [Hz|_].
    { apply length_zero_iff_nil in Hz. congruence. }
    apply raised_fold_gen_seq. apply List.Forall_forall.
    intros g Hg. apply List.in_map_iff in Hg as (symbol & <- & _).
    unfold FlowParser.for_symbol. apply raised_except.
    assert (Hbody :
      raised (fold_right gen_seq (Gen [] None)
                (map (FlowParser.for_parse_result
                        (fun remainings_bitarray =>
                           FlowParser._parseFlow_internal getLeafFields
                             duplicate parseBitarray fuel remainings_bitarray
                             symbols (duplicate memory))
                        data symbol)
                   (yields (parseBitarray memory data (getLeafFields symbol)
                              false)))) = None).
    { apply raised_fold_gen_seq. apply List.Forall_forall.
      intros g Hg. apply List.in_map_iff in Hg as (parse_result & <- & Hres).
      pose proof (within_input _ _ _ _ Hres) as Hle.
      pose proof (progress _ _ _ _ Hres) as Hpos.
      unfold FlowParser.for_parse_result.
      destruct (Nat.ltb_spec 0
                  (length (drop (FlowParser.parse_result_len parse_result)
                             data))) as [Hrem|Hrem]; [|reflexivity].
      apply raised_except. cbn [raised]. left. apply IH.
      - intros Hnil. rewrite Hnil in Hrem. cbn in Hrem. lia.
      - rewrite length_drop. lia. }
    rewrite (raised_gen_seq _ _ Hbody). cbn [raised]. apply only_invalid.
Qed.

End FlowParserFacts.

Lemma frombytes_nonempty (message_data : bytes) :
  message_data <> [] -> frombytes message_data <> [].
Proof. destruct message_data; [congruence | discriminate]. Qed.

(** C8 (as the code has it). Let the message parser yield alignments that
    cover a prefix of its input.  Then every flow the generator
    [_parseFlow_internal] yields, and so the flow [parseFlow] returns, is a
    segmentation of the input (each segment obtained by parsing a candidate
    symbol with [must_consume_everything=False], the rest by recursing on
    the remaining bits with the same symbols) and is complete: the
    bit-lengths of all its slices add up to the length of the input.  On a
    non-empty input, if moreover the message parser consumes at least one
    bit per alignment and raises nothing but [InvalidParsingPathException],
    and no segmentation exists, [parseFlow] raises
    [InvalidParsingPathException].  On an empty input [parseFlow] raises
    the bare [Exception] "Nothing to parse". *)
Theorem parseFlow_complete_or_raises {Symbol Field Memory : Type}
    (getLeafFields : Symbol -> list Field) (duplicate : Memory -> Memory)
    (parseBitarray :
       Memory -> bitarray -> list Field -> bool -> gen (list bitarray))
    (fuel : nat) (message_data : bytes) (symbols : list Symbol)
    (memory : Memory) :
  parser_within_input parseBitarray ->
  (forall f,
      In f (yields (FlowParser._parseFlow_internal getLeafFields duplicate
                      parseBitarray fuel
                      (FlowParser.convert_Raw_BitArray message_data)
                      symbols memory)) ->
      Segmentation getLeafFields duplicate parseBitarray symbols memory
        (FlowParser.convert_Raw_BitArray message_data) f
      /\ flow_len f = length (FlowParser.convert_Raw_BitArray message_data))
  /\ (forall f,
        FlowParser.parseFlow getLeafFields duplicate parseBitarray fuel
          message_data symbols memory = Ok f ->
        Segmentation getLeafFields duplicate parseBitarray symbols memory
          (FlowParser.convert_Raw_BitArray message_data) f
        /\ flow_len f
           = length (FlowParser.convert_Raw_BitArray message_data))
  /\ (parser_progress parseBitarray ->
      parser_raises_only_InvalidParsingPath parseBitarray ->
      symbols <> [] ->
      message_data <> [] ->
      (length (FlowParser.convert_Raw_BitArray message_data) <= fuel)%nat ->
      (forall f,
          ~ Segmentation getLeafFields duplicate parseBitarray symbols memory
              (FlowParser.convert_Raw_BitArray message_data) f) ->
      FlowParser.parseFlow getLeafFields duplicate parseBitarray fuel
        message_data symbols memory = Raise InvalidParsingPathException)
  /\ (symbols <> [] ->
      message_data = [] ->
      (0 < fuel)%nat ->
      FlowParser.parseFlow getLeafFields duplicate parseBitarray fuel
        message_data symbols memory = Raise GenericException).
Proof.
  intros Hwithin.
  assert (Hsound : forall f,
    In f (yields (FlowParser._parseFlow_internal getLeafFields duplicate
                    parseBitarray fuel
                    (FlowParser.convert_Raw_BitArray message_data)
                    symbols memory)) ->
    Segmentation getLeafFields duplicate parseBitarray symbols memory
      (FlowParser.convert_Raw_BitArray message_data) f
    /\ flow_len f = length (FlowParser.convert_Raw_BitArray message_data)).
  { intros f.
    apply (internal_sound getLeafFields duplicate parseBitarray Hwithin
             symbols fuel). }
  split; [exact Hsound|]. split; [|split].
  - intros f. unfold FlowParser.parseFlow.
    destruct symbols as [|s0 symbols'] eqn:Hs; [discriminate|].
    rewrite <- Hs in *.
    destruct (yields (FlowParser._parseFlow_internal getLeafFields duplicate
                        parseBitarray fuel
                        (FlowParser.convert_Raw_BitArray message_data)
                        symbols memory)) as [|r rs] eqn:Hy.
    + destruct (raised _); discriminate.
    + intros [= <-]. apply Hsound. now left.
  - intros Hprog Honly Hsym Hdata Hfuel Hnone.
    unfold FlowParser.parseFlow.
    destruct symbols as [|s0 symbols'] eqn:Hs; [congruence|].
    rewrite <- Hs in *.
    destruct (yields (FlowParser._parseFlow_internal getLeafFields duplicate
                        parseBitarray fuel
                        (FlowParser.convert_Raw_BitArray message_data)
                        symbols memory)) as [|r rs] eqn:Hy.
    + rewrite (internal_returns getLeafFields duplicate parseBitarray Hwithin
                 Hprog Honly symbols fuel); auto.
      now apply frombytes_nonempty.
    + exfalso. apply (Hnone r). apply Hsound. now left.
  - intros Hsym -> Hfuel. unfold FlowParser.parseFlow.
    destruct symbols as [|s0 symbols']; [congruence|].
    destruct fuel as [|fuel']; [lia|]. reflexivity.
Qed.

Section FixedWidthParser.

Lemma fixed_width_parser_yields memory data fields parse_result :
  In parse_result (yields (fixed_width_parser memory data fields false)) ->
  exists n, fields = [n] /\ (0 < n <= length data)%nat
            /\ parse_result = [take n data].
Proof.
  unfold fixed_width_parser.
  destruct fields as [|n [|m fields]]; try (intros Hin; destruct Hin; fail).
  destruct (Nat.ltb_spec 0 n); destruct (Nat.leb_spec n (length data));
    cbn [andb negb orb yields]; intros Hin;
    try (destruct Hin; fail).
  destruct Hin as [<-|[]]. exists n. auto.
Qed.

Lemma fixed_width_parser_within : parser_within_input fixed_width_parser.
Proof.
  intros memory data fields parse_result Hin.
  apply fixed_width_parser_yields in Hin as (n & _ & Hn & ->).
  unfold FlowParser.parse_result_len. cbn. rewrite length_take. lia.
Qed.

Lemma fixed_width_parser_progress : parser_progress fixed_width_parser.
Proof.
  intros memory data fields parse_result Hin.
  apply fixed_width_parser_yields in Hin as (n & _ & Hn & ->).
  unfold FlowParser.parse_result_len. cbn. rewrite length_take. lia.
Qed.

Lemma fixed_width_parser_only_invalid :
  parser_raises_only_InvalidParsingPath fixed_width_parser.
Proof.
  intros memory data fields. unfold fixed_width_parser.
  destruct fields as [|n [|m fields]]; auto.
  destruct (_ && _); auto.
Qed.

End FixedWidthParser.

(** An instance: two bytes are segmented by a symbol of 8 bits, and cannot
    be segmented by a symbol of 12 bits. *)
Lemma parseFlow_complete_or_raises_witness :
  (Segmentation one_field (fun m => m) fixed_width_parser [8%nat] tt
     (FlowParser.convert_Raw_BitArray ["A"; "B"]%byte)
     [ (8%nat, [frombytes ["A"%byte]]); (8%nat, [frombytes ["B"%byte]]) ]
   /\ flow_len [ (8%nat, [frombytes ["A"%byte]]);
                 (8%nat, [frombytes ["B"%byte]]) ]
      = length (FlowParser.convert_Raw_BitArray ["A"; "B"]%byte))
  /\ FlowParser.parseFlow one_field (fun m => m) fixed_width_parser 20
       ["A"; "B"]%byte [12%nat] tt = Raise InvalidParsingPathException.
Proof.
  split.
  - destruct (parseFlow_complete_or_raises one_field (fun m => m)
                fixed_width_parser 20 ["A"; "B"]%byte [8%nat] tt
                fixed_width_parser_within) as (_ & Hok & _ & _).
    apply Hok. vm_compute. reflexivity.
  - destruct (parseFlow_complete_or_raises one_field (fun m => m)
                fixed_width_parser 20 ["A"; "B"]%byte [12%nat] tt
                fixed_width_parser_within) as (_ & _ & Hraise & _).
    apply Hraise.
    + exact fixed_width_parser_progress.
    + exact fixed_width_parser_only_invalid.
    + discriminate.
    + discriminate.
    + vm_compute. lia.
    + intros f Hseg.
      inversion Hseg as [m d s r Hs Hr Hdrop | m d s r rest Hs Hr Hdrop Hrest];
        subst; destruct Hs as [<-|[]];
        vm_compute in Hr; destruct Hr as [<-|[]].
      * vm_compute in Hdrop. discriminate.
      * inversion Hrest
          as [m d s r Hs Hr' Hd' | m d s r rest' Hs Hr' Hd' Hrest'];
          subst; destruct Hs as [<-|[]]; vm_compute in Hr'; destruct Hr'.
Defined.

(** C8, counterexample. On an empty message no segment can be parsed, so
    no segmentation exists, and the generator yields no flow at all;
    [parseFlow] then raises the bare [Exception] "Nothing to parse", not
    [InvalidParsingPathException]. *)
Lemma parseFlow_empty_counterexample :
  (forall f,
      ~ Segmentation one_field (fun m => m) fixed_width_parser [8%nat] tt
          (FlowParser.convert_Raw_BitArray []) f)
  /\ yields (FlowParser._parseFlow_internal one_field (fun m => m)
               fixed_width_parser 20 (FlowParser.convert_Raw_BitArray [])
               [8%nat] tt) = []
  /\ FlowParser.parseFlow one_field (fun m => m) fixed_width_parser 20
       [] [8%nat] tt = Raise GenericException
  /\ FlowParser.parseFlow one_field (fun m => m) fixed_width_parser 20
       [] [8%nat] tt <> Raise InvalidParsingPathException.
Proof.
  split; [|split; [reflexivity | split; [reflexivity | discriminate]]].
  intros f Hseg.
  inversion Hseg as [m d s r Hs Hr Hdrop | m d s r rest Hs Hr Hdrop Hrest];
    subst; destruct Hs as [<-|[]]; vm_compute in Hr; destruct Hr.
Qed.

(** The first doctest of [FlowParser], on fields of eight bits: the flow
    found for a message of two bytes. *)
Example parseFlow_two_symbols :
  FlowParser.parseFlow one_field (fun m => m) fixed_width_parser 20
    ["a"; "b"]%byte [16%nat; 8%nat] tt
  = Ok [ (16%nat, [frombytes ["a"; "b"]%byte]) ].
Proof. vm_compute. reflexivity. Qed.

(** ** Integer: errors of [decode], unit size 8 and short data in [encode] *)

Section IntegerEdges.
Import Integer.

Lemma fmt_range_storage u e s f :
  integer_unitSize u -> computeFormat u e s = Ok f ->
  fmt_min f = getMinStorageValue u s /\ fmt_max f = getMaxStorageValue u s.
Proof.
  intros Hu Hf.
  destruct Hu as [-> | [-> | [-> | ->]]]; cbn in Hf; injection Hf as <-;
    destruct s; split; vm_compute; reflexivity.
Qed.

Lemma Z_of_byte_range (b : byte) : 0 <= Z_of_byte b < 256.
Proof.
  unfold Z_of_byte. pose proof (Byte.to_N_bounded b) as H. lia.
Qed.

Lemma le_value_range (bs : bytes) :
  0 <= le_value bs < 2 ^ (8 * Z.of_nat (length bs)).
Proof.
  induction bs as [|b bs IH].
  - simpl. lia.
  - cbn [le_value length]. pose proof (Z_of_byte_range b) as Hb.
    replace (8 * Z.of_nat (S (length bs)))
      with (8 + 8 * Z.of_nat (length bs)) by lia.
    rewrite Z.pow_add_r by lia. change (2 ^ 8) with 256. lia.
Qed.

Lemma le_value_app (xs ys : bytes) :
  le_value (xs ++ ys)
  = le_value xs + 2 ^ (8 * Z.of_nat (length xs)) * le_value ys.
Proof.
  induction xs as [|b xs IH].
  - simpl. lia.
  - cbn [app le_value length]. rewrite IH.
    replace (8 * Z.of_nat (S (length xs)))
      with (8 + 8 * Z.of_nat (length xs)) by lia.
    rewrite Z.pow_add_r by lia. change (2 ^ 8) with 256. lia.
Qed.

Lemma le_value_zeros (n : nat) : le_value (replicate n x00) = 0.
Proof. induction n as [|n IH]; simpl; [reflexivity|]. rewrite IH. reflexivity. Qed.

Lemma rev_replicate {A : Type} (n : nat) (x : A) :
  rev (replicate n x) = replicate n x.
Proof.
  induction n as [|n IH]; [reflexivity|].
  cbn [replicate rev]. rewrite IH.
  clear IH. induction n as [|n IH]; [reflexivity|].
  cbn [replicate app]. now rewrite IH.
Qed.

Lemma fold_left_same_length {A B C : Type} (F : A -> B -> A)
    (G : A -> C -> A) (l1 : list B) (l2 : list C) (x : A) :
  (forall a i j, F a i = G a j) ->
  length l1 = length l2 ->
  fold_left F l1 x = fold_left G l2 x.
Proof.
  intros HFG. revert l2 x.
  induction l1 as [|i l1 IH]; intros [|j l2] x Hlen; simpl in *;
    try discriminate; [reflexivity|].
  rewrite (HFG x i j). apply IH. lia.
Qed.

Lemma struct_unpack_one_byte (e1 e2 : Endianness) (up : bool) (w : bytes) :
  struct_unpack (Format e1 fmt_b up) w = struct_unpack (Format e2 fmt_b up) w.
Proof.
  unfold struct_unpack. cbn [letter calcsize endianFormat upper].
  destruct w as [|b [|b' w]]; cbn [length Nat.eqb]; try reflexivity.
  destruct e1, e2; reflexivity.
Qed.

End IntegerEdges.

(** [Integer.decode] on a supported unit size raises [struct.error] exactly
    when the integer is outside the storage range of the unit size and
    sign; it raises nothing else. *)
Theorem Integer_decode_StructError_iff
    (unitSize : Integer.UnitSize) (endianness : Integer.Endianness)
    (sign : Integer.Sign) (v : Z) :
  Integer.integer_unitSize unitSize ->
  (Integer.decode v unitSize endianness sign = Raise StructError
   <-> (v < Integer.getMinStorageValue unitSize sign
        \/ Integer.getMaxStorageValue unitSize sign < v))
  /\ (forall e, Integer.decode v unitSize endianness sign = Raise e ->
                e = StructError).
Proof.
  intros Hu.
  destruct (computeFormat_Ok unitSize endianness sign Hu)
    as (f & Hf & _ & _ & _).
  destruct (fmt_range_storage _ _ _ _ Hu Hf) as [Hmin Hmax].
  unfold Integer.decode. rewrite Hf. cbn [bind].
  unfold Integer.struct_pack. rewrite Hmin, Hmax.
  destruct (Z.leb_spec (Integer.getMinStorageValue unitSize sign) v);
    destruct (Z.leb_spec v (Integer.getMaxStorageValue unitSize sign));
    cbn [andb]; split;
    try (split; [discriminate | lia]);
    try (split; [reflexivity | lia]);
    try (intros e; discriminate);
    try (split; [intros _; lia | reflexivity]);
    intros e [= <-]; reflexivity.
Qed.

(** An instance: 128 does not fit a signed byte. *)
Lemma Integer_decode_StructError_iff_witness :
  (Integer.decode 128 Integer.SIZE_8 Integer.BIG Integer.SIGNED
   = Raise StructError
   <-> (128 < Integer.getMinStorageValue Integer.SIZE_8 Integer.SIGNED
        \/ Integer.getMaxStorageValue Integer.SIZE_8 Integer.SIGNED < 128))
  /\ (forall e,
        Integer.decode 128 Integer.SIZE_8 Integer.BIG Integer.SIGNED = Raise e
        -> e = StructError).
Proof.
  apply (Integer_decode_StructError_iff
           Integer.SIZE_8 Integer.BIG Integer.SIGNED 128).
  left; reflexivity.
Defined.

Section IntegerEncodeBytes.
Import Integer.

(** One step of the word loop for unit size 8 without padding, on the
    state [(k, acc)] with [k] inside the data. *)
Lemma encode_step_byte (data : bytes) (e : Endianness) (emi i : Z)
    (k : nat) (acc : Z) (b : byte) :
  data !! k = Some b ->
  encode_step data SIZE_8 e (Format e fmt_b true) 0 emi
    (Ok (Z.of_nat k, acc)) i
  = Ok (Z.of_nat (S k), acc + Z_of_byte b * 2 ^ (8 * Z.of_nat k)).
Proof.
  intros Hk. unfold encode_step. cbn [bind value].
  change (0 <? 0) with false. cbn [andb].
  rewrite Z.div_mul by lia. change (8 `div` 8) with 1.
  unfold slice. rewrite Nat2Z.id.
  replace (Z.to_nat (Z.of_nat k + 1)) with (S k) by lia.
  assert (Hs : drop k (take (S k) data) = [b]).
  { rewrite (take_S_r _ _ _ Hk).
    assert (Hl : length (take k data) = k).
    { apply length_take_le. apply lookup_lt_Some in Hk. lia. }
    rewrite <- Hl at 1. apply drop_app_length. }
  rewrite Hs. unfold struct_unpack.
  cbn [length letter calcsize Nat.eqb endianFormat upper bind].
  assert (Hv : le_value (match e with LITTLE => [b] | BIG => rev [b] end)
               = Z_of_byte b) by (destruct e; simpl; lia).
  rewrite Hv, Z.shiftl_mul_pow2 by lia.
  do 2 f_equal. lia.
Qed.

Lemma encode_fold_bytes (data : bytes) (e : Endianness) (emi : Z)
    (l : list Z) (k : nat) (acc : Z) :
  (k + length l <= length data)%nat ->
  fold_left (encode_step data SIZE_8 e (Format e fmt_b true) 0 emi) l
    (Ok (Z.of_nat k, acc))
  = Ok (Z.of_nat (k + length l),
        acc + 2 ^ (8 * Z.of_nat k)
              * le_value (take (length l) (drop k data))).
Proof.
  revert k acc. induction l as [|i l IH]; intros k acc Hlen.
  - cbn [fold_left length take le_value].
    rewrite Nat.add_0_r, Z.mul_0_r, Z.add_0_r. reflexivity.
  - cbn [fold_left length] in *.
    destruct (lookup_lt_is_Some_2 data k ltac:(lia)) as [b Hb].
    rewrite (encode_step_byte data e emi i k acc b Hb).
    rewrite IH by lia.
    rewrite (drop_S _ _ _ Hb). cbn [take le_value].
    replace (8 * Z.of_nat (S k)) with (8 * Z.of_nat k + 8) by lia.
    rewrite Z.pow_add_r by lia. change (2 ^ 8) with 256.
    f_equal. f_equal; lia.
Qed.

Lemma encode_step_SIZE_8_endianness (data : bytes) (up : bool)
    (emi emj : Z) (a : result (Z * Z)) (i j : Z) :
  encode_step data SIZE_8 BIG (Format BIG fmt_b up) 0 emi a i
  = encode_step data SIZE_8 LITTLE (Format LITTLE fmt_b up) 0 emj a j.
Proof.
  unfold encode_step. destruct a as [[k acc]|]; cbn [bind]; [|reflexivity].
  change (0 <? 0) with false. cbn [andb].
  rewrite (struct_unpack_one_byte BIG LITTLE). reflexivity.
Qed.

Lemma length_word_range (e : Endianness) (n : Z) :
  length (word_range e n) = Z.to_nat n.
Proof.
  destruct e; unfold word_range;
    rewrite ?length_rev, length_map, length_seq; reflexivity.
Qed.

End IntegerEncodeBytes.

(** With unit size 8, [Integer.encode] gives the same integer for BIG and
    for LITTLE, whatever the sign and the byte string: the words are single
    bytes, and the loop shifts the word at position [iWord] by
    [8 * iWord] bits in both directions.  For UNSIGNED the result is the
    byte string read least significant byte first. *)
Theorem Integer_encode_SIZE_8 (data : bytes) :
  (forall sign,
     Integer.encode data Integer.SIZE_8 Integer.BIG sign
     = Integer.encode data Integer.SIZE_8 Integer.LITTLE sign)
  /\ (forall endianness,
        Integer.encode data Integer.SIZE_8 endianness Integer.UNSIGNED
        = Ok (Integer.le_value data)).
Proof.
  assert (Hn : (Z.of_nat (length data) * 8) / 8 = Z.of_nat (length data))
    by (apply Z.div_mul; lia).
  assert (Hr : (Z.of_nat (length data) * 8) mod 8 = 0)
    by (apply Z.mod_mul; lia).
  split.
  - intros sign. unfold Integer.encode.
    cbn [Integer.computeFormat bind Integer.value]. rewrite Hn, Hr.
    cbn [Z.eqb]. f_equal.
    apply fold_left_same_length.
    + intros a i j. apply encode_step_SIZE_8_endianness.
    + rewrite !length_word_range. reflexivity.
  - intros endianness. unfold Integer.encode.
    cbn [Integer.computeFormat bind Integer.value]. rewrite Hn, Hr.
    cbn [Z.eqb].
    pose proof (encode_fold_bytes data endianness
                  match endianness with
                  | Integer.BIG => 0 - -1
                  | Integer.LITTLE => Z.of_nat (length data) - 1
                  end
                  (Integer.word_range endianness (Z.of_nat (length data)))
                  0 0) as H.
    rewrite length_word_range, Nat2Z.id in H.
    change (Z.of_nat 0) with 0 in H.
    rewrite H by (simpl; lia). cbn [bind snd drop].
    rewrite firstn_all. change (2 ^ (8 * 0)) with 1.
    change (drop 0 data) with data. f_equal. lia.
Qed.

(** Data shorter than one unit: [Integer.encode] pads the single word with
    null bytes on its most significant side (in front for BIG, behind for
    LITTLE), so the result is the plain unsigned reading of the bytes and is
    never negative, also when the sign is SIGNED. *)
Theorem Integer_encode_short_data
    (unitSize : Integer.UnitSize) (endianness : Integer.Endianness)
    (sign : Integer.Sign) (data : bytes) :
  Integer.integer_unitSize unitSize ->
  data <> [] ->
  Z.of_nat (length data) * 8 < Integer.value unitSize ->
  Integer.encode data unitSize endianness sign
  = Ok (Integer.le_value match endianness with
                         | Integer.BIG => rev data
                         | Integer.LITTLE => data
                         end)
  /\ 0 <= Integer.le_value match endianness with
                           | Integer.BIG => rev data
                           | Integer.LITTLE => data
                           end.
Proof.
  intros Hu Hne Hlen.
  split; [|destruct endianness; apply le_value_range].
  destruct (computeFormat_Ok unitSize endianness sign Hu)
    as (f & Hf & He & Hsz & Hup).
  assert (Hpos : (0 < length data)%nat)
    by (destruct data; [congruence | simpl; lia]).
  set (c := Integer.calcsize (Integer.letter f)) in *.
  set (n := length data) in *.
  unfold Integer.encode. rewrite Hf. cbn [bind]. fold n. cbv zeta.
  assert (Hc : Z.of_nat n < Z.of_nat c) by lia.
  rewrite (Z.div_small (Z.of_nat n * 8) (Integer.value unitSize)) by lia.
  rewrite (Z.mod_small (Z.of_nat n * 8) (Integer.value unitSize)) by lia.
  destruct (Z.eqb_spec (Z.of_nat n * 8) 0) as [|_]; [lia|].
  assert (Hpad : (Integer.value unitSize - Z.of_nat n * 8) / 8
                 = Z.of_nat (c - n)).
  { rewrite <- Hsz.
    replace (8 * Z.of_nat c - Z.of_nat n * 8)
      with (Z.of_nat (c - n) * 8) by lia.
    apply Z.div_mul. lia. }
  rewrite Hpad.
  assert (Hslice : Integer.slice data (0 * Integer.value unitSize / 8)
                     (0 * Integer.value unitSize / 8
                      + Integer.value unitSize / 8)
                   = data).
  { unfold Integer.slice. rewrite <- Hsz, Z.mul_0_l. change (0 / 8) with 0.
    rewrite Z.add_0_l, (Z.mul_comm 8), Z.div_mul, Nat2Z.id by lia.
    change (Z.to_nat 0) with 0%nat. cbn [drop].
    apply take_ge. fold n. lia. }
  assert (Hbound : forall bs : bytes, length bs = n ->
            Integer.le_value bs < 2 ^ (8 * Z.of_nat c - 1)).
  { intros bs Hbs. pose proof (le_value_range bs) as Hr. rewrite Hbs in Hr.
    assert (2 ^ (8 * Z.of_nat n) <= 2 ^ (8 * Z.of_nat c - 1))
      by (apply Z.pow_le_mono_r; lia).
    lia. }
  destruct endianness; unfold Integer.word_range;
    replace (Z.to_nat (0 + 1)) with 1%nat by lia;
    cbn [seq map rev app fold_left]; unfold Integer.encode_step;
    cbn [bind]; rewrite Hslice;
    (destruct (Z.ltb_spec 0 (Z.of_nat (c - n))) as [_|]; [|lia]);
    cbn [andb].
  - change (Z.of_nat 0 + 1 =? 0 - -1) with true. cbn iota.
    unfold Integer.struct_unpack. fold c.
    rewrite length_app, length_replicate, Nat2Z.id. fold n.
    replace (c - n + n)%nat with c by lia.
    rewrite Nat.eqb_refl, He, Hup. cbn [bind].
    rewrite rev_app_distr, le_value_app, rev_replicate, le_value_zeros.
    rewrite Z.mul_0_r, Z.add_0_r, Z.mul_0_r, Z.shiftl_0_r.
    assert (Hb := Hbound (rev data) ltac:(rewrite length_rev; reflexivity)).
    destruct sign; cbn [snd]; [|f_equal; lia].
    destruct (Z.ltb_spec (Integer.le_value (rev data))
                (2 ^ (8 * Z.of_nat c - 1))); [f_equal; lia | lia].
  - replace (Z.of_nat 0 =? 0 + 1 - 1) with true by reflexivity. cbn iota.
    unfold Integer.struct_unpack. fold c.
    rewrite length_app, length_replicate, Nat2Z.id. fold n.
    replace (n + (c - n))%nat with c by lia.
    rewrite Nat.eqb_refl, He, Hup. cbn [bind].
    rewrite le_value_app, le_value_zeros.
    rewrite Z.mul_0_r, Z.add_0_r, Z.mul_0_r, Z.shiftl_0_r.
    assert (Hb := Hbound data eq_refl).
    destruct sign; cbn [snd]; [|f_equal; lia].
    destruct (Z.ltb_spec (Integer.le_value data)
                (2 ^ (8 * Z.of_nat c - 1))); [f_equal; lia | lia].
Qed.

(** An instance: the doctest [Integer.encode(b'\xcc\xac\x9c',
    unitSize=UnitSize.SIZE_32, endianness=Endianness.BIG)], three bytes in a
    word of four. *)
Lemma Integer_encode_short_data_witness :
  Integer.encode [xcc; xac; x9c] Integer.SIZE_32 Integer.BIG Integer.SIGNED
  = Ok (Integer.le_value (rev [xcc; xac; x9c]))
  /\ 0 <= Integer.le_value (rev [xcc; xac; x9c]).
Proof.
  apply (Integer_encode_short_data Integer.SIZE_32 Integer.BIG
           Integer.SIGNED [xcc; xac; x9c]).
  - right; right; left; reflexivity.
  - discriminate.
  - reflexivity.
Defined.

(** ** BitArray: [encode] and [decode] *)

Section BitArrayCodec.
Import BitArrayOps.

Lemma byte_of_bits_of_byte (e : Integer.Endianness) (b : byte) :
  byte_of_bits e (bits_of_byte e b) = b.
Proof. destruct e, b; vm_compute; reflexivity. Qed.

Lemma bits_of_byte_of_bits (e : Integer.Endianness) (l : bitarray) :
  length l = 8%nat -> bits_of_byte e (byte_of_bits e l) = l.
Proof.
  intros Hl.
  do 9 (destruct l as [|? l]; try discriminate Hl).
  clear Hl.
  repeat match goal with b : bool |- _ => destruct b end;
    destruct e; vm_compute; reflexivity.
Qed.

Lemma length_bits_of_byte (e : Integer.Endianness) (b : byte) :
  length (bits_of_byte e b) = 8%nat.
Proof. destruct e; unfold bits_of_byte; rewrite ?length_rev; reflexivity. Qed.

Lemma tobytes_loop_nil (fuel : nat) (e : Integer.Endianness) :
  tobytes_loop fuel e [] = [].
Proof. destruct fuel; reflexivity. Qed.

Lemma tobytes_loop_group (fuel : nat) (e : Integer.Endianness)
    (group rest : bitarray) :
  length group = 8%nat ->
  tobytes_loop (S fuel) e (group ++ rest)
  = byte_of_bits e group :: tobytes_loop fuel e rest.
Proof.
  intros Hl.
  do 9 (destruct group as [|? group]; try discriminate Hl).
  reflexivity.
Qed.

Lemma tobytes_loop_frombytes (fuel : nat) (e : Integer.Endianness)
    (data : bytes) :
  (length data <= fuel)%nat ->
  tobytes_loop fuel e (flat_map (bits_of_byte e) data) = data.
Proof.
  revert fuel. induction data as [|b data IH]; intros fuel Hf.
  - apply tobytes_loop_nil.
  - destruct fuel as [|fuel]; [simpl in Hf; lia|].
    cbn [flat_map].
    rewrite tobytes_loop_group by apply length_bits_of_byte.
    rewrite byte_of_bits_of_byte, IH by (simpl in Hf; lia).
    reflexivity.
Qed.

Lemma length_frombytes_endian (e : Integer.Endianness) (data : bytes) :
  length (flat_map (bits_of_byte e) data) = (8 * length data)%nat.
Proof.
  induction data as [|b data IH]; [reflexivity|].
  cbn [flat_map]. rewrite length_app, length_bits_of_byte, IH. simpl. lia.
Qed.

(** the number of zero bits [tobytes] adds to [n] bits *)
Lemma frombytes_tobytes_loop (fuel : nat) (e : Integer.Endianness)
    (l : bitarray) :
  (length l <= fuel)%nat ->
  flat_map (bits_of_byte e) (tobytes_loop fuel e l)
  = l ++ replicate ((8 - length l mod 8) mod 8) false.
Proof.
  revert l. induction fuel as [|fuel IH]; intros l Hf.
  - destruct l; [reflexivity | simpl in Hf; lia].
  - destruct (Nat.lt_ge_cases (length l) 8) as [Hshort|Hlong].
    + destruct l as [|x l]; [reflexivity|].
      cbn [tobytes_loop flat_map].
      rewrite (drop_ge (x :: l)) by lia.
      rewrite tobytes_loop_nil. cbn [flat_map]. rewrite app_nil_r.
      rewrite (Nat.mod_small (length (x :: l)) 8) by lia.
      rewrite (Nat.mod_small (8 - length (x :: l)) 8) by (simpl; lia).
      assert (Ht : take 8 ((x :: l) ++ replicate 7 false)
                   = (x :: l) ++ replicate (8 - length (x :: l)) false).
      { rewrite take_app_ge by lia. f_equal.
        rewrite take_replicate. f_equal. simpl in *. lia. }
      rewrite Ht. apply bits_of_byte_of_bits.
      rewrite length_app, length_replicate. simpl in *. lia.
    + rewrite <- (take_drop 8 l) at 1.
      rewrite tobytes_loop_group by (rewrite length_take; lia).
      cbn [flat_map].
      rewrite bits_of_byte_of_bits by (rewrite length_take; lia).
      rewrite IH by (rewrite length_drop; lia).
      rewrite length_drop.
      replace ((length l - 8) mod 8)%nat with (length l mod 8)%nat.
      * rewrite app_assoc, take_drop. reflexivity.
      * replace (length l) with ((length l - 8) + 1 * 8)%nat at 1 by lia.
        apply Nat.Div0.mod_add.
Qed.

End BitArrayCodec.

(** [BitArray.decode] undoes [BitArray.encode]: for every byte string and
    either endianness, decoding the encoded bitarray gives the byte string
    back.  The endianness handed to [decode] plays no part: the bitarray
    carries the one it was encoded with. *)
Theorem BitArray_decode_encode (data : bytes)
    (unitSize unitSize' : Integer.UnitSize)
    (endianness endianness' : Integer.Endianness)
    (sign sign' : Integer.Sign) :
  BitArrayOps.decode (BitArrayOps.encode data unitSize endianness sign)
    unitSize' endianness' sign'
  = data.
Proof.
  unfold BitArrayOps.decode, BitArrayOps.encode,
    BitArrayOps.pybitarray_tobytes, BitArrayOps.pybitarray_frombytes.
  cbn [BitArrayOps.bits BitArrayOps.endian app].
  apply tobytes_loop_frombytes.
  rewrite length_frombytes_endian. lia.
Qed.

(** [BitArray.encode] after [BitArray.decode], with the endianness of the
    bitarray: the bitarray comes back padded with zero bits up to a whole
    number of bytes; a bitarray of whole bytes comes back unchanged. *)
Theorem BitArray_encode_decode (b : BitArrayOps.pybitarray)
    (unitSize unitSize' : Integer.UnitSize)
    (endianness' : Integer.Endianness) (sign sign' : Integer.Sign) :
  BitArrayOps.encode (BitArrayOps.decode b unitSize' endianness' sign')
    unitSize (BitArrayOps.endian b) sign
  = BitArrayOps.PyBitarray (BitArrayOps.endian b)
      (BitArrayOps.bits b
       ++ replicate ((8 - length (BitArrayOps.bits b) mod 8) mod 8) false).
Proof.
  unfold BitArrayOps.decode, BitArrayOps.encode,
    BitArrayOps.pybitarray_tobytes, BitArrayOps.pybitarray_frombytes.
  cbn [BitArrayOps.bits BitArrayOps.endian app].
  f_equal. apply frombytes_tobytes_loop. lia.
Qed.

(** The doctests of [BitArray.encode]: 20 in big and in little bit
    order. *)
Example BitArray_encode_doctests :
  BitArrayOps.bits
    (BitArrayOps.encode [x14] Integer.SIZE_8 Integer.BIG Integer.SIGNED)
  = [b0; b0; b0; b1; b0; b1; b0; b0]
  /\ BitArrayOps.bits
       (BitArrayOps.encode [x14] Integer.SIZE_8 Integer.LITTLE
          Integer.SIGNED)
     = [b0; b0; b1; b0; b1; b0; b0; b0].
Proof. split; vm_compute; reflexivity. Qed.

(** ** BitArray: item access *)

Section BitArrayItems.
Import BitArrayOps.

Lemma py_setitem_spec {A} (l l' : list A) (i : Z) (v : A) :
  py_setitem l i v = Ok l' ->
  py_index l' i = Ok v /\ length l' = length l
  /\ forall j : Z, j <> i -> j <> i + Z.of_nat (length l) ->
       j <> i - Z.of_nat (length l) -> py_index l' j = py_index l j.
Proof.
  unfold py_setitem. set (k := if i <? 0 then i + Z.of_nat (length l) else i).
  destruct ((0 <=? k) && (k <? Z.of_nat (length l))) eqn:Hk; [|discriminate].
  intros [= <-].
  apply andb_true_iff in Hk as [Hk0 Hk1].
  apply Z.leb_le in Hk0. apply Z.ltb_lt in Hk1.
  split; [|split].
  - unfold py_index. rewrite length_insert. fold k.
    rewrite (proj2 (andb_true_iff _ _)) by (rewrite Z.leb_le, Z.ltb_lt; lia).
    rewrite list_lookup_insert_eq by lia. reflexivity.
  - apply length_insert.
  - intros j Hj1 Hj2 Hj3. unfold py_index. rewrite length_insert.
    set (kj := if j <? 0 then j + Z.of_nat (length l) else j).
    destruct ((0 <=? kj) && (kj <? Z.of_nat (length l))) eqn:Hkj;
      [|reflexivity].
    apply andb_true_iff in Hkj as [Hj0 Hjn].
    apply Z.leb_le in Hj0. apply Z.ltb_lt in Hjn.
    rewrite list_lookup_insert_ne; [reflexivity|].
    subst k kj.
    destruct (Z.ltb_spec i 0), (Z.ltb_spec j 0); lia.
Qed.

Lemma item_name_inj (i j : nat) :
  "item_" +:+ pretty i = "item_" +:+ pretty j -> i = j.
Proof.
  cbn [String.append]. intros [= Hp]. now apply pretty_nat_inj in Hp.
Qed.

Lemma list_index_item_names (k n i : nat) :
  (i < n)%nat ->
  list_index (map (fun i : nat => "item_" +:+ pretty i) (seq k n))
    ("item_" +:+ pretty (k + i)%nat)
  = Ok (Z.of_nat i).
Proof.
  revert k i. induction n as [|n IH]; intros k i Hi; [lia|].
  cbn [seq map list_index].
  destruct i as [|i].
  - rewrite Nat.add_0_r, bool_decide_eq_true_2 by reflexivity. reflexivity.
  - rewrite bool_decide_eq_false_2
      by (intros Heq; apply item_name_inj in Heq; lia).
    replace (k + S i)%nat with (S k + i)%nat by lia.
    rewrite IH by lia. cbn [bind]. f_equal. lia.
Qed.

Lemma list_index_unknown (l : list string) (name : string) :
  ~ In name l -> list_index l name = Raise ValueError.
Proof.
  induction l as [|x l IH]; intros Hin; [reflexivity|].
  cbn [list_index].
  rewrite bool_decide_eq_false_2 by (intros ->; apply Hin; now left).
  rewrite IH by (intros Hl; apply Hin; now right). reflexivity.
Qed.

End BitArrayItems.

(** Writing an element of a [BitArray] and reading it back with the same
    key, an index or a name, gives the written bit; the assignment keeps
    the length of the value and the list of names. *)
Theorem BitArray_setitem_getitem (self self' : BitArrayOps.BitArray)
    (key : BitArrayOps.key) (val : bool) :
  BitArrayOps.__setitem__ self key val = Ok self' ->
  BitArrayOps.__getitem__ self' key = Ok val
  /\ BitArrayOps.constants self' = BitArrayOps.constants self
  /\ exists old new,
       BitArrayOps.value self = Some old
       /\ BitArrayOps.value self' = Some new
       /\ length new = length old.
Proof.
  unfold BitArrayOps.__setitem__, BitArrayOps.__getitem__.
  destruct key as [i|name].
  - destruct (BitArrayOps.value self) as [v|] eqn:Hv; [|discriminate].
    destruct (BitArrayOps.py_setitem v i val) as [v'|] eqn:Hs;
      [|discriminate].
    intros [= <-]. cbn.
    destruct (py_setitem_spec _ _ _ _ Hs) as (Hg & Hl & _).
    rewrite Hg. split; [reflexivity|]. split; [reflexivity|].
    exists v, v'. auto.
  - destruct (BitArrayOps.constants self) as [c|] eqn:Hc; [|discriminate].
    destruct (BitArrayOps.list_index c name) as [i|] eqn:Hi; [|discriminate].
    cbn [bind].
    destruct (BitArrayOps.value self) as [v|] eqn:Hv; [|discriminate].
    destruct (BitArrayOps.py_setitem v i val) as [v'|] eqn:Hs;
      [|discriminate].
    intros [= <-]. cbn. rewrite Hi. cbn.
    destruct (py_setitem_spec _ _ _ _ Hs) as (Hg & Hl & _).
    rewrite Hg. split; [reflexivity|]. split; [reflexivity|].
    exists v, v'. auto.
Qed.

(** An instance: the bit named [item_1] of [BitArray('00')]. *)
Lemma BitArray_setitem_getitem_witness :
  BitArrayOps.__getitem__
    {| BitArrayOps.value := Some [b0; b1];
       BitArrayOps.constants := Some ["item_0"; "item_1"]%string |}
    (BitArrayOps.KName "item_1") = Ok b1
  /\ BitArrayOps.constants
       {| BitArrayOps.value := Some [b0; b1];
          BitArrayOps.constants := Some ["item_0"; "item_1"]%string |}
     = BitArrayOps.constants (BitArrayOps.__init__ (Some [b0; b0]))
  /\ exists old new,
       BitArrayOps.value (BitArrayOps.__init__ (Some [b0; b0])) = Some old
       /\ BitArrayOps.value
            {| BitArrayOps.value := Some [b0; b1];
               BitArrayOps.constants := Some ["item_0"; "item_1"]%string |}
          = Some new
       /\ length new = length old.
Proof.
  apply (BitArray_setitem_getitem
           (BitArrayOps.__init__ (Some [b0; b0])) _
           (BitArrayOps.KName "item_1") b1).
  reflexivity.
Defined.

(** A [BitArray] built on a value names its elements [item_0], [item_1],
    ...: access by the name [item_i] is access by the index [i], for every
    position [i] of the value; and a name that is not in the list raises
    [ValueError]. *)
Theorem BitArray_item_names (v : bitarray) :
  (forall i : nat, (i < length v)%nat ->
     BitArrayOps.__getitem__ (BitArrayOps.__init__ (Some v))
       (BitArrayOps.KName ("item_" +:+ pretty i))
     = BitArrayOps.__getitem__ (BitArrayOps.__init__ (Some v))
         (BitArrayOps.KInt (Z.of_nat i))
     /\ forall val,
          BitArrayOps.__setitem__ (BitArrayOps.__init__ (Some v))
            (BitArrayOps.KName ("item_" +:+ pretty i)) val
          = BitArrayOps.__setitem__ (BitArrayOps.__init__ (Some v))
              (BitArrayOps.KInt (Z.of_nat i)) val)
  /\ (forall name : string,
        (forall i : nat, (i < length v)%nat ->
           name <> "item_" +:+ pretty i) ->
        BitArrayOps.__getitem__ (BitArrayOps.__init__ (Some v))
          (BitArrayOps.KName name)
        = Raise ValueError).
Proof.
  split.
  - intros i Hi.
    unfold BitArrayOps.__getitem__, BitArrayOps.__setitem__,
      BitArrayOps.__init__.
    cbn [BitArrayOps.value BitArrayOps.constants].
    pose proof (list_index_item_names 0 (length v) i Hi) as Hidx.
    cbn [Nat.add] in Hidx. rewrite Hidx. cbn [bind]. split; reflexivity.
  - intros name Hname.
    unfold BitArrayOps.__getitem__, BitArrayOps.__init__.
    cbn [BitArrayOps.value BitArrayOps.constants].
    rewrite list_index_unknown; [reflexivity|].
    intros Hin. apply List.in_map_iff in Hin as (i & <- & Hi).
    apply List.in_seq in Hi. apply (Hname i); [lia | reflexivity].
Qed.

(** An instance: the second bit of [BitArray('00')]. *)
Lemma BitArray_item_names_witness :
  BitArrayOps.__getitem__ (BitArrayOps.__init__ (Some [b0; b0]))
    (BitArrayOps.KName ("item_" +:+ pretty 1%nat))
  = BitArrayOps.__getitem__ (BitArrayOps.__init__ (Some [b0; b0]))
      (BitArrayOps.KInt (Z.of_nat 1)).
Proof.
  apply (proj1 (BitArray_item_names [b0; b0]) 1%nat). simpl. lia.
Defined.

(** ** BitArray: [generate] *)

Section BitArrayGenerateFacts.
Context {W : Type} `{PRNG W}.

Lemma random_randint_in_range (a b : Z) (w : W) :
  randbelow_in_range -> a <= b ->
  exists r w', random_randint a b w = (Ok r, w') /\ a <= r <= b.
Proof.
  intros Hr Hab. unfold random_randint.
  destruct (Z.ltb_spec 0 (b + 1 - a)); [|lia].
  pose proof (Hr (Z.to_nat (b + 1 - a)) w ltac:(lia)) as Hlt.
  destruct (randbelow (Z.to_nat (b + 1 - a)) w) as [r w'].
  cbn [fst] in Hlt. exists (a + Z.of_nat r), w'. split; [reflexivity|lia].
Qed.

Lemma random_bits_length (n : nat) (w : W) :
  exists l w', random_bits n w = (Ok l, w') /\ length l = n.
Proof.
  revert w. induction n as [|n IH]; intros w.
  - exists [], w. split; reflexivity.
  - cbn [random_bits]. unfold random_randint.
    change (0 <? 1 + 1 - 0) with true. cbn iota.
    destruct (randbelow (Z.to_nat (1 + 1 - 0)) w) as [r w1].
    destruct (IH w1) as (l & w2 & Hl & Hlen). rewrite Hl. cbn [bind].
    eexists _, w2. split; [reflexivity|]. simpl. now rewrite Hlen.
Qed.

End BitArrayGenerateFacts.

(** [BitArray.generate] without a fixed value draws a bitarray whose length
    lies within the declared bounds (the upper bound being
    [MAXIMUM_GENERATED_DATA_SIZE] when none is declared) and which carries
    the endianness of the type, provided the lower bound is not negative
    and not above the upper one. *)
Theorem BitArray_generate_within_size {W : Type} `{PRNG W}
    (MAXIMUM_GENERATED_DATA_SIZE : Z) (self : BitArrayType) (w : W)
    (minSize : Z) :
  randbelow_in_range ->
  type_value self = None ->
  fst (type_size self) = Some minSize ->
  0 <= minSize
  <= match snd (type_size self) with
     | Some m => m
     | None => MAXIMUM_GENERATED_DATA_SIZE
     end ->
  exists b w',
    BitArray_generate MAXIMUM_GENERATED_DATA_SIZE self w = (Ok b, w')
    /\ minSize <= Z.of_nat (length (BitArrayOps.bits b))
       <= match snd (type_size self) with
          | Some m => m
          | None => MAXIMUM_GENERATED_DATA_SIZE
          end
    /\ BitArrayOps.endian b = type_endianness self.
Proof.
  intros Hr Hv Hlo Hb. unfold BitArray_generate. rewrite Hv.
  destruct (type_size self) as [lo hi]. cbn [fst snd] in *. subst lo.
  destruct (random_randint_in_range minSize
              match hi with
              | Some m => m
              | None => MAXIMUM_GENERATED_DATA_SIZE
              end w Hr ltac:(lia)) as (g & w1 & Hg & Hrange).
  rewrite Hg.
  destruct (random_bits_length (Z.to_nat g) w1) as (l & w2 & Hl & Hlen).
  rewrite Hl. cbn [bind]. eexists _, w2. split; [reflexivity|].
  cbn [BitArrayOps.bits BitArrayOps.endian]. rewrite Hlen.
  split; [lia | reflexivity].
Qed.

(** An instance: [BitArray(nbBits=(13, 128))] with a source of draws that
    always answers 0. *)
Lemma BitArray_generate_within_size_witness :
  exists b w',
    BitArray_generate 65536
      {| type_value := None; type_size := (Some 13, Some 128);
         type_endianness := Integer.BIG |} tt = (Ok b, w')
    /\ 13 <= Z.of_nat (length (BitArrayOps.bits b)) <= 128
    /\ BitArrayOps.endian b = Integer.BIG.
Proof.
  apply (BitArray_generate_within_size 65536
           {| type_value := None; type_size := (Some 13, Some 128);
              type_endianness := Integer.BIG |} tt 13).
  - intros n w Hn. simpl. exact Hn.
  - reflexivity.
  - reflexivity.
  - simpl. lia.
Defined.

(** ** Leaves: what [fuzz_generate()] yields *)

Section FuzzGenerateBound.
Context {W : Type}.

Lemma fuzz_generate_loop_yields (self : AbstractVariableLeaf.leaf W)
    (mutator : Mutator W) (parsingPath : GenericPath) (n : nat) (w : W) :
  (length (yields (AbstractVariableLeaf.fuzz_generate_loop self mutator
                     parsingPath n w).1) <= n)%nat
  /\ Forall (fun p => exists v : bytes,
               p = addResult (AbstractVariableLeaf.id self) (frombytes v)
                     (clone parsingPath))
       (yields (AbstractVariableLeaf.fuzz_generate_loop self mutator
                  parsingPath n w).1).
Proof.
  revert w. induction n as [|n IH]; intros w.
  - cbn. split; [lia | constructor].
  - cbn [AbstractVariableLeaf.fuzz_generate_loop].
    destruct (generate mutator w) as [[[i|b]|e] w1].
    + cbn. split; [lia | constructor].
    + specialize (IH w1).
      destruct (AbstractVariableLeaf.fuzz_generate_loop self mutator
                  parsingPath n w1) as [g w2].
      cbn [fst yields length] in *. destruct IH as [IHl IHf].
      split; [lia|]. constructor; [now exists b | exact IHf].
    + destruct e; cbn; (split; [lia | constructor]).
Qed.

End FuzzGenerateBound.

(** Whatever the mutator returns or raises, the generator
    [fuzz_generate()] of a leaf yields at most [count(fuzz)] paths, and
    every path it yields is a copy of the path given to [specialize] with
    one more result, for the leaf itself: whole bytes turned into bits.
    The memory and the bits of the other variables are those of the given
    path. *)
Theorem leaf_fuzz_generate_yields {W} (self : AbstractVariableLeaf.leaf W)
    (fuzz : option (Fuzz W)) (mutator : Mutator W)
    (parsingPath : GenericPath) (w : W) :
  Z.of_nat (length (yields (AbstractVariableLeaf.fuzz_generate self fuzz
                              mutator parsingPath w).1))
  <= Z.max 0 (AbstractVariableLeaf.count self fuzz)
  /\ Forall (fun p =>
       (exists v : bytes,
          getData (AbstractVariableLeaf.id self) p = Ok (frombytes v))
       /\ memory p = memory parsingPath
       /\ forall x, x <> AbstractVariableLeaf.id self ->
            dataAssignedToVariable p !! x
            = dataAssignedToVariable parsingPath !! x)
     (yields (AbstractVariableLeaf.fuzz_generate self fuzz mutator
                parsingPath w).1).
Proof.
  unfold AbstractVariableLeaf.fuzz_generate.
  destruct (fuzz_generate_loop_yields self mutator parsingPath
              (Z.to_nat (AbstractVariableLeaf.count self fuzz)) w)
    as [Hlen Hall].
  split; [lia|].
  eapply List.Forall_impl; [|exact Hall].
  intros p [v ->]. split; [|split].
  - exists v. apply getData_addResult.
  - reflexivity.
  - intros x Hx. unfold addResult, assignData, clone.
    cbn [dataAssignedToVariable]. now rewrite lookup_insert_ne.
Qed.

(** ** Alt: what [specialize] returns *)

Section AltSpecializeResult.
Context {W : Type} `{PRNG W}.

Lemma record_results_map {M} (self : positive) (c : Alt.child M)
    (l l' : list GenericPath) :
  Alt.record_results self c l = Ok l' ->
  l' = map (recorded self (Alt.child_id c)) l.
Proof.
  revert l'. induction l as [|q l IH]; intros l'; cbn [Alt.record_results].
  - intros [= <-]. reflexivity.
  - destruct (getData (Alt.child_id c) q) as [v|] eqn:Hv; [|discriminate].
    cbn [bind].
    destruct (Alt.record_results self c l) as [rest|]; [|discriminate].
    cbn [bind]. intros [= <-]. cbn [map]. unfold recorded at 1.
    rewrite Hv. f_equal. now apply IH.
Qed.

Lemma swap_Permutation {A} (x : list A) (i j : nat) : swap x i j ≡ₚ x.
Proof.
  unfold swap.
  destruct (x !! i) as [a|] eqn:Ha; [|reflexivity].
  destruct (x !! j) as [b|] eqn:Hb; [|reflexivity].
  now apply Permutation_insert_swap.
Qed.

Lemma random_shuffle_Permutation {A} (x : list A) (w : W) :
  (random_shuffle x w).1 ≡ₚ x.
Proof.
  unfold random_shuffle. generalize (length x - 1)%nat as i.
  intros i. revert x w. induction i as [|i IH]; intros x w; [reflexivity|].
  cbn [shuffle_loop]. destruct (randbelow (S (S i)) w) as [j w'].
  rewrite IH. apply swap_Permutation.
Qed.

Lemma select_child_nil {M} (self : positive) (callback : option Alt.altCbkType)
    (specializingPath : GenericPath) (fuzz : option (Fuzz W)) (w : W)
    (c : Alt.child M) (w1 : W) :
  Alt.select_child self [] callback specializingPath fuzz w <> (Ok c, w1).
Proof.
  unfold Alt.select_child.
  destruct (fuzz_get fuzz self) as [m|].
  - destruct (generate m w) as [[[i|b]|e] w']; try discriminate.
    cbn [length]. change (Z.of_nat 0) with 0.
    destruct (Z.leb_spec 0 i), (Z.ltb_spec i 0); cbn [andb];
      try discriminate; lia.
  - destruct callback as [cbk|]; [|discriminate].
    destruct (cbk specializingPath (map Alt.child_id [])) as [i|];
      [|discriminate].
    unfold py_index. cbn [length]. change (Z.of_nat 0) with 0.
    destruct (i <? 0);
      match goal with
      | |- context [(0 <=? ?k) && (?k <? 0)] =>
          destruct (Z.leb_spec 0 k), (Z.ltb_spec k 0); cbn [andb];
          try discriminate; lia
      end.
Qed.

End AltSpecializeResult.

(** When [Alt.specialize] succeeds, the paths it returns are the paths the
    selected child returned, each with the child's bits recorded for the
    Alt, in some order: [random.shuffle] loses and repeats none. *)
Theorem Alt_specialize_permutation {W} `{PRNG W} (self : positive)
    (children : list (Alt.child (Alt.specialize_method W)))
    (callback : option Alt.altCbkType) (specializingPath : GenericPath)
    (fuzz : option (Fuzz W)) (w : W) (paths : list GenericPath) (w' : W) :
  Alt.specialize self children callback specializingPath fuzz w
  = (Ok paths, w') ->
  exists c w1 l w2,
    Alt.select_child self children callback specializingPath fuzz w
    = (Ok c, w1)
    /\ Alt.method c (duplicate specializingPath) fuzz w1
       = (Ok (PyList l), w2)
    /\ paths ≡ₚ map (recorded self (Alt.child_id c)) l
    /\ length paths = length l.
Proof.
  unfold Alt.specialize.
  destruct children as [|c0 others] eqn:Hch; [discriminate|].
  rewrite <- Hch.
  destruct (Alt.select_child self children callback specializingPath fuzz w)
    as [[c|e] w1] eqn:Hsel; [|discriminate].
  destruct (Alt.method c (duplicate specializingPath) fuzz w1)
    as [[it|e] w2] eqn:Hmeth; [|discriminate].
  destruct it as [l| |]; try discriminate.
  destruct (Alt.record_results self c l) as [recorded_paths|] eqn:Hrec;
    [|discriminate].
  pose proof (random_shuffle_Permutation recorded_paths w2) as Hperm.
  destruct (random_shuffle recorded_paths w2) as [shuffled w3].
  intros [= <- <-]. exists c, w1, l, w2.
  apply record_results_map in Hrec. subst recorded_paths.
  cbn [fst] in Hperm.
  split; [reflexivity|]. split; [exact Hmeth|]. split; [exact Hperm|].
  rewrite (Permutation_length Hperm). apply length_map.
Qed.

(** An instance: the mutator generates 1 and the second child is
    specialized. *)
Lemma Alt_specialize_permutation_witness :
  exists c w1 l w2,
    Alt.select_child 1%positive children_AB (Some cbk_first) path_AB
      (Some (fuzz_index 1)) tt = (Ok c, w1)
    /\ Alt.method c (duplicate path_AB) (Some (fuzz_index 1)) w1
       = (Ok (PyList l), w2)
    /\ [addResult 1%positive bits_B (addResult 3%positive bits_B path_AB)]
       ≡ₚ map (recorded 1%positive (Alt.child_id c)) l
    /\ length
         [addResult 1%positive bits_B (addResult 3%positive bits_B path_AB)]
       = length l.
Proof.
  apply (Alt_specialize_permutation 1%positive children_AB
           (Some cbk_first) path_AB (Some (fuzz_index 1)) tt _ tt).
  vm_compute. reflexivity.
Defined.

(** An Alt whose selected child is a leaf fuzzed in GENERATE or FIXED mode
    cannot be specialized: the leaf's [specialize] hands back the generator
    [fuzz_generate()], and [Alt.specialize] takes the [len()] of what the
    child returns, which raises [TypeError]. *)
Theorem Alt_specialize_fuzzed_leaf_child {W} `{PRNG W} (self : positive)
    (children : list (AbstractVariable W))
    (callback : option Alt.altCbkType) (specializingPath : GenericPath)
    (fuzz : option (Fuzz W)) (w w1 : W)
    (l : AbstractVariableLeaf.leaf W) (mutator : Mutator W) :
  Alt.select_child self (map specialize_child children) callback
    specializingPath fuzz w
  = (Ok (specialize_child (VLeaf l)), w1) ->
  fuzz_get fuzz (AbstractVariableLeaf.id l) = Some mutator ->
  mode mutator = FuzzingMode.GENERATE \/ mode mutator = FuzzingMode.FIXED ->
  specialize (VAlt self children callback) specializingPath fuzz w
  = (Raise TypeError, w1).
Proof.
  intros Hsel Hget Hmode.
  cbn [specialize]. fold (@specialize_child W _).
  change (map (fun c => specialize_child c) children)
    with (map specialize_child children).
  unfold Alt.specialize.
  destruct children as [|c0 others].
  - exfalso. revert Hsel. apply select_child_nil.
  - cbn [map] in *.
    match goal with
    | |- context [Alt.select_child ?a ?b ?c ?d ?e ?f] =>
        replace (Alt.select_child a b c d e f)
          with (Ok (specialize_child (VLeaf l)), w1)
          by (symmetry; exact Hsel)
    end.
    cbn [Alt.method specialize_child specialize].
    unfold AbstractVariableLeaf.specialize. rewrite Hget.
    destruct Hmode as [-> | ->]; reflexivity.
Qed.

(** An instance: [Alt([Raw(b"t"), Raw(b"o")])] whose callback selects the
    first child, that child being fuzzed in FIXED mode. *)
Lemma Alt_specialize_fuzzed_leaf_child_witness :
  specialize (VAlt 1%positive [leaf_A; leaf_B] (Some cbk_first)) path_AB
    (Some fixed_fuzz) tt
  = (Raise TypeError, tt).
Proof.
  apply (Alt_specialize_fuzzed_leaf_child 1%positive [leaf_A; leaf_B]
           (Some cbk_first) path_AB (Some fixed_fuzz) tt tt
           (Data.Data 2%positive (Fixed bits_A) (Some Scope.CONSTANT))
           {| mode := FuzzingMode.FIXED;
              mutator_count := 1;
              generate := fun w => (Ok (GBytes ["A"%byte]), w) |}).
  - reflexivity.
  - reflexivity.
  - right; reflexivity.
Defined.

(** ** AlternativeMutator: an exhausted mutator stays exhausted *)

Section AlternativeMutatorExhausted.
Context {St : Type}.
Variable super_generate : St -> result unit * St.
Variable generateInt : St -> result Z * St.

Lemma generate_exhausted (m : AlternativeMutator.AlternativeMutator St) :
  AlternativeMutator._maxDepth m <= AlternativeMutator._currentDepth m + 1 ->
  AlternativeMutator.is_Ok
    (AlternativeMutator.generate super_generate generateInt m).1 = false
  /\ (forall s',
        super_generate (AlternativeMutator.inherited m) = (Ok tt, s') ->
        (AlternativeMutator.generate super_generate generateInt m).1
        = Raise RecursionException).
Proof.
  intros Hd. unfold AlternativeMutator.generate.
  destruct (super_generate (AlternativeMutator.inherited m)) as [[[]|e] s1].
  - destruct (Z.leb_spec (AlternativeMutator._maxDepth m)
                (AlternativeMutator._currentDepth m + 1)); [|lia].
    split; [reflexivity|]. intros s' _. reflexivity.
  - split; [reflexivity|]. intros s' [=].
Qed.

Lemma generate_n_exhausted (n : nat)
    (m : AlternativeMutator.AlternativeMutator St) :
  AlternativeMutator._maxDepth m <= AlternativeMutator._currentDepth m + 1 ->
  Forall (fun r => AlternativeMutator.is_Ok r = false)
    (AlternativeMutator.generate_n super_generate generateInt n m).1.
Proof.
  revert m. induction n as [|n IH]; intros m Hd; [constructor|].
  cbn [AlternativeMutator.generate_n].
  pose proof (generate_exhausted m Hd) as [Hr _].
  pose proof (generate_maxDepth super_generate generateInt m) as HD.
  pose proof (generate_depth_mono super_generate generateInt m) as Hmono.
  destruct (AlternativeMutator.generate super_generate generateInt m)
    as [r m1].
  cbn [fst snd] in *.
  specialize (IH m1 ltac:(lia)).
  destruct (AlternativeMutator.generate_n super_generate generateInt n m1)
    as [rs m2].
  cbn [fst] in *. constructor; assumption.
Qed.

End AlternativeMutatorExhausted.

(** Once the depth counter of an [AlternativeMutator] is one step from the
    limit or beyond it, [generate] never returns a position again, however
    often it is called and whatever the parent class and the position
    mutator do: the counter is never reset.  In particular the call that
    raised [RecursionException] is followed only by calls that raise. *)
Theorem AlternativeMutator_stays_exhausted {St}
    (super_generate : St -> result unit * St)
    (generateInt : St -> result Z * St)
    (m : AlternativeMutator.AlternativeMutator St) (n : nat) :
  AlternativeMutator._maxDepth m <= AlternativeMutator._currentDepth m + 1 ->
  successes (AlternativeMutator.generate_n super_generate generateInt n m).1
  = 0%nat
  /\ (forall s',
        super_generate (AlternativeMutator.inherited m) = (Ok tt, s') ->
        exists m',
          AlternativeMutator.generate super_generate generateInt m
          = (Raise RecursionException, m')
          /\ AlternativeMutator._maxDepth m'
             <= AlternativeMutator._currentDepth m' + 1).
Proof.
  intros Hd. split.
  - pose proof (generate_n_exhausted super_generate generateInt n m Hd)
      as Hall.
    unfold successes.
    induction Hall as [|r rs Hr _ IH]; [reflexivity|].
    cbn [List.filter]. rewrite Hr. exact IH.
  - intros s' Hs.
    pose proof (generate_exhausted super_generate generateInt m Hd)
      as [_ Hr].
    specialize (Hr s' Hs).
    pose proof (generate_maxDepth super_generate generateInt m) as HD.
    pose proof (generate_depth_mono super_generate generateInt m) as Hmono.
    destruct (AlternativeMutator.generate super_generate generateInt m)
      as [r m1].
    cbn [fst snd] in *. subst r. exists m1. split; [reflexivity | lia].
Qed.

(** An instance: a mutator with the default limit of 20 that was already
    called 19 times, called 5 more times. *)
Lemma AlternativeMutator_stays_exhausted_witness :
  successes
    (AlternativeMutator.generate_n (fun s : unit => (Ok tt, s))
       (fun s => (Ok 1, s)) 5
       (AlternativeMutator.generate_n (fun s : unit => (Ok tt, s))
          (fun s => (Ok 1, s)) 19
          (fresh_mutator AlternativeMutator.DEFAULT_MAX_DEPTH tt)).2).1
  = 0%nat.
Proof.
  apply (AlternativeMutator_stays_exhausted (fun s : unit => (Ok tt, s))
           (fun s => (Ok 1, s))
           (AlternativeMutator.generate_n (fun s : unit => (Ok tt, s))
              (fun s => (Ok 1, s)) 19
              (fresh_mutator AlternativeMutator.DEFAULT_MAX_DEPTH tt)).2 5).
  vm_compute. discriminate.
Defined.

(** ** FlowParser: every segmentation is found *)

Section GenSeqComplete.
Context {A : Type}.

Lemma in_yields_gen_seq_l (g1 g2 : gen A) (x : A) :
  In x (yields g1) -> In x (yields (gen_seq g1 g2)).
Proof.
  unfold gen_seq. destruct (raised g1); cbn [yields]; [auto|].
  intros Hin. apply in_or_app. now left.
Qed.

Lemma in_yields_gen_seq_r (g1 g2 : gen A) (x : A) :
  raised g1 = None -> In x (yields g2) -> In x (yields (gen_seq g1 g2)).
Proof.
  unfold gen_seq. intros ->. cbn [yields].
  intros Hin. apply in_or_app. now right.
Qed.

Lemma in_yields_fold_gen_seq (gs : list (gen A)) (g : gen A) (x : A) :
  Forall (fun g => raised g = None) gs ->
  In g gs -> In x (yields g) ->
  In x (yields (fold_right gen_seq (Gen [] None) gs)).
Proof.
  induction 1 as [|g0 gs Hg0 _ IH]; intros Hg Hx; [destruct Hg|].
  cbn [fold_right]. destruct Hg as [->|Hg].
  - now apply in_yields_gen_seq_l.
  - apply in_yields_gen_seq_r; auto.
Qed.

End GenSeqComplete.

Section FlowParserComplete.
Context {Symbol Field Memory : Type}.
Variable getLeafFields : Symbol -> list Field.
Variable duplicate : Memory -> Memory.
Variable parseBitarray :
  Memory -> bitarray -> list Field -> bool -> gen (list bitarray).

Hypothesis within_input : parser_within_input parseBitarray.
Hypothesis progress : parser_progress parseBitarray.
Hypothesis only_invalid : parser_raises_only_InvalidParsingPath parseBitarray.

Lemma for_parse_result_returns (symbols : list Symbol) (fuel : nat)
    (data : bitarray) (memory : Memory) (symbol : Symbol)
    (parse_result : list bitarray) :
  In parse_result
     (yields (parseBitarray memory data (getLeafFields symbol) false)) ->
  (length data <= S fuel)%nat ->
  raised (FlowParser.for_parse_result
            (fun remainings_bitarray =>
               FlowParser._parseFlow_internal getLeafFields duplicate
                 parseBitarray fuel remainings_bitarray symbols
                 (duplicate memory))
            data symbol parse_result) = None.
Proof.
  intros Hres Hfuel.
  pose proof (within_input _ _ _ _ Hres) as Hle.
  pose proof (progress _ _ _ _ Hres) as Hpos.
  unfold FlowParser.for_parse_result.
  destruct (Nat.ltb_spec 0
              (length (drop (FlowParser.parse_result_len parse_result)
                         data))) as [Hrem|Hrem]; [|reflexivity].
  apply raised_except. cbn [raised]. left.
  apply (internal_returns getLeafFields duplicate parseBitarray
           within_input progress only_invalid).
  - intros Hnil. rewrite Hnil in Hrem. cbn in Hrem. lia.
  - rewrite length_drop. lia.
Qed.

Lemma for_symbol_returns (symbols : list Symbol) (fuel : nat)
    (data : bitarray) (memory : Memory) (symbol : Symbol) :
  (length data <= S fuel)%nat ->
  raised (FlowParser.for_symbol getLeafFields parseBitarray
            (fun remainings_bitarray =>
               FlowParser._parseFlow_internal getLeafFields duplicate
                 parseBitarray fuel remainings_bitarray symbols
                 (duplicate memory))
            memory data symbol) = None.
Proof.
  intros Hfuel. unfold FlowParser.for_symbol. apply raised_except.
  rewrite raised_gen_seq.
  - cbn [raised]. apply only_invalid.
  - apply raised_fold_gen_seq. apply List.Forall_forall.
    intros g Hg. apply List.in_map_iff in Hg as (parse_result & <- & Hres).
    now apply for_parse_result_returns.
Qed.

Lemma internal_complete (symbols : list Symbol) (memory : Memory)
    (data : bitarray) (f : list (Symbol * list bitarray)) :
  Segmentation getLeafFields duplicate parseBitarray symbols memory data f ->
  forall fuel, (length data <= fuel)%nat ->
    In f (yields (FlowParser._parseFlow_internal getLeafFields duplicate
                    parseBitarray fuel data symbols memory)).
Proof.
  induction 1 as [memory data symbol parse_result Hsym Hres Hdrop
                 |memory data symbol parse_result rest Hsym Hres Hdrop _ IH];
    intros fuel Hfuel;
    pose proof (within_input _ _ _ _ Hres) as Hle;
    pose proof (progress _ _ _ _ Hres) as Hpos;
    (destruct fuel as [|fuel]; [lia|]);
    cbn [FlowParser._parseFlow_internal];
    (destruct (Nat.eqb_spec (length data) 0) as [Hz|_]; [lia|]);
    (apply in_yields_fold_gen_seq
       with (g := FlowParser.for_symbol getLeafFields parseBitarray
                    (fun remainings_bitarray =>
                       FlowParser._parseFlow_internal getLeafFields duplicate
                         parseBitarray fuel remainings_bitarray symbols
                         (duplicate memory))
                    memory data symbol);
     [ apply List.Forall_forall; intros g Hg;
       apply List.in_map_iff in Hg as (s & <- & _);
       now apply for_symbol_returns
     | apply List.in_map_iff; exists symbol; split; [reflexivity | exact Hsym]
     | ]);
    unfold FlowParser.for_symbol; rewrite yields_except;
    apply in_yields_gen_seq_l;
    (apply in_yields_fold_gen_seq
       with (g := FlowParser.for_parse_result
                    (fun remainings_bitarray =>
                       FlowParser._parseFlow_internal getLeafFields duplicate
                         parseBitarray fuel remainings_bitarray symbols
                         (duplicate memory))
                    data symbol parse_result);
     [ apply List.Forall_forall; intros g Hg;
       apply List.in_map_iff in Hg as (r & <- & Hr);
       now apply for_parse_result_returns
     | apply List.in_map_iff; exists parse_result;
       split; [reflexivity | exact Hres]
     | ]);
    unfold FlowParser.for_parse_result.
  - rewrite Hdrop. cbn. now left.
  - destruct (Nat.ltb_spec 0
                (length (drop (FlowParser.parse_result_len parse_result)
                           data))) as [Hrem|Hrem].
    + rewrite yields_except. cbn [yields].
      apply List.in_map_iff. exists rest. split; [reflexivity|].
      apply IH. rewrite length_drop. lia.
    + exfalso. apply Hdrop. apply length_zero_iff_nil. lia.
Qed.

End FlowParserComplete.

(** With a message parser whose alignments cover a non-empty prefix of the
    input and that raises nothing but [InvalidParsingPathException], the
    generator [_parseFlow_internal] yields every segmentation of the input
    over the symbols; so [parseFlow] returns a flow, and raises nothing,
    whenever the message can be segmented at all. *)
Theorem parseFlow_finds_every_segmentation {Symbol Field Memory : Type}
    (getLeafFields : Symbol -> list Field) (duplicate : Memory -> Memory)
    (parseBitarray :
       Memory -> bitarray -> list Field -> bool -> gen (list bitarray))
    (fuel : nat) (message_data : bytes) (symbols : list Symbol)
    (memory : Memory) (f : list (Symbol * list bitarray)) :
  parser_within_input parseBitarray ->
  parser_progress parseBitarray ->
  parser_raises_only_InvalidParsingPath parseBitarray ->
  (length (FlowParser.convert_Raw_BitArray message_data) <= fuel)%nat ->
  Segmentation getLeafFields duplicate parseBitarray symbols memory
    (FlowParser.convert_Raw_BitArray message_data) f ->
  In f (yields (FlowParser._parseFlow_internal getLeafFields duplicate
                  parseBitarray fuel
                  (FlowParser.convert_Raw_BitArray message_data)
                  symbols memory))
  /\ exists f',
       FlowParser.parseFlow getLeafFields duplicate parseBitarray fuel
         message_data symbols memory = Ok f'.
Proof.
  intros Hwithin Hprog Honly Hfuel Hseg.
  pose proof (internal_complete getLeafFields duplicate parseBitarray
                Hwithin Hprog Honly symbols memory _ f Hseg fuel Hfuel)
    as Hin.
  split; [exact Hin|].
  unfold FlowParser.parseFlow.
  destruct symbols as [|s0 symbols'] eqn:Hs.
  - inversion Hseg as [? ? ? ? [] | ? ? ? ? ? []].
  - rewrite <- Hs in *.
    destruct (yields (FlowParser._parseFlow_internal getLeafFields duplicate
                        parseBitarray fuel
                        (FlowParser.convert_Raw_BitArray message_data)
                        symbols memory)) as [|r rs]; [destruct Hin|].
    now exists r.
Qed.

(** An instance: two bytes and a symbol of 8 bits. *)
Lemma parseFlow_finds_every_segmentation_witness :
  In [ (8%nat, [frombytes ["A"%byte]]); (8%nat, [frombytes ["B"%byte]]) ]
    (yields (FlowParser._parseFlow_internal one_field (fun m => m)
               fixed_width_parser 20
               (FlowParser.convert_Raw_BitArray ["A"; "B"]%byte)
               [8%nat] tt))
  /\ exists f',
       FlowParser.parseFlow one_field (fun m => m) fixed_width_parser 20
         ["A"; "B"]%byte [8%nat] tt = Ok f'.
Proof.
  apply (parseFlow_finds_every_segmentation one_field (fun m => m)
           fixed_width_parser 20 ["A"; "B"]%byte [8%nat] tt).
  - exact fixed_width_parser_within.
  - exact fixed_width_parser_progress.
  - exact fixed_width_parser_only_invalid.
  - vm_compute. lia.
  - apply Segmentation_more.
    + now left.
    + vm_compute. now left.
    + vm_compute. discriminate.
    + apply Segmentation_last.
      * now left.
      * vm_compute. now left.
      * vm_compute. reflexivity.
Defined.

(** ** Fuzz: [unset] and the normalization of the keys *)

Section FuzzMappingFacts.
Import FuzzMapping.
Context {V : Type}.

Lemma same_object_refl (k : key) : same_object k k = true.
Proof. destruct k; cbn; apply Pos.eqb_refl. Qed.

Lemma same_object_sym (a b : key) : same_object a b = same_object b a.
Proof. destruct a, b; cbn; try reflexivity; apply Pos.eqb_sym. Qed.

Lemma same_object_trans (a b c : key) :
  same_object a b = true -> same_object b c = true -> same_object a c = true.
Proof.
  destruct a, b, c; cbn; try discriminate;
    rewrite !Pos.eqb_eq; congruence.
Qed.

Lemma dict_contains_lookup (d : @dict V) (k : key) :
  dict_contains d k = false -> dict_lookup d k = None.
Proof.
  induction d as [|[k' v] d IH]; [reflexivity|].
  cbn. destruct (same_object k k'); [discriminate | exact IH].
Qed.

Lemma get_lookup (d : @dict V) (k : key) :
  get d k = match k with
            | KOther _ => Raise TypeError
            | _ => Ok (dict_lookup d k)
            end.
Proof.
  unfold get.
  destruct k; try reflexivity;
    (destruct (dict_contains d _) eqn:Hc; [reflexivity|];
     now rewrite (dict_contains_lookup _ _ Hc)).
Qed.

(** [pop] of a key that may be absent *)
Lemma pop_present_Return (d : @dict V) (r : key) :
  pop_present (Return d) r
  = Return (List.filter (fun kv => negb (same_object r kv.1)) d).
Proof.
  unfold pop_present, and_then, dict_pop.
  destruct (dict_contains d r) eqn:Hc; [reflexivity|].
  f_equal. unfold dict_contains in Hc.
  induction d as [|[k' v] d IH]; [reflexivity|].
  cbn in *. apply orb_false_iff in Hc as [Hk Hd].
  rewrite Hk. cbn. f_equal. now apply IH.
Qed.

Lemma lookup_filter_same (d : @dict V) (r k : key) :
  same_object r k = true ->
  dict_lookup (List.filter (fun kv => negb (same_object r kv.1)) d) k = None.
Proof.
  intros Hrk. induction d as [|[k' v] d IH]; [reflexivity|].
  cbn. destruct (same_object r k') eqn:Hrk'; cbn; [exact IH|].
  destruct (same_object k k') eqn:Hkk'; [|exact IH].
  rewrite (same_object_trans r k k' Hrk Hkk') in Hrk'. discriminate.
Qed.

Lemma lookup_filter_other (d : @dict V) (r k : key) :
  same_object r k = false ->
  dict_lookup (List.filter (fun kv => negb (same_object r kv.1)) d) k
  = dict_lookup d k.
Proof.
  intros Hrk. induction d as [|[k' v] d IH]; [reflexivity|].
  cbn. destruct (same_object r k') eqn:Hrk'; cbn.
  - destruct (same_object k k') eqn:Hkk'; [|exact IH].
    rewrite same_object_sym in Hkk'.
    rewrite (same_object_trans r k' k Hrk' Hkk') in Hrk. discriminate.
  - destruct (same_object k k'); [reflexivity | exact IH].
Qed.

Lemma lookup_filter_None (d : @dict V) (r k : key) :
  dict_lookup d k = None ->
  dict_lookup (List.filter (fun kv => negb (same_object r kv.1)) d) k = None.
Proof.
  intros Hd. destruct (same_object r k) eqn:Hrk.
  - now apply lookup_filter_same.
  - now rewrite lookup_filter_other.
Qed.

Lemma fold_pop_present (ks : list key) (d : @dict V) :
  exists d',
    fold_left pop_present ks (Return d) = Return d'
    /\ (forall k, dict_lookup d k = None -> dict_lookup d' k = None)
    /\ (forall k r, In r ks -> same_object r k = true ->
                    dict_lookup d' k = None)
    /\ (forall k, (forall r, In r ks -> same_object r k = false) ->
                  dict_lookup d' k = dict_lookup d k).
Proof.
  revert d. induction ks as [|r ks IH]; intros d.
  - exists d. cbn. repeat split; auto. intros k r [].
  - cbn [fold_left]. rewrite pop_present_Return.
    destruct (IH (List.filter (fun kv => negb (same_object r kv.1)) d))
      as (d' & Hd' & Hnone & Hrem & Hoth).
    exists d'. split; [exact Hd'|]. split; [|split].
    + intros k Hk. apply Hnone. now apply lookup_filter_None.
    + intros k r' [<-|Hin] Hs.
      * apply Hnone. now apply lookup_filter_same.
      * now apply (Hrem k r').
    + intros k Hk. rewrite Hoth by (intros r' Hr'; apply Hk; now right).
      apply lookup_filter_other. apply Hk. now left.
Qed.

Lemma unset_keys_not_other (k : key) (ks : list key) :
  unset_keys_to_remove k = Return ks ->
  forall r, In r ks -> ~ is_other r.
Proof.
  intros Hks r Hr Ho.
  assert (Hmap : forall fs, In r (map (fun f => KVariable (domain f)) fs) ->
                            False).
  { intros fs Hin. apply List.in_map_iff in Hin as (f & <- & _). exact Ho. }
  destruct k as [i|f|s|i]; unfold unset_keys_to_remove in Hks.
  - injection Hks as <-. destruct Hr as [<-|[]]. exact Ho.
  - destruct (Nat.ltb 0 (length (fields f))); injection Hks as <-.
    + destruct Hr as [<-|Hr]; [exact Ho | eauto].
    + destruct Hr as [<-|[]]. exact Ho.
  - injection Hks as <-. destruct Hr as [<-|Hr]; [exact Ho | eauto].
  - discriminate.
Qed.

End FuzzMappingFacts.

(** [Fuzz.unset] on a variable, a field or a symbol never raises (a key
    that is not in the mapping is skipped, so no [KeyError]); afterwards
    [get] answers [None] for every key the method set out to remove (the
    variable itself; the domain of a field without sub-fields; a field with
    sub-fields, or a symbol, and the domains of its fields), and answers as
    before for every other key.  Any other object raises the bare
    [Exception]. *)
Theorem Fuzz_unset_get {V : Type} (mappingFieldsMutators : @FuzzMapping.dict V)
    (key : FuzzMapping.key) :
  (forall keys_to_remove,
     FuzzMapping.unset_keys_to_remove key = FuzzMapping.Return keys_to_remove ->
     exists d',
       FuzzMapping.unset mappingFieldsMutators key = FuzzMapping.Return d'
       /\ (forall k r, In r keys_to_remove ->
             FuzzMapping.same_object r k = true ->
             FuzzMapping.get d' k = Ok None)
       /\ (forall k,
             (forall r, In r keys_to_remove ->
                FuzzMapping.same_object r k = false) ->
             FuzzMapping.get d' k = FuzzMapping.get mappingFieldsMutators k))
  /\ (FuzzMapping.is_other key ->
      FuzzMapping.unset mappingFieldsMutators key = FuzzMapping.RaiseException)
  /\ FuzzMapping.unset mappingFieldsMutators key <> FuzzMapping.RaiseKeyError.
Proof.
  split; [|split].
  - intros ks Hks. unfold FuzzMapping.unset. rewrite Hks.
    cbn [FuzzMapping.and_then].
    destruct (fold_pop_present ks mappingFieldsMutators)
      as (d' & Hd' & _ & Hrem & Hoth).
    exists d'. split; [exact Hd'|]. split.
    + intros k r Hr Hs. rewrite get_lookup, (Hrem k r Hr Hs).
      destruct k as [i|f|s|i]; try reflexivity.
      exfalso. apply (unset_keys_not_other key ks Hks r Hr).
      destruct r; try discriminate Hs. exact I.
    + intros k Hk. rewrite !get_lookup, (Hoth k Hk). reflexivity.
  - destruct key; cbn; try contradiction. reflexivity.
  - unfold FuzzMapping.unset.
    destruct (FuzzMapping.unset_keys_to_remove key) as [ks| |] eqn:Hks;
      cbn [FuzzMapping.and_then]; try discriminate.
    + destruct (fold_pop_present ks mappingFieldsMutators) as (d' & Hd' & _).
      rewrite Hd'. discriminate.
    + destruct key as [i|f|s|i]; unfold FuzzMapping.unset_keys_to_remove in Hks;
        try discriminate.
      destruct (Nat.ltb 0 (length (FuzzMapping.fields f))); discriminate.
Qed.

(** An instance: the doctest of [unset].  The mapping holds the domains 1
    and 2 of the fields [data1] and [data2]; [unset(f_data2)] removes the
    domain 2. *)
Lemma Fuzz_unset_get_witness :
  exists d',
    FuzzMapping.unset
      [(FuzzMapping.KVariable 1, tt); (FuzzMapping.KVariable 2, tt)]
      (FuzzMapping.KField (FuzzMapping.Build_Field 4 2 []))
    = FuzzMapping.Return d'
    /\ (forall k r, In r [FuzzMapping.KVariable 2] ->
          FuzzMapping.same_object r k = true ->
          FuzzMapping.get d' k = Ok None)
    /\ (forall k,
          (forall r, In r [FuzzMapping.KVariable 2] ->
             FuzzMapping.same_object r k = false) ->
          FuzzMapping.get d' k
          = FuzzMapping.get
              [(FuzzMapping.KVariable 1, tt); (FuzzMapping.KVariable 2, tt)]
              k).
Proof.
  apply (proj1 (Fuzz_unset_get
                  [(FuzzMapping.KVariable 1, tt);
                   (FuzzMapping.KVariable 2, tt)]
                  (FuzzMapping.KField (FuzzMapping.Build_Field 4 2 [])))).
  reflexivity.
Defined.

Section FuzzNormalizeKeys.
Import FuzzMapping.
Context {V : Type}.

Lemma setitem_keys_Forall (P : key -> Prop) (d : @dict V) (k : key) (v : V) :
  Forall P (map fst d) -> P k -> Forall P (map fst (dict_setitem d k v)).
Proof.
  intros Hd Hk. induction d as [|[k' v'] d IH]; cbn.
  - repeat constructor. exact Hk.
  - inversion Hd as [|? ? Hk' Hd']; subst.
    destruct (same_object k k'); cbn; constructor; auto.
Qed.

Lemma update_keys_Forall (P : key -> Prop) (d other : @dict V) :
  Forall P (map fst d) -> Forall P (map fst other) ->
  Forall P (map fst (dict_update d other)).
Proof.
  unfold dict_update. revert d.
  induction other as [|[k v] other IH]; intros d Hd Ho; [exact Hd|].
  cbn [fold_left fst snd]. inversion Ho; subst.
  apply IH; [|assumption]. now apply setitem_keys_Forall.
Qed.

Lemma for_subfields_variables (d : @dict V) (new_key k : key) (v : V)
    (subfields : list Field) (nk : @dict V) (nn : list key) :
  Forall is_variable (map fst nk) -> Forall is_variable nn ->
  Forall is_variable (map fst (for_subfields d new_key k v subfields
                                 (nk, nn)).1)
  /\ Forall is_variable (for_subfields d new_key k v subfields (nk, nn)).2.
Proof.
  unfold for_subfields. revert nk nn.
  induction subfields as [|f fs IH]; intros nk nn Hnk Hnn; [now split|].
  cbn [fold_left].
  destruct (same_object new_key k).
  - apply IH.
    + apply setitem_keys_Forall; [assumption | exact I].
    + apply Forall_app. split; [assumption|]. repeat constructor.
  - destruct (negb (dict_contains d (KVariable (domain f)))).
    + apply IH; [|assumption].
      apply setitem_keys_Forall; [assumption | exact I].
    + now apply IH.
Qed.

Lemma fold_step_raise_key (d : @dict V) (new_key : key)
    (items : list (key * V)) :
  fold_left (normalizeKeys_step d new_key) items RaiseKeyError
  = RaiseKeyError.
Proof. induction items as [|kv items IH]; [reflexivity | exact IH]. Qed.

Lemma fold_step_raise (d : @dict V) (new_key : key)
    (items : list (key * V)) :
  fold_left (normalizeKeys_step d new_key) items RaiseException
  = RaiseException.
Proof. induction items as [|kv items IH]; [reflexivity | exact IH]. Qed.

(** The loop: the accumulators hold variables only, and every key of the
    mapping that is not a variable is put on [keys_to_remove]. *)
Lemma normalizeKeys_loop (d : @dict V) (new_key : key)
    (items : list (key * V)) (nk : @dict V) (ktr nn : list key) :
  Forall is_variable (map fst nk) -> Forall is_variable nn ->
  match fold_left (normalizeKeys_step d new_key) items
          (Return (nk, ktr, nn)) with
  | Return (nk', ktr', nn') =>
      Forall is_variable (map fst nk') /\ Forall is_variable nn'
      /\ ktr' = ktr ++ List.filter
                         (fun k => match k with
                                   | KVariable _ => false
                                   | _ => true
                                   end) (map fst items)
      /\ Forall (fun k => ~ is_other k) (map fst items)
  | RaiseKeyError => False
  | RaiseException => Exists is_other (map fst items)
  end.
Proof.
  revert nk ktr nn. induction items as [|[k v] items IH];
    intros nk ktr nn Hnk Hnn.
  - cbn. rewrite app_nil_r. repeat split; auto.
  - cbn [fold_left map fst List.filter].
    unfold normalizeKeys_step at 2. cbn [and_then].
    destruct k as [i|f|s|i].
    + assert (Hn' : Forall is_variable
                      (if same_object new_key (KVariable i)
                       then nn ++ [KVariable i] else nn)).
      { destruct (same_object new_key (KVariable i)); [|assumption].
        apply Forall_app. split; [assumption|]. repeat constructor. }
      specialize (IH nk ktr _ Hnk Hn').
      destruct (fold_left _ items _) as [[[nk' ktr'] nn']| |].
      * destruct IH as (H1 & H2 & H3 & H4).
        split; [exact H1|]. split; [exact H2|]. split; [exact H3|].
        constructor; [tauto | assumption].
      * exact IH.
      * now apply Exists_cons_tl.
    + destruct (0 <? length (fields f))%nat.
      * pose proof (for_subfields_variables d new_key (KField f) v
                      (fields f) nk nn Hnk Hnn) as [Hk' Hn'].
        destruct (for_subfields d new_key (KField f) v (fields f) (nk, nn))
          as [nk1 nn1].
        cbn [fst snd] in Hk', Hn'.
        specialize (IH nk1 (ktr ++ [KField f]) nn1 Hk' Hn').
        destruct (fold_left _ items _) as [[[nk' ktr'] nn']| |].
        -- destruct IH as (H1 & H2 & H3 & H4).
           split; [exact H1|]. split; [exact H2|]. split.
           ++ rewrite H3, <- app_assoc. reflexivity.
           ++ constructor; [tauto | assumption].
        -- exact IH.
        -- now apply Exists_cons_tl.
      * assert (Hk' : Forall is_variable
                        (map fst (dict_setitem nk (KVariable (domain f)) v)))
          by (apply setitem_keys_Forall; [assumption | exact I]).
        assert (Hn' : Forall is_variable
                        (if same_object new_key (KField f)
                         then nn ++ [KVariable (domain f)] else nn)).
        { destruct (same_object new_key (KField f)); [|assumption].
          apply Forall_app. split; [assumption|]. repeat constructor. }
        specialize (IH _ (ktr ++ [KField f]) _ Hk' Hn').
        destruct (fold_left _ items _) as [[[nk' ktr'] nn']| |].
        -- destruct IH as (H1 & H2 & H3 & H4).
           split; [exact H1|]. split; [exact H2|]. split.
           ++ rewrite H3, <- app_assoc. reflexivity.
           ++ constructor; [tauto | assumption].
        -- exact IH.
        -- now apply Exists_cons_tl.
    + pose proof (for_subfields_variables d new_key (KSymbol s) v
                    (getLeafFields s) nk nn Hnk Hnn) as [Hk' Hn'].
      destruct (for_subfields d new_key (KSymbol s) v (getLeafFields s)
                  (nk, nn)) as [nk1 nn1].
      cbn [fst snd] in Hk', Hn'.
      specialize (IH nk1 (ktr ++ [KSymbol s]) nn1 Hk' Hn').
      destruct (fold_left _ items _) as [[[nk' ktr'] nn']| |].
      * destruct IH as (H1 & H2 & H3 & H4).
        split; [exact H1|]. split; [exact H2|]. split.
        -- rewrite H3, <- app_assoc. reflexivity.
        -- constructor; [tauto | assumption].
      * exact IH.
      * now apply Exists_cons_tl.
    + rewrite fold_step_raise. apply Exists_cons_hd. exact I.
Qed.

Lemma fold_pop_raise (ks : list key) :
  fold_left (fun d old_key => and_then d (fun d => dict_pop d old_key)) ks
    (@RaiseKeyError (@dict V))
  = RaiseKeyError.
Proof. induction ks as [|k ks IH]; [reflexivity | exact IH]. Qed.

Lemma dict_pop_outcome (d : @dict V) (k : key) :
  dict_pop d k <> RaiseException.
Proof. unfold dict_pop. destruct (dict_contains d k); discriminate. Qed.

(** After the [pop]s, the keys left are keys of the mapping that none of
    the removed keys is the same object as. *)
Lemma pop_all_keys (ks : list key) (d d' : @dict V) :
  pop_all d ks = Return d' ->
  forall k, In k (map fst d') ->
    In k (map fst d) /\ forall r, In r ks -> same_object r k = false.
Proof.
  unfold pop_all. revert d.
  induction ks as [|r ks IH]; intros d.
  - cbn. intros [= <-] k Hk. split; [exact Hk | intros r []].
  - cbn [fold_left and_then]. unfold dict_pop at 2.
    destruct (dict_contains d r); [|rewrite fold_pop_raise; discriminate].
    intros Hd' k Hk. destruct (IH _ Hd' k Hk) as [Hin Hoth].
    apply List.in_map_iff in Hin as ([k0 v0] & <- & Hin).
    apply List.filter_In in Hin as [Hin Hneq]. cbn [fst] in *.
    split.
    + apply List.in_map_iff. now exists (k0, v0).
    + intros r' [<-|Hr'].
      * now apply negb_true_iff in Hneq.
      * now apply Hoth.
Qed.

Lemma dict_contains_In (d : @dict V) (k : key) :
  In k (map fst d) -> dict_contains d k = true.
Proof.
  unfold dict_contains. intros Hin. apply existsb_exists.
  apply List.in_map_iff in Hin as (kv & <- & Hin).
  exists kv. split; [exact Hin | apply same_object_refl].
Qed.

Lemma dict_contains_filter (d : @dict V) (r k : key) :
  dict_contains d k = true -> same_object r k = false ->
  dict_contains (List.filter (fun kv => negb (same_object r kv.1)) d) k
  = true.
Proof.
  unfold dict_contains. intros Hc Hrk.
  apply existsb_exists in Hc as (kv & Hin & Hs).
  apply existsb_exists. exists kv. split; [|exact Hs].
  apply List.filter_In. split; [exact Hin|].
  apply negb_true_iff. destruct (same_object r kv.1) eqn:Hr; [|reflexivity].
  rewrite same_object_sym in Hs.
  rewrite (same_object_trans r kv.1 k Hr Hs) in Hrk. discriminate.
Qed.

Lemma pop_all_Return (ks : list key) (d : @dict V) :
  distinct ks = true ->
  (forall k, In k ks -> dict_contains d k = true) ->
  exists d', pop_all d ks = Return d'.
Proof.
  unfold pop_all. revert d.
  induction ks as [|r ks IH]; intros d Hdist Hin; [now exists d|].
  cbn [fold_left and_then]. unfold dict_pop at 2.
  rewrite (Hin r) by now left.
  cbn [distinct] in Hdist. apply andb_true_iff in Hdist as [Hr Hdist].
  apply IH; [exact Hdist|].
  intros k Hk. apply dict_contains_filter.
  - apply Hin. now right.
  - rewrite forallb_forall in Hr. specialize (Hr k Hk).
    now apply negb_true_iff in Hr.
Qed.

Lemma distinct_filter (p : key -> bool) (ks : list key) :
  distinct ks = true -> distinct (List.filter p ks) = true.
Proof.
  induction ks as [|k ks IH]; [reflexivity|].
  cbn [distinct List.filter]. intros Hd.
  apply andb_true_iff in Hd as [Hk Hd].
  destruct (p k); [|now apply IH].
  cbn [distinct]. apply andb_true_iff. split; [|now apply IH].
  rewrite forallb_forall in *. intros k' Hk'.
  apply List.filter_In in Hk' as [Hk' _]. now apply Hk.
Qed.

End FuzzNormalizeKeys.

(** After [Fuzz._normalizeKeys] every key of [mappingFieldsMutators] is a
    variable: a field or a symbol used as a key has been replaced by the
    domains of its fields; and the list the method returns holds variables
    only.  The method returns (no [KeyError] from its [pop]s, no
    [Exception]) on every mapping whose keys are variables, fields and
    symbols. *)
Theorem Fuzz_normalizeKeys_variables {V : Type}
    (mappingFieldsMutators : @FuzzMapping.dict V)
    (new_key : FuzzMapping.key) :
  (forall d' normalized_new_keys,
     FuzzMapping._normalizeKeys mappingFieldsMutators new_key
     = FuzzMapping.Return (d', normalized_new_keys) ->
     Forall FuzzMapping.is_variable (map fst d')
     /\ Forall FuzzMapping.is_variable normalized_new_keys)
  /\ (FuzzMapping.distinct (map fst mappingFieldsMutators) = true ->
      Forall (fun k => ~ FuzzMapping.is_other k)
        (map fst mappingFieldsMutators) ->
      exists d' normalized_new_keys,
        FuzzMapping._normalizeKeys mappingFieldsMutators new_key
        = FuzzMapping.Return (d', normalized_new_keys)).
Proof.
  pose proof (normalizeKeys_loop mappingFieldsMutators new_key
                mappingFieldsMutators [] [] []
                (List.Forall_nil _) (List.Forall_nil _)) as Hloop.
  unfold FuzzMapping._normalizeKeys.
  destruct (fold_left _ mappingFieldsMutators _)
    as [[[nk ktr] nn]| |]; cbn [FuzzMapping.and_then].
  - destruct Hloop as (Hnk & Hnn & Hktr & Hno).
    cbn [app] in Hktr. split.
    + intros d' normalized.
      destruct (FuzzMapping.pop_all mappingFieldsMutators ktr)
        as [d1| |] eqn:Hpop; cbn [FuzzMapping.and_then]; try discriminate.
      intros [= <- <-]. split; [|exact Hnn].
      apply update_keys_Forall; [|exact Hnk].
      apply List.Forall_forall. intros k Hk.
      destruct (pop_all_keys ktr _ _ Hpop k Hk) as [Hin Hoth].
      destruct k as [i|f|s|i]; [exact I| | |];
        exfalso;
        match goal with
        | _ : In ?k (map fst mappingFieldsMutators) |- _ =>
            assert (Hr : In k ktr)
              by (rewrite Hktr; apply List.filter_In; split;
                  [exact Hin | reflexivity]);
            specialize (Hoth k Hr);
            rewrite same_object_refl in Hoth; discriminate
        end.
    + intros Hdist _.
      destruct (pop_all_Return ktr mappingFieldsMutators) as [d1 Hd1].
      * rewrite Hktr. now apply distinct_filter.
      * intros k Hk. rewrite Hktr in Hk.
        apply List.filter_In in Hk as [Hk _]. now apply dict_contains_In.
      * rewrite Hd1. cbn [FuzzMapping.and_then]. eauto.
  - destruct Hloop.
  - split; [discriminate|]. intros _ Hno. exfalso.
    apply List.Exists_exists in Hloop as (k & Hk & Hother).
    rewrite List.Forall_forall in Hno. exact (Hno k Hk Hother).
Qed.

(** An instance: a mapping that holds the symbol 9 of the fields [data1]
    and [data2], whose domains are the variables 1 and 2. *)
Lemma Fuzz_normalizeKeys_variables_witness :
  exists d' normalized_new_keys,
    FuzzMapping._normalizeKeys
      [(FuzzMapping.KSymbol
          {| FuzzMapping.symbol_id := 9;
             FuzzMapping.getLeafFields :=
               [FuzzMapping.Build_Field 3 1 [];
                FuzzMapping.Build_Field 4 2 []] |}, tt)]
      (FuzzMapping.KSymbol
         {| FuzzMapping.symbol_id := 9;
            FuzzMapping.getLeafFields :=
              [FuzzMapping.Build_Field 3 1 [];
               FuzzMapping.Build_Field 4 2 []] |})
    = FuzzMapping.Return (d', normalized_new_keys).
Proof.
  apply (proj2 (Fuzz_normalizeKeys_variables
                  [(FuzzMapping.KSymbol
                      {| FuzzMapping.symbol_id := 9;
                         FuzzMapping.getLeafFields :=
                           [FuzzMapping.Build_Field 3 1 [];
                            FuzzMapping.Build_Field 4 2 []] |}, tt)]
                  (FuzzMapping.KSymbol
                     {| FuzzMapping.symbol_id := 9;
                        FuzzMapping.getLeafFields :=
                          [FuzzMapping.Build_Field 3 1 [];
                           FuzzMapping.Build_Field 4 2 []] |}))).
  - reflexivity.
  - repeat constructor. simpl. tauto.
Defined.

(** ** AlternativeMutator: the constructor *)

(** [AlternativeMutator.__init__] builds its position mutator on
    [uint8le(interval=(0, len(domain.children)))]: it succeeds, with that
    interval, for an Alt of at most 255 children, and raises the
    [ValueError] of [Integer._normalizeInterval] for an Alt of more. *)
Theorem AlternativeMutator_init_children_limit {St} (nb_children : nat)
    (maxDepth : Z) (s : St) :
  ((nb_children <= 255)%nat ->
   AlternativeMutator.init nb_children maxDepth s
   = Ok {| AlternativeMutator._maxDepth := maxDepth;
           AlternativeMutator._currentDepth := 0;
           AlternativeMutator.position_interval := (0, Z.of_nat nb_children);
           AlternativeMutator.inherited := s |})
  /\ ((255 < nb_children)%nat ->
      AlternativeMutator.init nb_children maxDepth s = Raise ValueError).
Proof.
  unfold AlternativeMutator.init, Integer._normalizeInterval.
  cbn [fst snd].
  change (Integer.getMinStorageValue Integer.SIZE_8 Integer.UNSIGNED) with 0.
  change (Integer.getMaxStorageValue Integer.SIZE_8 Integer.UNSIGNED)
    with 255.
  change (0 <? 0) with false. cbn [orb].
  split; intros Hn;
    destruct (Z.ltb_spec 255 (Z.of_nat nb_children)); try lia; reflexivity.
Qed.

(** An instance: an Alt of 256 children. *)
Lemma AlternativeMutator_init_children_limit_witness :
  AlternativeMutator.init 256 AlternativeMutator.DEFAULT_MAX_DEPTH tt
  = Raise ValueError.
Proof.
  apply (proj2 (AlternativeMutator_init_children_limit 256
                  AlternativeMutator.DEFAULT_MAX_DEPTH tt)).
  lia.
Defined.

(** ** RelationFinder: concatenated cells and their sizes *)

Section RelationFinderConcat.
Import RelationFinder.

Lemma add_cells_cons (data : bytes) (cellsData : list bytes)
    (res : list bytes) (i : nat) :
  add_cells res i (data :: cellsData)
  = match res !! i with
    | Some cell => add_cells (<[i := cell ++ data]> res) (S i) cellsData
    | None => Raise IndexError
    end.
Proof. reflexivity. Qed.

Lemma add_cells_Ok (cellsData : list bytes) (res : list bytes) (i : nat) :
  (i + length cellsData <= length res)%nat ->
  exists res',
    add_cells res i cellsData = Ok res'
    /\ length res' = length res
    /\ forall j,
         res' !! j
         = match res !! j with
           | Some cell =>
               Some (cell ++ if decide (i <= j)%nat
                             then default [] (cellsData !! (j - i)%nat)
                             else [])
           | None => None
           end.
Proof.
  unfold bytes in *.
  revert res i. induction cellsData as [|data cellsData IH]; intros res i Hlen.
  - exists res. split; [reflexivity|]. split; [reflexivity|].
    intros j. destruct (res !! j) as [cell|]; [|reflexivity].
    destruct (decide (i <= j)%nat); cbn; now rewrite app_nil_r.
  - cbn [length] in Hlen. rewrite add_cells_cons. unfold bytes.
    destruct (res !! i) as [cell|] eqn:Hcell;
      [|apply lookup_ge_None in Hcell; lia].
    destruct (IH (<[i := cell ++ data]> res) (S i)
                ltac:(rewrite length_insert; lia))
      as (res' & Hres' & Hlen' & Hget).
    exists res'. split; [exact Hres'|].
    split; [now rewrite Hlen', length_insert|].
    intros j. rewrite Hget.
    destruct (decide (j = i)) as [->|Hji].
    + rewrite list_lookup_insert_eq by lia. rewrite Hcell.
      destruct (decide (S i <= i)%nat); [lia|].
      destruct (decide (i <= i)%nat); [|lia].
      rewrite Nat.sub_diag. cbn. now rewrite app_nil_r.
    + rewrite list_lookup_insert_ne by congruence.
      destruct (res !! j) as [c|]; [|reflexivity].
      destruct (decide (S i <= j)%nat), (decide (i <= j)%nat);
        try lia; [|reflexivity].
      replace (j - i)%nat with (S (j - S i)) by lia. reflexivity.
Qed.

Lemma add_cells_IndexError (cellsData : list bytes) (res : list bytes)
    (i : nat) :
  (i <= length res)%nat -> (length res < i + length cellsData)%nat ->
  add_cells res i cellsData = Raise IndexError.
Proof.
  unfold bytes in *.
  revert res i. induction cellsData as [|data cellsData IH];
    intros res i Hi Hlen; cbn [length] in Hlen; [lia|].
  rewrite add_cells_cons. unfold bytes.
  destruct (res !! i) as [cell|] eqn:Hcell; [|reflexivity].
  apply lookup_lt_Some in Hcell.
  apply IH; rewrite length_insert; lia.
Qed.

Lemma fold_add_cells_Raise (cols : list (list bytes)) (e : exn) :
  fold_left (fun res cellsData =>
               (do res <- res; add_cells res 0 cellsData)%result)
    cols (Raise e)
  = Raise e.
Proof. induction cols as [|c cols IH]; [reflexivity | exact IH]. Qed.

Lemma fold_add_cells_Ok (cols : list (list bytes)) (res : list bytes) :
  Forall (fun col => (length col <= length res)%nat) cols ->
  exists res',
    fold_left (fun res cellsData =>
                 (do res <- res; add_cells res 0 cellsData)%result)
      cols (Ok res) = Ok res'
    /\ length res' = length res
    /\ forall j,
         res' !! j
         = match res !! j with
           | Some cell =>
               Some (cell ++ concat (map (fun col => default [] (col !! j))
                                       cols))
           | None => None
           end.
Proof.
  intros Hall. revert res Hall.
  induction cols as [|col cols IH]; intros res Hall.
  - exists res. split; [reflexivity|]. split; [reflexivity|].
    intros j. destruct (res !! j); [|reflexivity]. cbn. now rewrite app_nil_r.
  - inversion Hall as [|? ? Hcol Hcols]; subst.
    cbn [fold_left bind].
    destruct (add_cells_Ok col res 0 ltac:(simpl; lia))
      as (res1 & Hres1 & Hlen1 & Hget1).
    rewrite Hres1.
    destruct (IH res1) as (res' & Hres' & Hlen' & Hget').
    { rewrite Hlen1. exact Hcols. }
    exists res'. split; [exact Hres'|]. split; [congruence|].
    intros j. rewrite Hget', Hget1.
    destruct (res !! j) as [cell|]; [|reflexivity].
    destruct (decide (0 <= j)%nat); [|lia].
    rewrite Nat.sub_0_r. cbn [map concat]. now rewrite <- app_assoc.
Qed.

Lemma fold_add_cells_IndexError (cols : list (list bytes))
    (res : list bytes) :
  Exists (fun col => (length res < length col)%nat) cols ->
  fold_left (fun res cellsData =>
               (do res <- res; add_cells res 0 cellsData)%result)
    cols (Ok res) = Raise IndexError.
Proof.
  revert res. induction cols as [|col cols IH]; intros res Hex.
  - inversion Hex.
  - cbn [fold_left bind].
    destruct (Nat.le_gt_cases (length col) (length res)) as [Hle|Hgt].
    + destruct (add_cells_Ok col res 0 ltac:(simpl; lia))
        as (res1 & Hres1 & Hlen1 & _).
      rewrite Hres1. apply IH. rewrite Hlen1.
      inversion Hex as [? ? Hc|? ? Hc]; subst; [lia | exact Hc].
    + rewrite add_cells_IndexError by (simpl; lia).
      apply fold_add_cells_Raise.
Qed.

Lemma sizeValues_lookup (cellsData : list bytes) (j : nat) :
  default 0 (_generateSizeValues cellsData !! j)
  = Z.of_nat (length (default [] (cellsData !! j))).
Proof.
  unfold _generateSizeValues, bytes in *. rewrite list_lookup_fmap.
  destruct (cellsData !! j) as [data|]; cbn; [|reflexivity].
  destruct data; reflexivity.
Qed.

Lemma length_concat_sizes (cols : list (list bytes)) (j : nat) :
  Z.of_nat (length (concat (map (fun col => default [] (col !! j)) cols)))
  = foldr Z.add 0
      (map (fun col => default 0 (_generateSizeValues col !! j)) cols).
Proof.
  induction cols as [|col cols IH]; [reflexivity|].
  cbn [map concat foldr]. rewrite length_app, Nat2Z.inj_add, IH.
  now rewrite sizeValues_lookup.
Qed.

End RelationFinderConcat.

(** [_generateConcatData] on the cells of several fields, none of which
    has more cells than the first: the result has one cell per cell of the
    first field, the concatenation of the cells of all the fields for that
    message, and [_generateSizeValues] of the result is, message by
    message, the sum of the sizes [_generateSizeValues] gives for each
    field.  A field with more cells than the first one raises
    [IndexError]. *)
Theorem RelationFinder_concat_sizes (first : list bytes)
    (others : list (list bytes)) :
  (Forall (fun cellsData => (length cellsData <= length first)%nat) others ->
   exists res,
     RelationFinder._generateConcatData (first :: others) = Ok res
     /\ length res = length first
     /\ forall j, (j < length first)%nat ->
          res !! j
          = Some (concat (map (fun cellsData => default [] (cellsData !! j))
                            (first :: others)))
          /\ RelationFinder._generateSizeValues res !! j
             = Some (foldr Z.add 0
                       (map (fun cellsData =>
                               default 0
                                 (RelationFinder._generateSizeValues cellsData
                                  !! j))
                          (first :: others))))
  /\ (Exists (fun cellsData => (length first < length cellsData)%nat) others ->
      RelationFinder._generateConcatData (first :: others)
      = Raise IndexError).
Proof.
  unfold RelationFinder._generateConcatData. split.
  - intros Hall.
    destruct (fold_add_cells_Ok (first :: others)
                (map (fun _ => []) first)) as (res & Hres & Hlen & Hget).
    { rewrite length_map. constructor; [lia | exact Hall]. }
    rewrite length_map in Hlen.
    exists res. split; [exact Hres|]. split; [exact Hlen|].
    intros j Hj.
    assert (Hj' : res !! j
                  = Some (concat (map (fun cellsData =>
                                         default [] (cellsData !! j))
                                    (first :: others)))).
    { rewrite Hget, list_lookup_fmap.
      destruct (lookup_lt_is_Some_2 first j Hj) as [c Hc].
      rewrite Hc. reflexivity. }
    split; [exact Hj'|].
    rewrite <- length_concat_sizes.
    unfold RelationFinder._generateSizeValues, bytes in *.
    rewrite list_lookup_fmap, Hj'. cbn [fmap option_fmap option_map].
    f_equal. destruct (concat _); reflexivity.
  - intros Hex. apply fold_add_cells_IndexError.
    rewrite length_map. now apply Exists_cons_tl.
Qed.

(** An instance: the example of the docstring, [["a", "aa", "aaa"]] and
    [["b", "bb", "bbb"]]. *)
Lemma RelationFinder_concat_sizes_witness :
  exists res,
    RelationFinder._generateConcatData
      [ [["a"]; ["a"; "a"]; ["a"; "a"; "a"]];
        [["b"]; ["b"; "b"]; ["b"; "b"; "b"]] ]%byte = Ok res
    /\ length res = 3%nat
    /\ forall j, (j < 3)%nat ->
         res !! j
         = Some (concat (map (fun cellsData => default [] (cellsData !! j))
                           [ [["a"]; ["a"; "a"]; ["a"; "a"; "a"]];
                             [["b"]; ["b"; "b"]; ["b"; "b"; "b"]] ]%byte))
         /\ RelationFinder._generateSizeValues res !! j
            = Some (foldr Z.add 0
                      (map (fun cellsData =>
                              default 0
                                (RelationFinder._generateSizeValues cellsData
                                 !! j))
                         [ [["a"]; ["a"; "a"]; ["a"; "a"; "a"]];
                           [["b"]; ["b"; "b"]; ["b"; "b"; "b"]] ]%byte)).
Proof.
  apply (proj1 (RelationFinder_concat_sizes
                  [["a"]; ["a"; "a"]; ["a"; "a"; "a"]]%byte
                  [ [["b"]; ["b"; "b"]; ["b"; "b"; "b"]] ]%byte)).
  repeat constructor.
Defined.

(** The example of the docstring of [_generateConcatData]. *)
Example RelationFinder_concat_doctest :
  RelationFinder._generateConcatData
    [ [["a"]; ["a"; "a"]; ["a"; "a"; "a"]];
      [["b"]; ["b"; "b"]; ["b"; "b"; "b"]] ]%byte
  = Ok [ ["a"; "b"]; ["a"; "a"; "b"; "b"];
         ["a"; "a"; "a"; "b"; "b"; "b"] ]%byte.
Proof. reflexivity. Qed.

(** ** RelationFinder: the fields of a field tree and their values *)

Section RelationFinderFields.
Import RelationFinder.

Lemma Field_nested_ind (P : Field -> Prop) :
  (forall field_id values subfields,
      Forall P subfields -> P (Build_Field field_id values subfields)) ->
  forall f, P f.
Proof.
  intros H. fix IH 1. intros [field_id values subfields]. apply H.
  induction subfields as [|x subfields IHs]; constructor;
    [apply IH | exact IHs].
Qed.

Lemma getAllFieldsValues_fold (subfields : list Field)
    (accF : list Field) (accV : list (list bytes)) :
  Forall (fun f =>
            (_getAllFieldsValues f).2 = map getValues (_getAllFieldsValues f).1
            /\ Forall (fun f' => fields f' = []) (_getAllFieldsValues f).1)
    subfields ->
  accV = map getValues accF ->
  Forall (fun f' => fields f' = []) accF ->
  (fold_left
     (fun (acc : list Field * list (list bytes)) f =>
        let '(retFields, retValues) := _getAllFieldsValues f in
        (acc.1 ++ retFields, acc.2 ++ retValues))
     subfields (accF, accV)).2
  = map getValues
      (fold_left
         (fun (acc : list Field * list (list bytes)) f =>
            let '(retFields, retValues) := _getAllFieldsValues f in
            (acc.1 ++ retFields, acc.2 ++ retValues))
         subfields (accF, accV)).1
  /\ Forall (fun f' => fields f' = [])
       (fold_left
          (fun (acc : list Field * list (list bytes)) f =>
             let '(retFields, retValues) := _getAllFieldsValues f in
             (acc.1 ++ retFields, acc.2 ++ retValues))
          subfields (accF, accV)).1.
Proof.
  intros Hall. revert accF accV.
  induction Hall as [|f subfields [Hv Hl] _ IH]; intros accF accV HaccV HaccF.
  - cbn. split; assumption.
  - cbn [fold_left].
    destruct (_getAllFieldsValues f) as [retFields retValues].
    cbn [fst snd] in *. apply IH.
    + rewrite map_app. congruence.
    + apply Forall_app. split; assumption.
Qed.

Lemma getAllFieldsValues_leaves (field : Field) :
  (_getAllFieldsValues field).2
  = map getValues (_getAllFieldsValues field).1
  /\ Forall (fun f' => fields f' = []) (_getAllFieldsValues field).1.
Proof.
  induction field as [field_id values subfields IH] using Field_nested_ind.
  destruct subfields as [|f0 subfields].
  - split; [reflexivity | repeat constructor].
  - cbn [_getAllFieldsValues].
    apply getAllFieldsValues_fold; [exact IH | reflexivity | constructor].
Qed.

End RelationFinderFields.

(** [_getAllFieldsValues] returns the leaves of the field tree and their
    values side by side: the list of values is, position by position, what
    [getValues] gives for the list of fields, every field returned has no
    sub-fields, and a field without sub-fields comes back alone. *)
Theorem RelationFinder_getAllFieldsValues (field : RelationFinder.Field) :
  (RelationFinder._getAllFieldsValues field).2
  = map RelationFinder.getValues (RelationFinder._getAllFieldsValues field).1
  /\ Forall (fun f => RelationFinder.fields f = [])
       (RelationFinder._getAllFieldsValues field).1
  /\ (RelationFinder.fields field = [] ->
      RelationFinder._getAllFieldsValues field
      = ([field], [RelationFinder.getValues field])).
Proof.
  destruct (getAllFieldsValues_leaves field) as [Hv Hl].
  split; [exact Hv|]. split; [exact Hl|].
  destruct field as [field_id values [|f0 subfields]];
    [reflexivity | discriminate].
Qed.

(** An instance: a leaf field. *)
Lemma RelationFinder_getAllFieldsValues_witness :
  RelationFinder._getAllFieldsValues
    (RelationFinder.Build_Field 1 [["a"%byte]] [])
  = ([RelationFinder.Build_Field 1 [["a"%byte]] []],
     [RelationFinder.getValues
        (RelationFinder.Build_Field 1 [["a"%byte]] [])]).
Proof.
  apply (proj2 (proj2 (RelationFinder_getAllFieldsValues
                         (RelationFinder.Build_Field 1 [["a"%byte]] [])))).
  reflexivity.
Defined.

(** ** EthernetChannel: [macToBitarray] on bytes *)

Section MacToBitarray.
Import EthernetChannel.

Lemma bits_value_acc (acc : N) (l : bitarray) :
  bits_value acc l = (acc * 2 ^ N.of_nat (length l) + bits_value 0 l)%N.
Proof.
  unfold bits_value. revert acc. induction l as [|b l IH]; intros acc.
  - cbn. lia.
  - cbn [fold_left length]. rewrite IH.
    rewrite (IH (2 * 0 + (if b then 1 else 0))%N).
    rewrite Nat2N.inj_succ, N.pow_succ_r'. lia.
Qed.

Lemma bits_value_app (acc : N) (l1 l2 : bitarray) :
  bits_value acc (l1 ++ l2) = bits_value (bits_value acc l1) l2.
Proof. unfold bits_value. apply fold_left_app. Qed.

Lemma bits_value_bound (l : bitarray) :
  (bits_value 0 l < 2 ^ N.of_nat (length l))%N.
Proof.
  induction l as [|b l IH] using rev_ind.
  - cbn. lia.
  - rewrite bits_value_app, length_app. cbn [length bits_value fold_left].
    replace (N.of_nat (length l + 1)) with (N.succ (N.of_nat (length l)))
      by lia.
    rewrite N.pow_succ_r'. destruct b; lia.
Qed.

Lemma bits_value_zeros (n : nat) (l : bitarray) :
  bits_value 0 (replicate n false ++ l) = bits_value 0 l.
Proof.
  rewrite bits_value_app. f_equal.
  induction n as [|n IH]; [reflexivity|]. exact IH.
Qed.

Lemma bits_value_pos_digits (p : positive) :
  bits_value 0 (rev (pos_digits p)) = Npos p.
Proof.
  induction p as [p IH|p IH|]; cbn [pos_digits rev];
    rewrite ?bits_value_app, ?IH; reflexivity.
Qed.

Lemma bits_value_bin_digits (n : N) : bits_value 0 (bin_digits n) = n.
Proof. destruct n as [|p]; [reflexivity | apply bits_value_pos_digits]. Qed.

Lemma bits_value_byte_bits (b : byte) :
  bits_value 0 (byte_bits b) = Byte.to_N b.
Proof. destruct b; vm_compute; reflexivity. Qed.

Lemma bits_value_inj (l1 l2 : bitarray) :
  length l1 = length l2 -> bits_value 0 l1 = bits_value 0 l2 -> l1 = l2.
Proof.
  revert l2. induction l1 as [|a l1 IH]; intros [|b l2] Hlen Hv;
    try discriminate; [reflexivity|].
  injection Hlen as Hlen.
  change (bits_value 0 (a :: l1))
    with (bits_value (2 * 0 + (if a then 1 else 0))%N l1) in Hv.
  change (bits_value 0 (b :: l2))
    with (bits_value (2 * 0 + (if b then 1 else 0))%N l2) in Hv.
  rewrite (bits_value_acc _ l1), (bits_value_acc _ l2) in Hv.
  pose proof (bits_value_bound l1) as H1.
  pose proof (bits_value_bound l2) as H2.
  rewrite Hlen in Hv, H1.
  destruct a, b;
    [ f_equal; apply IH; [exact Hlen | lia]
    | exfalso; lia
    | exfalso; lia
    | f_equal; apply IH; [exact Hlen | lia] ].
Qed.

Lemma int_16_hexlify (addr : bytes) (acc : N) :
  fold_left (fun acc d => (16 * acc + d)%N) (hexlify addr) acc
  = fold_left (fun acc b => (256 * acc + Byte.to_N b)%N) addr acc.
Proof.
  revert acc. induction addr as [|b addr IH]; intros acc; [reflexivity|].
  cbn [hexlify flat_map app fold_left]. fold (hexlify addr).
  rewrite IH. f_equal.
  pose proof (N.div_mod (Byte.to_N b) 16 ltac:(discriminate)) as Hb.
  lia.
Qed.

Lemma big_endian_value_frombytes (addr : bytes) (acc : N) :
  bits_value acc (frombytes addr)
  = fold_left (fun acc b => (256 * acc + Byte.to_N b)%N) addr acc.
Proof.
  revert acc. induction addr as [|b addr IH]; intros acc; [reflexivity|].
  unfold frombytes. cbn [flat_map fold_left]. fold (frombytes addr).
  rewrite bits_value_app, IH. f_equal.
  rewrite bits_value_acc, bits_value_byte_bits.
  change (2 ^ N.of_nat (length (byte_bits b)))%N with 256%N. lia.
Qed.

Lemma length_frombytes (addr : bytes) :
  length (frombytes addr) = (8 * length addr)%nat.
Proof.
  unfold frombytes. induction addr as [|b addr IH]; [reflexivity|].
  cbn [flat_map]. rewrite length_app, IH.
  change (length (byte_bits b)) with 8%nat. cbn [length]. lia.
Qed.

Lemma big_endian_value_bound (addr : bytes) :
  (big_endian_value addr < 2 ^ N.of_nat (8 * length addr))%N.
Proof.
  unfold big_endian_value. rewrite <- big_endian_value_frombytes.
  pose proof (bits_value_bound (frombytes addr)) as Hb.
  now rewrite length_frombytes in Hb.
Qed.

(** The number of binary digits of a number. *)
Lemma length_pos_digits (p : positive) :
  (2 ^ N.of_nat (length (pos_digits p)) <= 2 * Npos p
   < 2 * 2 ^ N.of_nat (length (pos_digits p)))%N.
Proof.
  induction p as [p IH|p IH|]; cbn [pos_digits length];
    rewrite ?Nat2N.inj_succ, ?N.pow_succ_r'; cbn; lia.
Qed.

Lemma bin_digits_overflow (n : N) :
  (48 < length (bin_digits n))%nat <-> (2 ^ 48 <= n)%N.
Proof.
  destruct n as [|p].
  - cbn. split; [lia | intros H; exfalso; revert H; vm_compute; auto].
  - cbn [bin_digits]. rewrite length_rev.
    pose proof (length_pos_digits p) as [Hlo Hhi].
    split; intros H.
    + assert (2 ^ 49 <= 2 ^ N.of_nat (length (pos_digits p)))%N
        by (apply N.pow_le_mono_r; [discriminate | lia]).
      change (2 ^ 49)%N with (2 * 2 ^ 48)%N in *. lia.
    + destruct (Nat.le_gt_cases (length (pos_digits p)) 48) as [Hle|];
        [|assumption].
      assert (2 ^ N.of_nat (length (pos_digits p)) <= 2 ^ 48)%N
        by (apply N.pow_le_mono_r; [discriminate | lia]).
      lia.
Qed.

End MacToBitarray.

Section MacToBitarrayResult.
Import EthernetChannel.

Lemma macToBitarray_nonempty (addr : bytes) :
  addr <> [] ->
  macToBitarray addr
  = if (48 <? length (bin_digits (big_endian_value addr)))%nat
    then Raise GenericException
    else Ok (replicate (48 - length (bin_digits (big_endian_value addr)))
               false
             ++ bin_digits (big_endian_value addr)).
Proof.
  intros Hne. unfold macToBitarray, int_16, big_endian_value.
  rewrite <- int_16_hexlify.
  destruct addr as [|b addr]; [congruence|]. reflexivity.
Qed.

End MacToBitarrayResult.

(** [macToBitarray] on an address given as bytes.  Whenever it returns,
    the bitarray has exactly 48 bits and reads, most significant bit first,
    as the number the bytes spell, most significant byte first; for six
    bytes it is the bits of these six bytes.  It raises the bare
    [Exception] exactly when that number needs more than 48 bits (leading
    null bytes do not count), and [ValueError] on the empty byte
    string. *)
Theorem EthernetChannel_macToBitarray_bytes (addr : bytes) :
  (addr = [] -> EthernetChannel.macToBitarray addr = Raise ValueError)
  /\ (addr <> [] ->
      (EthernetChannel.macToBitarray addr = Raise GenericException
       <-> (2 ^ 48 <= EthernetChannel.big_endian_value addr)%N))
  /\ (forall bits,
        EthernetChannel.macToBitarray addr = Ok bits ->
        length bits = 48%nat
        /\ EthernetChannel.bits_value 0 bits
           = EthernetChannel.big_endian_value addr)
  /\ (length addr = 6%nat ->
      EthernetChannel.macToBitarray addr = Ok (frombytes addr)).
Proof.
  split; [intros ->; reflexivity|].
  assert (Hbits : forall bits,
            EthernetChannel.macToBitarray addr = Ok bits ->
            length bits = 48%nat
            /\ EthernetChannel.bits_value 0 bits
               = EthernetChannel.big_endian_value addr).
  { intros bits. destruct addr as [|b addr]; [discriminate|].
    rewrite macToBitarray_nonempty by discriminate.
    destruct (Nat.ltb_spec 48
                (length (EthernetChannel.bin_digits
                           (EthernetChannel.big_endian_value (b :: addr)))));
      [discriminate|].
    intros [= <-]. split.
    - rewrite length_app, length_replicate. lia.
    - rewrite bits_value_zeros. apply bits_value_bin_digits. }
  assert (Hover : addr <> [] ->
            (EthernetChannel.macToBitarray addr = Raise GenericException
             <-> (2 ^ 48 <= EthernetChannel.big_endian_value addr)%N)).
  { intros Hne. rewrite macToBitarray_nonempty by exact Hne.
    rewrite <- bin_digits_overflow.
    destruct (Nat.ltb_spec 48
                (length (EthernetChannel.bin_digits
                           (EthernetChannel.big_endian_value addr))));
      split; try discriminate; try reflexivity; try lia; auto. }
  split; [exact Hover|]. split; [exact Hbits|].
  intros Hlen.
  assert (Hne : addr <> []) by (destruct addr; [discriminate | congruence]).
  destruct (EthernetChannel.macToBitarray addr) as [bits|e] eqn:Hm.
  - destruct (Hbits bits eq_refl) as [Hl Hv]. f_equal.
    apply bits_value_inj.
    + rewrite Hl, length_frombytes, Hlen. reflexivity.
    + rewrite Hv. symmetry. apply big_endian_value_frombytes.
  - exfalso. rewrite macToBitarray_nonempty in Hm by exact Hne.
    destruct (Nat.ltb_spec 48
                (length (EthernetChannel.bin_digits
                           (EthernetChannel.big_endian_value addr))))
      as [Hlt|]; [|discriminate].
    apply bin_digits_overflow in Hlt.
    pose proof (big_endian_value_bound addr) as Hb. rewrite Hlen in Hb.
    change (2 ^ N.of_nat (8 * 6))%N with (2 ^ 48)%N in Hb. lia.
Qed.

(** An instance: the doctest
    [macToBitarray(b'\x00\x01\x02\x03\x04\x05')]. *)
Lemma EthernetChannel_macToBitarray_bytes_witness :
  EthernetChannel.macToBitarray [x00; x01; x02; x03; x04; x05]
  = Ok (frombytes [x00; x01; x02; x03; x04; x05]).
Proof.
  apply (proj2 (proj2 (proj2 (EthernetChannel_macToBitarray_bytes
                                [x00; x01; x02; x03; x04; x05])))).
  reflexivity.
Defined.

Example EthernetChannel_macToBitarray_doctest :
  EthernetChannel.macToBitarray [x00; x01; x02; x03; x04; x05]
  = Ok [b0; b0; b0; b0; b0; b0; b0; b0;  b0; b0; b0; b0; b0; b0; b0; b1;
        b0; b0; b0; b0; b0; b0; b1; b0;  b0; b0; b0; b0; b0; b0; b1; b1;
        b0; b0; b0; b0; b0; b1; b0; b0;  b0; b0; b0; b0; b0; b1; b0; b1].
Proof. vm_compute. reflexivity. Qed.

(** ** Integer: [encode] returns on every byte string *)

Section IntegerEncodeTotal.
Import Integer.

Lemma struct_unpack_Ok (f : format) (w : bytes) :
  length w = calcsize (letter f) -> exists v, struct_unpack f w = Ok v.
Proof.
  intros Hl. unfold struct_unpack. rewrite Hl, Nat.eqb_refl. eauto.
Qed.

Lemma rev_map_seq {A} (f : nat -> A) (n : nat) :
  rev (map f (seq 0 n)) = map (fun j => f (n - 1 - j)%nat) (seq 0 n).
Proof.
  induction n as [|n IH]; [reflexivity|].
  rewrite seq_S at 1. rewrite map_app, rev_app_distr. cbn [map rev app].
  rewrite IH. cbn [seq map]. f_equal.
  - f_equal. lia.
  - rewrite <- seq_shift, map_map. apply map_ext_in.
    intros j Hj. apply in_seq in Hj. f_equal. lia.
Qed.

(** One round of the word loop returns: the word it cuts, padded in the
    last round when the data stop short, has the size of the format. *)
Lemma encode_step_Ok u e s f (data : bytes) (k : nat) (acc : Z) :
  integer_unitSize u -> computeFormat u e s = Ok f ->
  Z.of_nat k
  < (if (Z.of_nat (length data) * 8) mod value u =? 0
     then Z.of_nat (length data) * 8 / value u
     else Z.of_nat (length data) * 8 / value u + 1) ->
  exists acc',
    encode_step data u e f
      (if (Z.of_nat (length data) * 8) mod value u =? 0 then 0
       else (value u - (Z.of_nat (length data) * 8) mod value u) / 8)
      match e with
      | BIG => 0 - -1
      | LITTLE =>
          (if (Z.of_nat (length data) * 8) mod value u =? 0
           then Z.of_nat (length data) * 8 / value u
           else Z.of_nat (length data) * 8 / value u + 1) - 1
      end
      (Ok (Z.of_nat k, acc))
      match e with
      | BIG =>
          (if (Z.of_nat (length data) * 8) mod value u =? 0
           then Z.of_nat (length data) * 8 / value u
           else Z.of_nat (length data) * 8 / value u + 1) - Z.of_nat k
      | LITTLE => Z.of_nat k
      end
    = Ok (Z.of_nat k + 1, acc').
Proof.
  intros Hu Hf Hk.
  destruct (computeFormat_Ok u e s Hu) as (f' & Hf' & _ & Hsz & _).
  assert (f' = f) by congruence. subst f'. clear Hf'.
  unfold encode_step. cbn [bind].
  match goal with
  | |- context [struct_unpack f ?w] =>
      destruct (struct_unpack_Ok f w) as [v Hv]
  end.
  2: { rewrite Hv. cbn [bind]. eauto. }
  assert (Hc : Z.of_nat (calcsize (letter f)) = value u / 8)
    by (rewrite <- Hsz, Z.mul_comm, Z.div_mul; lia).
  apply Nat2Z.inj. rewrite Hc. clear Hf Hsz Hc f.
  destruct Hu as [-> | [-> | [-> | ->]]]; cbn [value] in *;
    destruct ((Z.of_nat (length data) * 8) mod _ =? 0) eqn:Hrest;
    [ apply Z.eqb_eq in Hrest | apply Z.eqb_neq in Hrest
    | apply Z.eqb_eq in Hrest | apply Z.eqb_neq in Hrest
    | apply Z.eqb_eq in Hrest | apply Z.eqb_neq in Hrest
    | apply Z.eqb_eq in Hrest | apply Z.eqb_neq in Hrest ];
    destruct e;
    repeat match goal with
           | |- context [?a <? ?b] => destruct (Z.ltb_spec a b)
           | |- context [?a =? ?b] => destruct (Z.eqb_spec a b)
           end;
    cbn [andb]; unfold slice;
    rewrite ?length_app, ?length_replicate, ?length_drop, ?length_take;
    Z.div_mod_to_equations; lia.
Qed.

Lemma encode_fold_Ok u e f (data : bytes) (padding emi : Z)
    (idx : nat -> Z) (nbWords : nat) :
  (forall k acc, (k < nbWords)%nat ->
     exists acc',
       encode_step data u e f padding emi (Ok (Z.of_nat k, acc)) (idx k)
       = Ok (Z.of_nat k + 1, acc')) ->
  forall m k acc, (k + m = nbWords)%nat ->
    exists st,
      fold_left (encode_step data u e f padding emi) (map idx (seq k m))
        (Ok (Z.of_nat k, acc)) = Ok st.
Proof.
  intros Hstep. induction m as [|m IH]; intros k acc Hkm.
  - cbn. eauto.
  - cbn [seq map fold_left].
    destruct (Hstep k acc ltac:(lia)) as [acc' ->].
    replace (Z.of_nat k + 1) with (Z.of_nat (S k)) by lia.
    apply IH. lia.
Qed.

End IntegerEncodeTotal.

(** For the unit sizes of 8, 16, 32 and 64 bits [Integer.encode] returns an
    integer on every byte string, whatever its length, endianness and sign:
    the null bytes added to the last word make every word of the loop as
    wide as the [struct] format, so [struct.unpack] never raises.  On the
    empty byte string the loop does not run and the result is 0. *)
Theorem Integer_encode_returns
    (unitSize : Integer.UnitSize) (endianness : Integer.Endianness)
    (sign : Integer.Sign) (data : bytes) :
  Integer.integer_unitSize unitSize ->
  (exists v, Integer.encode data unitSize endianness sign = Ok v)
  /\ Integer.encode [] unitSize endianness sign = Ok 0.
Proof.
  intros Hu. split.
  - destruct (computeFormat_Ok unitSize endianness sign Hu)
      as (f & Hf & _ & _ & _).
    unfold Integer.encode. rewrite Hf. cbn [bind]. cbv zeta.
    pose proof (fun k acc =>
                  encode_step_Ok unitSize endianness sign f data k acc Hu Hf)
      as Hstep.
    set (nbWords := if (Z.of_nat (length data) * 8)
                         mod Integer.value unitSize =? 0
                    then Z.of_nat (length data) * 8 / Integer.value unitSize
                    else Z.of_nat (length data) * 8 / Integer.value unitSize
                         + 1) in *.
    assert (Hidx : Integer.word_range endianness nbWords
                   = map (fun k => match endianness with
                                   | Integer.BIG => nbWords - Z.of_nat k
                                   | Integer.LITTLE => Z.of_nat k
                                   end)
                       (seq 0 (Z.to_nat nbWords))).
    { unfold Integer.word_range. destruct endianness; [|reflexivity].
      rewrite rev_map_seq. apply map_ext_in.
      intros j Hj. apply in_seq in Hj. lia. }
    rewrite Hidx.
    destruct (encode_fold_Ok unitSize endianness f data _ _
                (fun k => match endianness with
                          | Integer.BIG => nbWords - Z.of_nat k
                          | Integer.LITTLE => Z.of_nat k
                          end)
                (Z.to_nat nbWords)
                (fun k acc Hk => Hstep k acc ltac:(lia))
                (Z.to_nat nbWords) 0%nat 0 eq_refl) as [st Hst].
    change (Z.of_nat 0) with 0 in Hst. rewrite Hst. cbn [bind]. eauto.
  - destruct Hu as [-> | [-> | [-> | ->]]]; destruct endianness, sign;
      reflexivity.
Qed.

(** An instance: three bytes in words of 16 bits, the doctest
    [Integer.encode(b'\xcc\xac\x9c', unitSize=UnitSize.SIZE_16,
    endianness=Endianness.BIG)]. *)
Lemma Integer_encode_returns_witness :
  (exists v,
     Integer.encode [xcc; xac; x9c] Integer.SIZE_16 Integer.BIG
       Integer.SIGNED = Ok v)
  /\ Integer.encode [] Integer.SIZE_16 Integer.BIG Integer.SIGNED = Ok 0.
Proof.
  apply (Integer_encode_returns Integer.SIZE_16 Integer.BIG Integer.SIGNED
           [xcc; xac; x9c]).
  right; left; reflexivity.
Defined.

(** ** Alt: what every yielded path holds *)

Section AltParseInvariant.




End AltParseInvariant.



(** ** Integer: [decode] after [encode] *)

Section IntegerDecodeEncode.
Import Integer.

Lemma byte_of_Z_of_byte (b : byte) (k : Z) :
  byte_of_Z (Z_of_byte b + 256 * k) = b.
Proof.
  unfold byte_of_Z.
  pose proof (Z_of_byte_range b) as Hb.
  replace ((Z_of_byte b + 256 * k) mod 256) with (Z_of_byte b).
  - unfold Z_of_byte. rewrite N2Z.id, Byte.of_to_N. reflexivity.
  - symmetry.
    replace (Z_of_byte b + 256 * k) with (Z_of_byte b + k * 256) by lia.
    rewrite Z.mod_add by lia. apply Z.mod_small. lia.
Qed.

Lemma le_bytes_le_value (bs : bytes) : le_bytes (length bs) (le_value bs) = bs.
Proof.
  induction bs as [|b bs IH]; [reflexivity|].
  cbn [length le_bytes le_value]. rewrite byte_of_Z_of_byte. f_equal.
  pose proof (Z_of_byte_range b) as Hb.
  replace ((Z_of_byte b + 256 * le_value bs) / 256) with (le_value bs);
    [exact IH|].
  replace (Z_of_byte b + 256 * le_value bs)
    with (Z_of_byte b + le_value bs * 256) by lia.
  rewrite Z.div_add by lia.
  rewrite (Z.div_small (Z_of_byte b)) by lia. lia.
Qed.

Lemma le_bytes_wrap (n : nat) (v k : Z) :
  le_bytes n (v + k * 2 ^ (8 * Z.of_nat n)) = le_bytes n v.
Proof.
  revert v k. induction n as [|n IH]; intros v k; [reflexivity|].
  cbn [le_bytes].
  replace (8 * Z.of_nat (S n)) with (8 + 8 * Z.of_nat n) by lia.
  rewrite Z.pow_add_r by lia. change (2 ^ 8) with 256.
  replace (v + k * (256 * 2 ^ (8 * Z.of_nat n)))
    with (v + (k * 2 ^ (8 * Z.of_nat n)) * 256) by lia.
  f_equal.
  - unfold byte_of_Z. rewrite Z.mod_add by lia. reflexivity.
  - rewrite Z.div_add by lia. apply IH.
Qed.

Lemma struct_pack_unpack (f : format) (raw : bytes) (v : Z) :
  struct_unpack f raw = Ok v ->
  struct_pack f v = Ok raw /\ fmt_min f <= v <= fmt_max f.
Proof.
  unfold struct_unpack.
  destruct (Nat.eqb_spec (length raw) (calcsize (letter f))) as [Hl|];
    [|discriminate].
  intros [= <-].
  cbv zeta. unfold struct_pack. unfold bytes in *.
  remember (match endianFormat f with LITTLE => raw | BIG => rev raw end)
    as bs eqn:Hdef.
  assert (Hbs : length bs = calcsize (letter f))
    by (subst bs; destruct (endianFormat f); rewrite ?length_rev; exact Hl).
  pose proof (le_value_range bs) as Hr. rewrite Hbs in Hr.
  assert (Hpow : 2 ^ (8 * Z.of_nat (calcsize (letter f)))
                 = 2 * 2 ^ (8 * Z.of_nat (calcsize (letter f)) - 1)).
  { replace (8 * Z.of_nat (calcsize (letter f)))
      with (1 + (8 * Z.of_nat (calcsize (letter f)) - 1)) at 1 by lia.
    rewrite Z.pow_add_r; [reflexivity | lia |].
    destruct (letter f); simpl; lia. }
  assert (Hraw : match endianFormat f with
                 | LITTLE => le_bytes (calcsize (letter f)) (le_value bs)
                 | BIG => rev (le_bytes (calcsize (letter f)) (le_value bs))
                 end = raw).
  { rewrite <- Hbs, le_bytes_le_value. subst bs.
    destruct (endianFormat f); [apply rev_involutive | reflexivity]. }
  clear Hdef.
  unfold fmt_min, fmt_max.
  destruct (upper f); cbv beta iota zeta.
  - split; [|lia].
    destruct (Z.leb_spec 0 (le_value bs)); [|lia].
    destruct (Z.leb_spec (le_value bs)
                (2 ^ (8 * Z.of_nat (calcsize (letter f))) - 1)); [|lia].
    cbn [andb]. f_equal. exact Hraw.
  - destruct (Z.ltb_spec (le_value bs)
                (2 ^ (8 * Z.of_nat (calcsize (letter f)) - 1))).
    + split; [|lia].
      destruct (Z.leb_spec (- 2 ^ (8 * Z.of_nat (calcsize (letter f)) - 1))
                  (le_value bs)); [|lia].
      destruct (Z.leb_spec (le_value bs)
                  (2 ^ (8 * Z.of_nat (calcsize (letter f)) - 1) - 1)); [|lia].
      cbn [andb]. f_equal. exact Hraw.
    + split; [|lia].
      destruct (Z.leb_spec (- 2 ^ (8 * Z.of_nat (calcsize (letter f)) - 1))
                  (le_value bs - 2 ^ (8 * Z.of_nat (calcsize (letter f)))));
        [|lia].
      destruct (Z.leb_spec
                  (le_value bs - 2 ^ (8 * Z.of_nat (calcsize (letter f))))
                  (2 ^ (8 * Z.of_nat (calcsize (letter f)) - 1) - 1)); [|lia].
      cbn [andb]. f_equal.
      replace (le_value bs - 2 ^ (8 * Z.of_nat (calcsize (letter f))))
        with (le_value bs
              + (-1) * 2 ^ (8 * Z.of_nat (calcsize (letter f)))) by lia.
      rewrite le_bytes_wrap. exact Hraw.
Qed.

End IntegerDecodeEncode.

(** For a unit size of 8, 16, 32 or 64 bits, either endianness and either
    sign, and every byte string of exactly one unit: [Integer.encode]
    returns an integer within the storage range, and [Integer.decode] of
    that integer, under the same parameters, gives the byte string back. *)
Theorem Integer_decode_encode_roundtrip
    (unitSize : Integer.UnitSize) (endianness : Integer.Endianness)
    (sign : Integer.Sign) (raw : bytes) :
  Integer.integer_unitSize unitSize ->
  Z.of_nat (length raw) * 8 = Integer.value unitSize ->
  exists v : Z,
    Integer.encode raw unitSize endianness sign = Ok v
    /\ Integer.getMinStorageValue unitSize sign <= v
       <= Integer.getMaxStorageValue unitSize sign
    /\ Integer.decode v unitSize endianness sign = Ok raw.
Proof.
  intros Hu Hlen.
  destruct (computeFormat_Ok unitSize endianness sign Hu)
    as (f & Hf & _ & Hsz & _).
  destruct (fmt_range_storage _ _ _ _ Hu Hf) as [Hmin Hmax].
  rewrite (encode_one_word _ _ _ f raw Hu Hf Hlen).
  destruct (struct_unpack_Ok f raw) as [v Hv]; [lia|].
  destruct (struct_pack_unpack f raw v Hv) as [Hp Hr].
  exists v. split; [exact Hv|]. split; [lia|].
  unfold Integer.decode. rewrite Hf. exact Hp.
Qed.

(** An instance: the two bytes ff 7f as a signed little-endian integer of
    16 bits. *)
Lemma Integer_decode_encode_roundtrip_witness :
  exists v : Z,
    Integer.encode [xff; x7f] Integer.SIZE_16 Integer.LITTLE Integer.SIGNED
    = Ok v
    /\ Integer.getMinStorageValue Integer.SIZE_16 Integer.SIGNED <= v
       <= Integer.getMaxStorageValue Integer.SIZE_16 Integer.SIGNED
    /\ Integer.decode v Integer.SIZE_16 Integer.LITTLE Integer.SIGNED
       = Ok [xff; x7f].
Proof.
  apply (Integer_decode_encode_roundtrip Integer.SIZE_16 Integer.LITTLE
           Integer.SIGNED [xff; x7f]).
  - right; left; reflexivity.
  - reflexivity.
Defined.

(** ** BitArray: what [generate] returns can be parsed *)

(** A bitarray that [BitArray.generate] returns is accepted by [canParse]
    of the same type: the fixed value when there is one and it is not
    empty, and otherwise the bitarray drawn within the bounds, when the
    lower bound is at least 1 ([canParse] refuses the empty bitarray, which
    a lower bound of 0 lets [generate] draw). *)
Theorem BitArray_generate_canParse {W : Type} `{PRNG W}
    (MAXIMUM_GENERATED_DATA_SIZE : Z) (self : BitArrayType) (w w' : W)
    (b : BitArrayOps.pybitarray) :
  randbelow_in_range ->
  match type_value self with
  | Some v => BitArrayOps.bits v <> []
  | None => forall minSize, fst (type_size self) = Some minSize -> 1 <= minSize
  end ->
  BitArray_generate MAXIMUM_GENERATED_DATA_SIZE self w = (Ok b, w') ->
  BitArray.canParse
    {| BitArray.value := option_map BitArrayOps.bits (type_value self);
       BitArray.size := type_size self |}
    (BitArrayOps.bits b) = true.
Proof.
  intros Hr Hcond. unfold BitArray_generate, BitArray.canParse.
  cbn [BitArray.value BitArray.size].
  destruct (type_value self) as [v|].
  - intros [= <- <-]. cbn [option_map].
    destruct (BitArrayOps.bits v) as [|x l] eqn:Hv; [congruence|].
    cbn [length Nat.eqb]. now rewrite bool_decide_eq_true_2.
  - destruct (type_size self) as [[lo|] hi]; cbn [fst snd] in *;
      [|discriminate].
    specialize (Hcond lo eq_refl).
    unfold random_randint.
    destruct (Z.ltb_spec 0
                (match hi with
                 | Some m => m
                 | None => MAXIMUM_GENERATED_DATA_SIZE
                 end + 1 - lo)) as [Hw|]; [|discriminate].
    pose proof (Hr (Z.to_nat (match hi with
                              | Some m => m
                              | None => MAXIMUM_GENERATED_DATA_SIZE
                              end + 1 - lo)) w ltac:(lia)) as Hlt.
    destruct (randbelow _ w) as [r w1]. cbn [fst] in Hlt.
    destruct (random_bits_length (Z.to_nat (lo + Z.of_nat r)) w1)
      as (l & w2 & Hl & Hlen).
    rewrite Hl. cbn [bind]. intros [= <- <-].
    cbn [BitArrayOps.bits option_map].
    destruct l as [|x l]; [cbn in Hlen; lia|].
    cbn [Nat.eqb length] in *.
    destruct (Z.ltb_spec (Z.of_nat (S (length l))) lo); [lia|].
    destruct hi as [m|]; [|reflexivity].
    destruct (Z.ltb_spec m (Z.of_nat (S (length l)))); [lia | reflexivity].
Qed.

(** An instance: [BitArray(nbBits=(13, 128))] with a source of draws that
    always answers 0. *)
Lemma BitArray_generate_canParse_witness :
  BitArray.canParse
    {| BitArray.value := None; BitArray.size := (Some 13, Some 128) |}
    (replicate 13 false) = true.
Proof.
  apply (BitArray_generate_canParse 65536
           {| type_value := None; type_size := (Some 13, Some 128);
              type_endianness := Integer.BIG |} tt tt
           (BitArrayOps.PyBitarray Integer.BIG (replicate 13 false))).
  - intros n w Hn. simpl. exact Hn.
  - simpl. intros minSize [= <-]. lia.
  - reflexivity.
Defined.

(** ** Fuzz: keyword arguments stay in the default parameters *)

(** [Fuzz._retrieveDefaultMutator] updates in place the [dict] of default
    parameters held by the mapping: the mutator is built with the keyword
    arguments of the call on top of the defaults, and these keyword
    arguments stay.  A later call without keyword arguments that reaches
    the same [dict], through this mapping or another one, builds its
    mutator with the very same parameters and leaves every [dict] as it
    is. *)
Theorem Fuzz_retrieveDefaultMutator_keeps_kwargs {T D M V : Type}
    (matches : D -> T -> bool) (domain : D)
    (mapping : list (T * (M * positive)))
    (kwargs : gmap string V) (h h' : positive -> gmap string V)
    (inst : @FuzzDefaults.MutatorInstance D M V) :
  FuzzDefaults._retrieveDefaultMutator matches domain mapping kwargs h
  = (Ok inst, h') ->
  exists mutator ref,
    FuzzDefaults.find_mutator matches domain mapping = Some (mutator, ref)
    /\ FuzzDefaults.instance_class inst = mutator
    /\ FuzzDefaults.instance_parameters inst = kwargs ∪ h ref
    /\ h' ref = kwargs ∪ h ref
    /\ (forall r, r <> ref -> h' r = h r)
    /\ forall domain2 (mapping2 : list (T * (M * positive))) mutator2,
         FuzzDefaults.find_mutator matches domain2 mapping2
         = Some (mutator2, ref) ->
         exists h'',
           FuzzDefaults._retrieveDefaultMutator matches domain2 mapping2 ∅ h'
           = (Ok {| FuzzDefaults.instance_class := mutator2;
                    FuzzDefaults.instance_domain := domain2;
                    FuzzDefaults.instance_parameters :=
                      FuzzDefaults.instance_parameters inst |}, h'')
           /\ forall r, h'' r = h' r.
Proof.
  unfold FuzzDefaults._retrieveDefaultMutator.
  destruct (FuzzDefaults.find_mutator matches domain mapping)
    as [[mutator ref]|] eqn:Hfind; [|discriminate].
  intros [= <- <-]. exists mutator, ref.
  assert (Href : FuzzDefaults.heap_update h ref (kwargs ∪ h ref) ref
                 = kwargs ∪ h ref)
    by (unfold FuzzDefaults.heap_update; now rewrite Pos.eqb_refl).
  split; [reflexivity|]. split; [reflexivity|].
  cbn [FuzzDefaults.instance_parameters].
  split; [exact Href|]. split; [exact Href|]. split.
  - intros r Hr. unfold FuzzDefaults.heap_update.
    destruct (Pos.eqb_spec r ref); [congruence | reflexivity].
  - intros domain2 mapping2 mutator2 ->. eexists. split.
    + unfold FuzzDefaults.heap_update. rewrite !Pos.eqb_refl.
      rewrite (left_id_L ∅ (∪) (kwargs ∪ h ref)). reflexivity.
    + intros r. cbv beta. unfold FuzzDefaults.heap_update.
      destruct (Pos.eqb r ref); reflexivity.
Qed.

(** An instance: the table maps the type 1 to the mutator class 7 with
    empty defaults held in the [dict] 5; a first call passes [seed]. *)
Lemma Fuzz_retrieveDefaultMutator_keeps_kwargs_witness :
  exists mutator ref : positive,
    FuzzDefaults.find_mutator Pos.eqb 1%positive
      [(1%positive, (7%positive, 5%positive))] = Some (mutator, ref)
    /\ FuzzDefaults.instance_class
         {| FuzzDefaults.instance_class := 7%positive;
            FuzzDefaults.instance_domain := 1%positive;
            FuzzDefaults.instance_parameters :=
              ({[ "seed" := 10 ]} ∪ ∅ : gmap string Z) |}
       = mutator
    /\ FuzzDefaults.instance_parameters
         {| FuzzDefaults.instance_class := 7%positive;
            FuzzDefaults.instance_domain := 1%positive;
            FuzzDefaults.instance_parameters :=
              ({[ "seed" := 10 ]} ∪ ∅ : gmap string Z) |}
       = {[ "seed" := 10 ]} ∪ (fun _ : positive => ∅) ref
    /\ FuzzDefaults.heap_update (fun _ => ∅) 5%positive
         ({[ "seed" := 10 ]} ∪ ∅) ref
       = {[ "seed" := 10 ]} ∪ (fun _ : positive => ∅) ref
    /\ (forall r, r <> ref ->
          FuzzDefaults.heap_update (fun _ => ∅) 5%positive
            ({[ "seed" := 10 ]} ∪ ∅) r
          = (fun _ : positive => ∅) r)
    /\ forall domain2 (mapping2 : list (positive * (positive * positive)))
         mutator2,
         FuzzDefaults.find_mutator Pos.eqb domain2 mapping2
         = Some (mutator2, ref) ->
         exists h'',
           FuzzDefaults._retrieveDefaultMutator Pos.eqb domain2 mapping2 ∅
             (FuzzDefaults.heap_update (fun _ => ∅) 5%positive
                ({[ "seed" := 10 ]} ∪ ∅))
           = (Ok {| FuzzDefaults.instance_class := mutator2;
                    FuzzDefaults.instance_domain := domain2;
                    FuzzDefaults.instance_parameters :=
                      FuzzDefaults.instance_parameters
                        {| FuzzDefaults.instance_class := 7%positive;
                           FuzzDefaults.instance_domain := 1%positive;
                           FuzzDefaults.instance_parameters :=
                             ({[ "seed" := 10 ]} ∪ ∅ : gmap string Z) |} |},
              h'')
           /\ forall r,
                h'' r
                = FuzzDefaults.heap_update (fun _ => ∅) 5%positive
                    ({[ "seed" := 10 ]} ∪ ∅) r.
Proof.
  apply (Fuzz_retrieveDefaultMutator_keeps_kwargs Pos.eqb 1%positive
           [(1%positive, (7%positive, 5%positive))]
           ({[ "seed" := 10 ]} : gmap string Z) (fun _ => ∅)
           (FuzzDefaults.heap_update (fun _ => ∅) 5%positive
              ({[ "seed" := 10 ]} ∪ ∅))
           {| FuzzDefaults.instance_class := 7%positive;
              FuzzDefaults.instance_domain := 1%positive;
              FuzzDefaults.instance_parameters := {[ "seed" := 10 ]} ∪ ∅ |}).
  reflexivity.
Defined.
